(** * news_bot: a shallow embedding of the ingestion pipeline

    The development follows the Python sources module by module:

    - [Py]          the fragment of Python values the code manipulates
                    (unicode strings, exceptions, results of fallible calls);
    - [Retry]       core/retry.py;
    - [Validation]  core/validation.py;
    - [Repository]  infrastructure/database_repository.py, the SQLite table
                    [news] being a finite map from the primary key to a row;
    - [Notification]  services/notification_service.py;
    - [Bot]         services/news_bot_service.py, with the health checker of
                    services/health_checker_service.py;
    - [Parser]      services/parsing/news_parser_service.py;
    - [EventBus]    core/event_bus.py;
    - [Metrics]     core/metrics.py, the collector and [timed_metric];
    - [ContentProcessor]  services/content_processor_service.py, the
                    part that decides what [process_content] returns.

    Each module ends with the vocabulary and the examples its statements
    use; the statements follow, module by module.

    Logging has no effect on any value the program computes and is left out.
    Counters of the metrics collector are kept where a statement refers to
    them (the parser) and left out elsewhere; the [timed_metric] decorator
    only counts, measures and re-raises, as [MetricsFacts] shows.  Calls
    that can fail return a
    [Res]; what the outside world answers (the network, the transformer,
    Telegram, the clock, a failing connection) is a parameter. *)

From Stdlib Require Import ZArith QArith Qminmax Qpower List String Ascii.
From stdpp Require Import gmap list strings sorting pretty.

Local Open Scope Z_scope.

(** ** Python values *)

Module Py.

(** A Python [str] is a sequence of unicode code points. *)
Definition pystr := list N.

(** Source literals are written as UTF-8 byte strings and decoded. *)
Definition byte_of (a : ascii) : N := N_of_ascii a.

Fixpoint decode_utf8 (bs : list N) : pystr :=
  match bs with
  | [] => []
  | b1 :: r1 =>
      if (b1 <? 128)%N then b1 :: decode_utf8 r1
      else if (b1 <? 224)%N then
        match r1 with
        | b2 :: r2 =>
            (N.lor (N.shiftl (N.land b1 31) 6) (N.land b2 63)) :: decode_utf8 r2
        | [] => [b1]
        end
      else if (b1 <? 240)%N then
        match r1 with
        | b2 :: b3 :: r3 =>
            (N.lor (N.shiftl (N.land b1 15) 12)
               (N.lor (N.shiftl (N.land b2 63) 6) (N.land b3 63)))
              :: decode_utf8 r3
        | _ => b1 :: r1
        end
      else
        match r1 with
        | b2 :: b3 :: b4 :: r4 =>
            (N.lor (N.shiftl (N.land b1 7) 18)
               (N.lor (N.shiftl (N.land b2 63) 12)
                  (N.lor (N.shiftl (N.land b3 63) 6) (N.land b4 63))))
              :: decode_utf8 r4
        | _ => b1 :: r1
        end
  end.

Definition u (s : string) : pystr :=
  decode_utf8 (List.map byte_of (list_ascii_of_string s)).

(** [bool(s)] for a string: the empty string is falsy. *)
Definition truthy (s : pystr) : bool :=
  match s with [] => false | _ => true end.

(** [bool(x)] for an [Optional[str]]: [None] and [''] are falsy. *)
Definition truthy_opt (o : option pystr) : bool :=
  match o with Some s => truthy s | None => false end.

(** [str.isspace] on one code point (CPython's [_PyUnicode_IsWhitespace]). *)
Definition is_space (c : N) : bool :=
  ((9 <=? c) && (c <=? 13) || (28 <=? c) && (c <=? 32)
   || (c =? 133) || (c =? 160) || (c =? 5760)
   || (8192 <=? c) && (c <=? 8202)
   || (c =? 8232) || (c =? 8233) || (c =? 8239) || (c =? 8287)
   || (c =? 12288))%N.

Fixpoint lstrip (s : pystr) : pystr :=
  match s with
  | [] => []
  | c :: r => if is_space c then lstrip r else s
  end.

Definition rstrip (s : pystr) : pystr := rev (lstrip (rev s)).

(** [s.strip()] *)
Definition strip (s : pystr) : pystr := rstrip (lstrip s).

Fixpoint startswith (s p : pystr) : bool :=
  match p, s with
  | [], _ => true
  | _ :: _, [] => false
  | a :: p', b :: s' => (a =? b)%N && startswith s' p'
  end.

(** [needle in hay] for strings. *)
Fixpoint str_in (needle hay : pystr) : bool :=
  startswith hay needle
  || match hay with
     | [] => false
     | _ :: r => str_in needle r
     end.

(** [any(w in text for w in words)] *)
Definition any_in (words : list pystr) (text : pystr) : bool :=
  existsb (fun w => str_in w text) words.

(** [sep.join(parts)] *)
Fixpoint join (sep : pystr) (parts : list pystr) : pystr :=
  match parts with
  | [] => []
  | [p] => p
  | p :: r => p ++ sep ++ join sep r
  end.

(** A dict with string keys, kept as its list of entries in insertion
    order; [dict_get] is [d.get(key)]. *)
Fixpoint dict_get {V} (key : pystr) (d : list (pystr * V)) : option V :=
  match d with
  | [] => None
  | (k, v) :: r => if bool_decide (k = key) then Some v else dict_get key r
  end.

(** [d[key] = v] *)
Fixpoint dict_set {V} (key : pystr) (v : V) (d : list (pystr * V)) : list (pystr * V) :=
  match d with
  | [] => [(key, v)]
  | (k, x) :: r => if bool_decide (k = key) then (k, v) :: r else (k, x) :: dict_set key v r
  end.

(** [str(n)] for an [int]. *)
Definition str_of_Z (n : Z) : pystr :=
  List.map byte_of (list_ascii_of_string (pretty n)).

(** Exception classes met in the code.  Every class derives from
    [Exception]; [ExternalError] stands for the classes of the libraries
    (network, Telegram, SQLite), told apart by name. *)
Inductive exn_class :=
| Exception
| NewsValidationError
| ServiceUnavailableError
| ProcessingError
| CircuitBreakerOpenError
| TypeError
| ExternalError (name : pystr).

#[export] Instance exn_class_eq_dec : EqDecision exn_class.
Proof. solve_decision. Defined.

Definition issubclass (c d : exn_class) : bool :=
  bool_decide (d = Exception) || bool_decide (c = d).

Record exn := Exn { exn_cls : exn_class; exn_msg : pystr }.

#[export] Instance exn_eq_dec : EqDecision exn.
Proof. solve_decision. Defined.

(** [isinstance(e, classes)] for a tuple of classes. *)
Definition isinstance (e : exn) (classes : list exn_class) : bool :=
  existsb (issubclass (exn_cls e)) classes.

(** The outcome of a call: a value, or a raised exception. *)
Inductive Res (A : Type) :=
| Ok (a : A)
| Raise (e : exn).
Arguments Ok {A} a.
Arguments Raise {A} e.

Definition is_ok {A} (r : Res A) : bool :=
  match r with Ok _ => true | Raise _ => false end.

End Py.
Export Py.

(** ** core/retry.py *)

Module Retry.

Record RetryConfig := {
  max_attempts : Z;
  base_delay : Q;
  max_delay : Q;
  exponential_base : Q;
  jitter : bool;
  exceptions : list exn_class
}.

(** The constructor's defaults. *)
Definition default_config : RetryConfig :=
  {| max_attempts := 3; base_delay := 1; max_delay := 60;
     exponential_base := 2; jitter := true; exceptions := [Exception] |}.

(** What the wrapper does to the outside world, in order. *)
Inductive effect :=
| Invoke (n : nat)   (* the n-th call of the wrapped function *)
| Sleep (delay : Q). (* asyncio.sleep(delay) *)

Section Wrapper.
Context {A : Type}.
Variable config : RetryConfig.
(** Outcome of the n-th call of the wrapped function. *)
Variable func : nat -> Res A.
(** Value of the n-th call of [random.random()]. *)
Variable random : nat -> Q.

Definition backoff (attempt : Z) : Q :=
  Qmin (base_delay config * (exponential_base config ^ attempt))
       (max_delay config).

Definition jittered (attempt : Z) (delay : Q) : Q :=
  if jitter config
  then delay * ((1 # 2) + random (Z.to_nat attempt) * (1 # 2))
  else delay.

(** The body of [for attempt in range(config.max_attempts)], with
    [todo] iterations left; the code after the loop is the case [O]. *)
Fixpoint attempts (todo : nat) (attempt : Z) (last_exception : option exn)
  : Res A * list effect :=
  match todo with
  | O =>
      match last_exception with
      | Some e => (Raise e, [])
      | None =>
          (Raise (Exn TypeError (u "exceptions must derive from BaseException")), [])
      end
  | S todo' =>
      let call := Invoke (Z.to_nat attempt) in
      match func (Z.to_nat attempt) with
      | Ok v => (Ok v, [call])
      | Raise e =>
          if isinstance e (exceptions config) then
            if attempt =? max_attempts config - 1 then (Raise e, [call])
            else
              let delay := jittered attempt (backoff attempt) in
              let '(r, effs) := attempts todo' (attempt + 1) (Some e) in
              (r, call :: Sleep delay :: effs)
          else (Raise e, [call])
      end
  end.

(** [retry_async(config)(func)(...)] *)
Definition retry_async : Res A * list effect :=
  attempts (Z.to_nat (max_attempts config)) 0 None.

End Wrapper.

(** [RetryConfig(max_attempts=3, base_delay=1.0, max_delay=md,
    exponential_base=2.0, jitter=False, exceptions=excs)] *)
Definition three_attempts (md : Q) (excs : list exn_class) : RetryConfig :=
  {| max_attempts := 3; base_delay := 1; max_delay := md;
     exponential_base := 2; jitter := false; exceptions := excs |}.

Definition invocations (effs : list effect) : nat :=
  length (List.filter (fun e => match e with Invoke _ => true | _ => false end) effs).

Definition sleeps (effs : list effect) : list Q :=
  omap (fun e => match e with Sleep d => Some d | _ => None end) effs.

(** An exception of a class the examples pass as retryable. *)
Definition timeout_error : exn :=
  Exn (ExternalError (u "TimeoutError")) (u "timed out").




(** A function whose third call succeeds, after two time-outs. *)
Definition third_time_lucky (n : nat) : Res Z :=
  if (n <? 2)%nat then Raise timeout_error else Ok 7.

End Retry.

(** ** core/interfaces.py *)

Module Interfaces.

Inductive NewsStatus := PARSED | PROCESSED | SENT | FAILED.

#[export] Instance NewsStatus_eq_dec : EqDecision NewsStatus.
Proof. solve_decision. Defined.

(** [NewsStatus.value] *)
Definition status_value (s : NewsStatus) : pystr :=
  match s with
  | PARSED => u "parsed"
  | PROCESSED => u "processed"
  | SENT => u "sent"
  | FAILED => u "failed"
  end.

(** Dates are instants, counted in seconds. *)
Record NewsItem := {
  title : pystr;
  content : pystr;
  url : pystr;
  source : pystr;
  city : option pystr;
  published_date : option Z;
  status : NewsStatus;
  id : option Z;
  rephrased_content : option pystr;
  telegram_message_id : option Z;
  created_date : option Z
}.

Record SourceConfig := {
  name : pystr;
  src_url : pystr;
  src_city : pystr;
  rss : option pystr;
  selector : option pystr;
  enabled : bool;
  priority : Z;
  timeout : Z
}.

Record ProcessingResult := {
  success : bool;
  processed_count : Z;
  failed_count : Z;
  errors : list pystr;
  duration : Q
}.

End Interfaces.
Export Interfaces.

(** ** core/validation.py *)

Module Validation.

(** The interface [INewsValidator]: [validate] gives a reason or [None]. *)
Definition validator := NewsItem -> option pystr.

Definition TitleValidator (min_length max_length : Z) : validator := fun news =>
  if negb (truthy (title news)) || negb (truthy (strip (title news)))
  then Some (u "Title cannot be empty")
  else
    let title_length := Z.of_nat (length (strip (title news))) in
    if title_length <? min_length then
      Some (u "Title too short: " ++ str_of_Z title_length ++ u " < " ++ str_of_Z min_length)
    else if title_length >? max_length then
      Some (u "Title too long: " ++ str_of_Z title_length ++ u " > " ++ str_of_Z max_length)
    else None.

Definition ContentValidator (min_length max_length : Z) : validator := fun news =>
  if negb (truthy (content news)) || negb (truthy (strip (content news)))
  then Some (u "Content cannot be empty")
  else
    let content_length := Z.of_nat (length (strip (content news))) in
    if content_length <? min_length then
      Some (u "Content too short: " ++ str_of_Z content_length ++ u " < " ++ str_of_Z min_length)
    else if content_length >? max_length then
      Some (u "Content too long: " ++ str_of_Z content_length ++ u " > " ++ str_of_Z max_length)
    else None.

(** [url_pattern_match] is [self.url_pattern.match]: the compiled regular
    expression belongs to the [re] library. *)
Definition UrlValidator (url_pattern_match : pystr -> bool) : validator := fun news =>
  if negb (truthy (url news)) then None
  else if negb (url_pattern_match (url news)) then
    Some (u "Invalid URL format: " ++ url news)
  else None.

Record ambiguous_data := {
  geographic_context : list pystr;
  person_context : list pystr
}.

Definition geo_words : list pystr :=
  [u "город"; u "районе"; u "области"; u "муниципальный";
   u "администрация"; u "мэр"; u "жители"].

(** [self.ambiguous_keywords] *)
Definition ambiguous_keywords : list (pystr * ambiguous_data) :=
  [ (u "пугачев",
      {| geographic_context := geo_words;
         person_context :=
           [u "пугачева"; u "алла"; u "певица"; u "артистка"; u "интервью";
            u "концерт"; u "песня"; u "госдума"; u "депутат"] |});
    (u "маркс",
      {| geographic_context := geo_words;
         person_context :=
           [u "карл"; u "философ"; u "капитал"; u "коммунизм"; u "марксизм";
            u "теория"] |});
    (u "энгельс",
      {| geographic_context := geo_words;
         person_context :=
           [u "фридрих"; u "философ"; u "коммунизм"; u "маркс"; u "теория"] |}) ].

Definition regional_words : list pystr :=
  [u "саратов"; u "саратовская область"; u "саратовский"].

Definition _is_valid_regional_keyword (keyword text : pystr) : bool :=
  match dict_get keyword ambiguous_keywords with
  | None => true
  | Some data =>
      let geographic_found := any_in (geographic_context data) text in
      let person_found := any_in (person_context data) text in
      if geographic_found && negb person_found then true
      else if person_found then false
      else if any_in regional_words text then true
      else false
  end.

Section Region.
(** [str.lower], from the unicode tables of the interpreter. *)
Variable lower : pystr -> pystr.
(** The constructor's arguments. *)
Variable keywords_arg exclude_keywords_arg : list pystr.

Definition keywords : list pystr := List.map lower keywords_arg.
Definition exclude_keywords : list pystr := List.map lower exclude_keywords_arg.

(** The loop that fills [found_keywords]. *)
Definition found_keywords (text : pystr) : list pystr :=
  List.filter (fun keyword => str_in keyword text && _is_valid_regional_keyword keyword text)
    keywords.

Definition RegionKeywordValidator : validator := fun news =>
  let text := lower (title news ++ u " " ++ content news) in
  match List.find (fun w => str_in w text) exclude_keywords with
  | Some exclude_word => Some (u "News excluded due to keyword: " ++ exclude_word)
  | None =>
      match found_keywords text with
      | [] => Some (u "No relevant regional keywords found")
      | _ => None
      end
  end.
End Region.

(** [NewsValidationChain.validate]: the list [errors] built by the loop,
    then the raise. *)
Definition chain_errors (validators : list validator) (news : NewsItem) : list pystr :=
  omap (fun v : validator =>
          match v news with
          | Some error => if truthy error then Some error else None
          | None => None
          end) validators.

Definition validate (validators : list validator) (news : NewsItem) : Res unit :=
  match chain_errors validators news with
  | [] => Ok tt
  | errs => Raise (Exn NewsValidationError (u "Validation failed: " ++ join (u "; ") errs))
  end.

(** [is_valid]: [validate] raises nothing but [NewsValidationError]. *)
Definition is_valid (validators : list validator) (news : NewsItem) : bool :=
  is_ok (validate validators news).

(** The validators the repository defines; [app.py] builds its chain of
    these four. *)
Inductive concrete_validator : validator -> Prop :=
| cv_title mn mx : concrete_validator (TitleValidator mn mx)
| cv_content mn mx : concrete_validator (ContentValidator mn mx)
| cv_url m : concrete_validator (UrlValidator m)
| cv_region lower kws excl : concrete_validator (RegionKeywordValidator lower kws excl).

(** A validator whose reasons are never the empty string, which the
    chain would take for no reason. *)
Definition gives_reasons (v : validator) : Prop :=
  forall news reason, v news = Some reason -> truthy reason = true.

(** A chain of the shape [app.py] builds, and an item it rejects on
    four counts. *)
Definition sample_chain : list validator :=
  [TitleValidator 10 200; ContentValidator 20 5000; UrlValidator (fun _ => false);
   RegionKeywordValidator (fun s => s) [u "саратов"] []].

Definition sample_news : NewsItem :=
  {| title := u "short"; content := u "too short as well"; url := u "nowhere";
     source := u "feedA"; city := None; published_date := None; status := PARSED;
     id := None; rephrased_content := None; telegram_message_id := None;
     created_date := None |}.

(** An item whose title is blank, and an advertisement that names the
    region. *)
Definition blank_title_news : NewsItem :=
  {| title := u "   "; content := u "text"; url := []; source := u "feedA";
     city := None; published_date := None; status := PARSED; id := None;
     rephrased_content := None; telegram_message_id := None; created_date := None |}.

Definition advert_news : NewsItem :=
  {| title := u "казино в саратове"; content := u "ставки и реклама"; url := [];
     source := u "feedA"; city := None; published_date := None; status := PARSED;
     id := None; rephrased_content := None; telegram_message_id := None;
     created_date := None |}.

End Validation.

(** ** infrastructure/database_repository.py *)

Module Repository.

(** A row of the table [news], without its primary key. *)
Record Row := {
  row_title : pystr;
  row_content : pystr;
  row_url : pystr;
  row_source : pystr;
  row_city : option pystr;
  original_hash : pystr;
  row_rephrased_content : option pystr;
  row_published_date : option Z;
  row_created_date : option Z;
  row_status : NewsStatus;
  row_telegram_message_id : option Z
}.

(** The database file: the table keyed by [id], the AUTOINCREMENT
    sequence (the largest key ever given out), and the number of
    connections opened so far. *)
Record Db := {
  rows : gmap Z Row;
  seq : Z;
  tick : nat
}.

Definition empty_db : Db := {| rows := ∅; seq := 0; tick := 0 |}.

(** Result of [get_statistics], the part the callers read. *)
Record Statistics := {
  total_news : Z;
  by_status : list (pystr * Z)
}.

Definition set_status (st : NewsStatus) (r : Row) : Row :=
  {| row_title := row_title r; row_content := row_content r; row_url := row_url r;
     row_source := row_source r; row_city := row_city r;
     original_hash := original_hash r;
     row_rephrased_content := row_rephrased_content r;
     row_published_date := row_published_date r;
     row_created_date := row_created_date r;
     row_status := st;
     row_telegram_message_id := row_telegram_message_id r |}.

Definition set_rephrased_content (v : option pystr) (r : Row) : Row :=
  {| row_title := row_title r; row_content := row_content r; row_url := row_url r;
     row_source := row_source r; row_city := row_city r;
     original_hash := original_hash r;
     row_rephrased_content := v;
     row_published_date := row_published_date r;
     row_created_date := row_created_date r;
     row_status := row_status r;
     row_telegram_message_id := row_telegram_message_id r |}.

Definition set_telegram_message_id (v : option Z) (r : Row) : Row :=
  {| row_title := row_title r; row_content := row_content r; row_url := row_url r;
     row_source := row_source r; row_city := row_city r;
     original_hash := original_hash r;
     row_rephrased_content := row_rephrased_content r;
     row_published_date := row_published_date r;
     row_created_date := row_created_date r;
     row_status := row_status r;
     row_telegram_message_id := v |}.

(** [**kwargs] of [update_news_status]: for each of the two keys the
    method looks at, whether it was passed, and with which value. *)
Record kwargs := {
  kw_rephrased_content : option (option pystr);
  kw_telegram_message_id : option (option Z)
}.

Definition no_kwargs : kwargs :=
  {| kw_rephrased_content := None; kw_telegram_message_id := None |}.

(** The SET clause built from [update_fields]. *)
Definition apply_update (st : NewsStatus) (kw : kwargs) (r : Row) : Row :=
  let r1 := set_status st r in
  let r2 := match kw_rephrased_content kw with
            | Some v => set_rephrased_content v r1
            | None => r1
            end in
  match kw_telegram_message_id kw with
  | Some v => set_telegram_message_id v r2
  | None => r2
  end.

Definition _row_to_news_item (key : Z) (r : Row) : NewsItem :=
  {| title := row_title r; content := row_content r; url := row_url r;
     source := row_source r; city := row_city r;
     published_date := row_published_date r;
     status := row_status r;
     id := Some key;
     rephrased_content := row_rephrased_content r;
     telegram_message_id := row_telegram_message_id r;
     created_date := row_created_date r |}.

(** ORDER BY created_date ASC: NULL sorts first; SQL leaves the order of
    ties open, the key decides here. *)
Definition created_le (a b : Z * Row) : Prop :=
  match row_created_date a.2, row_created_date b.2 with
  | None, None => a.1 <= b.1
  | None, Some _ => True
  | Some _, None => False
  | Some x, Some y => x < y \/ (x = y /\ a.1 <= b.1)
  end.

#[export] Instance created_le_dec a b : Decision (created_le a b).
Proof.
  unfold created_le.
  destruct (row_created_date a.2), (row_created_date b.2); apply _.
Defined.

(** LIMIT ?: a negative limit is no limit. *)
Definition sql_limit {A} (limit : Z) (l : list A) : list A :=
  if limit <? 0 then l else take (Z.to_nat limit) l.

(** The largest key of the table, or [d] when that is larger. *)
Definition max_key (d : Z) (m : gmap Z Row) : Z :=
  foldr Z.max d (List.map fst (map_to_list m)).

Section Repo.
(** [hashlib.sha256(s.encode('utf-8')).hexdigest()] *)
Variable sha256_hex : pystr -> pystr.
(** Failure of the n-th connection (or of a statement run on it). *)
Variable fault : nat -> option exn.
(** CURRENT_TIMESTAMP as the n-th connection sees it. *)
Variable clock : nat -> Z.

Definition _generate_content_hash (title content : pystr) : pystr :=
  let combined := strip title ++ strip content in
  sha256_hex combined.

(** [async with self._get_connection() as db: body]: when the
    connection fails nothing is committed. *)
Definition transaction {A} (db : Db) (body : Db -> Res (A * gmap Z Row * Z))
  : Res A * Db :=
  let db' := {| rows := rows db; seq := seq db; tick := S (tick db) |} in
  match fault (tick db) with
  | Some e => (Raise e, db')
  | None =>
      match body db with
      | Ok (a, m, s) => (Ok a, {| rows := m; seq := s; tick := S (tick db) |})
      | Raise e => (Raise e, db')
      end
  end.

(** A read-only block. *)
Definition query {A} (db : Db) (q : Db -> A) : Res A * Db :=
  transaction db (fun d => Ok (q d, rows d, seq d)).

(** SELECT id FROM news WHERE original_hash = ? / WHERE url = ? *)
Definition hash_stored (h : pystr) (db : Db) : bool :=
  bool_decide (map_Exists (fun _ r => original_hash r = h) (rows db)).

Definition url_stored (v : pystr) (db : Db) : bool :=
  bool_decide (map_Exists (fun _ r => row_url r = v) (rows db)).

Definition news_exists (db : Db) (news : NewsItem) : Res bool * Db :=
  let content_hash := _generate_content_hash (title news) (content news) in
  query db (fun d =>
    if hash_stored content_hash d then true
    else if truthy (url news) then
      if url_stored (url news) d then true else false
    else false).

(** The two ways in which an item is already known to the table. *)
Definition hash_duplicate (db : Db) (news : NewsItem) : Prop :=
  exists k r, rows db !! k = Some r
              /\ original_hash r = _generate_content_hash (title news) (content news).

Definition url_duplicate (db : Db) (news : NewsItem) : Prop :=
  url news <> [] /\ exists k r, rows db !! k = Some r /\ row_url r = url news.

(** INSERT INTO news (...) VALUES (...): the key comes from
    AUTOINCREMENT, [created_date] from its default, and the UNIQUE
    constraint on [original_hash] is checked. *)
Definition insert_news (news : NewsItem) (content_hash : pystr) (now : Z) (d : Db)
  : Res (Z * gmap Z Row * Z) :=
  if hash_stored content_hash d then
    Raise (Exn (ExternalError (u "IntegrityError"))
             (u "UNIQUE constraint failed: news.original_hash"))
  else
    let news_id := 1 + max_key (seq d) (rows d) in
    let r := {| row_title := title news; row_content := content news;
                row_url := url news; row_source := source news;
                row_city := city news; original_hash := content_hash;
                row_rephrased_content := None;
                row_published_date := published_date news;
                row_created_date := Some now;
                row_status := status news;
                row_telegram_message_id := None |} in
    Ok (news_id, <[news_id := r]> (rows d), news_id).

(** [save_news]: every exception ends in [return None]. *)
Definition save_news (db : Db) (news : NewsItem) : option Z * Db :=
  match news_exists db news with
  | (Raise _, db1) => (None, db1)
  | (Ok true, db1) => (None, db1)
  | (Ok false, db1) =>
      let content_hash := _generate_content_hash (title news) (content news) in
      match transaction db1 (insert_news news content_hash (clock (tick db1))) with
      | (Ok news_id, db2) => (Some news_id, db2)
      | (Raise _, db2) => (None, db2)
      end
  end.

Definition select_by_status (st : NewsStatus) (limit : Z) (d : Db) : list NewsItem :=
  let matching :=
    filter (fun kr : Z * Row => row_status kr.2 = st) (map_to_list (rows d)) in
  (fun kr : Z * Row => _row_to_news_item kr.1 kr.2)
    <$> sql_limit limit (merge_sort created_le matching).

Definition get_news_by_status (db : Db) (st : NewsStatus) (limit : Z)
  : Res (list NewsItem) * Db :=
  query db (select_by_status st limit).

(** UPDATE news SET ... WHERE id = ?; the result is [rowcount > 0].
    A [news_id] of [None] is bound as NULL, which no key equals. *)
Definition update_rows (news_id : option Z) (st : NewsStatus) (kw : kwargs)
    (m : gmap Z Row) : gmap Z Row :=
  match news_id with
  | Some k => alter (apply_update st kw) k m
  | None => m
  end.

Definition rowcount (news_id : option Z) (m : gmap Z Row) : Z :=
  match news_id with
  | Some k => if bool_decide (is_Some (m !! k)) then 1 else 0
  | None => 0
  end.

Definition update_news_status (db : Db) (news_id : option Z) (st : NewsStatus)
    (kw : kwargs) : bool * Db :=
  match transaction db (fun d =>
          Ok (rowcount news_id (rows d), update_rows news_id st kw (rows d), seq d)) with
  | (Ok n, db') => (0 <? n, db')
  | (Raise _, db') => (false, db')
  end.

Definition get_statistics (db : Db) : Res Statistics * Db :=
  query db (fun d =>
    let count st :=
      Z.of_nat (length (List.filter (fun kr => bool_decide (row_status kr.2 = st))
                          (map_to_list (rows d)))) in
    {| total_news := Z.of_nat (size (rows d));
       by_status :=
         List.filter (fun p => 0 <? p.2)
           (List.map (fun st => (status_value st, count st))
              [PARSED; PROCESSED; SENT; FAILED]) |}).

(** DELETE FROM news WHERE created_date < now - days AND status = 'sent' *)
Definition expired (now days : Z) (r : Row) : bool :=
  match row_created_date r with
  | Some d => (d <? now - days * 86400) && bool_decide (row_status r = SENT)
  | None => false
  end.

Definition cleanup_old_news (db : Db) (days : Z) : Z * Db :=
  let now := clock (tick db) in
  match transaction db (fun d =>
          let gone := filter (fun kr => expired now days kr.2 = true) (rows d) in
          Ok (Z.of_nat (size gone),
              filter (fun kr => expired now days kr.2 = false) (rows d), seq d)) with
  | (Ok deleted_count, db') => (deleted_count, db')
  | (Raise _, db') => (0, db')
  end.

End Repo.

(** *** Vocabulary of the statements *)

(** One step of the lifecycle: parsed to processed, processed to sent,
    and failed from parsed or processed. *)
Definition lifecycle_step (a b : NewsStatus) : bool :=
  match a, b with
  | PARSED, PROCESSED | PROCESSED, SENT | PARSED, FAILED | PROCESSED, FAILED => true
  | _, _ => false
  end.

(** Its reflexive and transitive closure: [b] is [a] or a later stage. *)
Definition lifecycle_le (a b : NewsStatus) : bool :=
  match a, b with
  | PARSED, _ => true
  | PROCESSED, (PROCESSED | SENT | FAILED) => true
  | SENT, SENT => true
  | FAILED, FAILED => true
  | _, _ => false
  end.

(** AUTOINCREMENT keeps the sequence at or above every key of the table. *)
Definition wf (d : Db) : Prop :=
  forall k, is_Some (rows d !! k) -> k <= seq d.

(** [d'] is a later state of the database [d]: a row present in both has
    not gone back in the lifecycle, and a row of [d'] that [d] lacks has a
    key that had never been given out. *)
Definition evolves (d d' : Db) : Prop :=
  wf d /\ wf d' /\ seq d <= seq d'
  /\ (forall k r r', rows d !! k = Some r -> rows d' !! k = Some r' ->
        lifecycle_le (row_status r) (row_status r') = true)
  /\ (forall k, rows d !! k = None -> is_Some (rows d' !! k) -> seq d < k).

(** The stored status of an item, by its id. *)
Definition stored_status (d : Db) (news_id : option Z) : option NewsStatus :=
  match news_id with
  | Some k => row_status <$> rows d !! k
  | None => None
  end.

(** A batch read for a stage: distinct ids, all stored with the status
    the stage starts from. *)
Definition batch (from : NewsStatus) (ids : list (option Z)) (d : Db) : Prop :=
  NoDup ids /\ Forall (fun news_id => stored_status d news_id = Some from) ids.

(** A healthy environment and two items, for the examples: the second
    has the text of the first up to surrounding whitespace, under
    another url and source. *)
Definition no_fault : nat -> option exn := fun _ => None.
Definition epoch : nat -> Z := fun _ => 0.

Definition first_item : NewsItem :=
  {| title := u "Saratov roads repaired"; content := u "The city repaired its roads.";
     url := u "http://a.example/1"; source := u "feedA"; city := None;
     published_date := None; status := PARSED; id := None;
     rephrased_content := None; telegram_message_id := None; created_date := None |}.

Definition mirrored_item : NewsItem :=
  {| title := u "  Saratov roads repaired "; content := u "The city repaired its roads.  ";
     url := u "http://b.example/7"; source := u "feedB"; city := None;
     published_date := None; status := PARSED; id := None;
     rephrased_content := None; telegram_message_id := None; created_date := None |}.

Definition db_with_first : Db :=
  (save_news (fun s => s) no_fault epoch empty_db first_item).2.

(** ORDER BY created_date ASC, on the dates alone: NULL comes first. *)
Definition date_le (a b : option Z) : Prop :=
  match a, b with
  | None, _ => True
  | Some _, None => False
  | Some x, Some y => x <= y
  end.

(** No two rows carry the same fingerprint, and no two rows carry the
    same url unless it is empty. *)
Definition no_duplicates (d : Db) : Prop :=
  forall k1 k2 r1 r2,
    rows d !! k1 = Some r1 -> rows d !! k2 = Some r2 ->
    original_hash r1 = original_hash r2 \/ (row_url r1 = row_url r2 /\ row_url r1 <> []) ->
    k1 = k2.

(** The number of rows stored with a status. *)
Definition count_status (st : NewsStatus) (d : Db) : Z :=
  Z.of_nat (length (List.filter (fun kr : Z * Row => bool_decide (row_status kr.2 = st))
                      (map_to_list (rows d)))).

(** The item [save_news] stores for [news] under the key [k] at the time
    [now], as [_row_to_news_item] reads it back. *)
Definition stored_item (news : NewsItem) (k now : Z) : NewsItem :=
  {| title := title news; content := content news; url := url news;
     source := source news; city := city news;
     published_date := published_date news; status := status news;
     id := Some k; rephrased_content := None; telegram_message_id := None;
     created_date := Some now |}.

(** The statistics of the table that holds the first item only. *)
Definition stats_with_first : Statistics :=
  {| total_news := 1; by_status := [(u "parsed", 1)] |}.

End Repository.

(** ** services/notification_service.py *)

Module Notification.

Section Service.
(** Outcome of [self.send_news(news, content)]: the message id, or
    [None]; the method catches every exception itself. *)
Variable send_news : NewsItem -> pystr -> option Z.

Definition send_multiple_news (news_items : list (NewsItem * pystr))
  : list (option Z * option Z * bool) :=
  List.map (fun nc : NewsItem * pystr =>
              let message_id := send_news nc.1 nc.2 in
              let success := bool_decide (message_id <> None) in
              (id nc.1, message_id, success))
    news_items.
End Service.

End Notification.

(** ** services/news_bot_service.py, with services/health_checker_service.py *)

Module Bot.
Import Repository.

(** Calls made on the collaborators of the orchestrator. *)
Inductive call :=
| GetStatistics
| IsAvailable (service : pystr)
| ParseAllSources
| SaveNews (news : NewsItem)
| GetNewsByStatus (st : NewsStatus) (limit : Z)
| ProcessContent (news : NewsItem)
| UpdateNewsStatus (news_id : option Z) (st : NewsStatus) (kw : kwargs)
| SendMultipleNews (news_items : list (NewsItem * pystr))
| CleanupOldNews (days : Z)
| Publish (event_type : pystr)
| AsyncioSleep (delay : Q).

(** The database, and the calls made so far, each with the database as
    it stood when the call was made. *)
Record World := {
  db : Db;
  trace : list (call * Db)
}.

Definition M (A : Type) : Type := World -> A * World.

Definition ret {A} (a : A) : M A := fun w => (a, w).

Definition bindM {A B} (m : M A) (k : A -> M B) : M B :=
  fun w => let '(a, w') := m w in k a w'.

Notation "x <- m ;; k" := (bindM m (fun x => k))
  (at level 100, m at next level, right associativity).
Notation "m ;;; k" := (bindM m (fun _ => k))
  (at level 100, right associativity).

(** A call that leaves the database alone.  [Publish] is
    [InMemoryEventBus.publish], which gathers its handlers with
    [return_exceptions=True] and so raises nothing. *)
Definition ext (c : call) : M unit :=
  fun w => (tt, {| db := db w; trace := trace w ++ [(c, db w)] |}).

(** A call on the repository. *)
Definition repo {A} (c : call) (op : Db -> A * Db) : M A :=
  fun w => let '(a, d) := op (db w) in
           (a, {| db := d; trace := trace w ++ [(c, db w)] |}).

(** [for x in xs: acc = body(x, acc)] *)
Fixpoint for_each {X A} (xs : list X) (body : X -> A -> M A) (acc : A) : M A :=
  match xs with
  | [] => ret acc
  | x :: r => acc' <- body x acc ;; for_each r body acc'
  end.

Record Config := {
  cleanup_hour : Z;
  max_news_per_run : Z;
  gigachat_delay_seconds : Q
}.

(** What the outside world answers during one cycle. *)
Record Env := {
  parse_all_sources : Res (list NewsItem);
  process_content : NewsItem -> Res (option pystr);
  send_news : NewsItem -> pystr -> option Z;
  content_processor_is_available : Res bool;
  notification_service_is_available : Res bool;
  current_hour : Z;
  start_time : Q;
  end_time : Q
}.

Section Service.
Variable sha256_hex : pystr -> pystr.
Variable fault : nat -> option exn.
Variable clock : nat -> Z.
Variable config : Config.

(** *** HealthCheckerService *)

Definition _check_database_health : M bool :=
  r <- repo GetStatistics (get_statistics fault) ;;
  ret (is_ok r).

Definition _check_availability (service : pystr) (answer : Res bool) : M bool :=
  ext (IsAvailable service) ;;;
  ret (match answer with Ok b => b | Raise _ => false end).

(** The dict [health_status], in insertion order. *)
Definition check_health (env : Env) : M (list (pystr * bool)) :=
  database <- _check_database_health ;;
  content_processor <-
    _check_availability (u "content_processor") (content_processor_is_available env) ;;
  notification_service <-
    _check_availability (u "notification_service") (notification_service_is_available env) ;;
  let health_status :=
    [(u "database", database); (u "content_processor", content_processor);
     (u "notification_service", notification_service)] in
  let overall_healthy := forallb snd health_status in
  ret (health_status ++ [(u "overall", overall_healthy)]).

(** *** NewsBotService *)

Definition truthy_id (o : option Z) : bool :=
  match o with Some k => negb (k =? 0) | None => false end.

Definition _parse_and_save_news (env : Env) : M Z :=
  ext ParseAllSources ;;;
  match parse_all_sources env with
  | Raise _ => ret 0
  | Ok [] => ret 0
  | Ok news_items =>
      for_each news_items (fun news saved_count =>
        news_id <- repo (SaveNews news) (fun d => save_news sha256_hex fault clock d news) ;;
        if truthy_id news_id then
          ext (Publish (u "news.parsed")) ;;; ret (saved_count + 1)
        else ret saved_count) 0
  end.

Definition _process_news_content (env : Env) : M Z :=
  let limit := max_news_per_run config in
  r <- repo (GetNewsByStatus PARSED limit)
         (fun d => get_news_by_status fault d PARSED limit) ;;
  match r with
  | Raise _ => ret 0
  | Ok [] => ret 0
  | Ok unprocessed_news =>
      for_each unprocessed_news (fun news processed_count =>
        ext (ProcessContent news) ;;;
        match process_content env news with
        | Ok rephrased =>
            if truthy_opt rephrased then
              let kw := {| kw_rephrased_content := Some rephrased;
                           kw_telegram_message_id := None |} in
              success <- repo (UpdateNewsStatus (id news) PROCESSED kw)
                           (fun d => update_news_status fault d (id news) PROCESSED kw) ;;
              n <- (if success : bool then
                      ext (Publish (u "news.processed")) ;;; ret (processed_count + 1)
                    else ret processed_count) ;;
              ext (AsyncioSleep (gigachat_delay_seconds config)) ;;;
              ret n
            else
              repo (UpdateNewsStatus (id news) FAILED no_kwargs)
                (fun d => update_news_status fault d (id news) FAILED no_kwargs) ;;;
              ret processed_count
        | Raise _ =>
            repo (UpdateNewsStatus (id news) FAILED no_kwargs)
              (fun d => update_news_status fault d (id news) FAILED no_kwargs) ;;;
            ret processed_count
        end) 0
  end.

(** [news_to_send]: the items that have a rephrased content. *)
Definition to_send (ready_news : list NewsItem) : list (NewsItem * pystr) :=
  omap (fun news =>
          match rephrased_content news with
          | Some c => if truthy c then Some (news, c) else None
          | None => None
          end) ready_news.

Definition _send_notifications (env : Env) : M Z :=
  r <- repo (GetNewsByStatus PROCESSED 5)
         (fun d => get_news_by_status fault d PROCESSED 5) ;;
  match r with
  | Raise _ => ret 0
  | Ok [] => ret 0
  | Ok ready_news =>
      match to_send ready_news with
      | [] => ret 0
      | news_to_send =>
          ext (SendMultipleNews news_to_send) ;;;
          let results := Notification.send_multiple_news (send_news env) news_to_send in
          for_each results (fun res sent_count =>
            let '(news_id, message_id, success) := res in
            if success : bool then
              let kw := {| kw_rephrased_content := None;
                           kw_telegram_message_id := Some message_id |} in
              repo (UpdateNewsStatus news_id SENT kw)
                (fun d => update_news_status fault d news_id SENT kw) ;;;
              (if existsb (fun nc : NewsItem * pystr => bool_decide (id nc.1 = news_id))
                    news_to_send
               then ext (Publish (u "news.sent"))
               else ret tt) ;;;
              ret (sent_count + 1)
            else
              repo (UpdateNewsStatus news_id FAILED no_kwargs)
                (fun d => update_news_status fault d news_id FAILED no_kwargs) ;;;
              ret sent_count) 0
      end
  end.

Definition health_error_msg : pystr := u "Health check failed, skipping cycle".

Definition run_full_cycle (env : Env) : M ProcessingResult :=
  health_status <- check_health env ;;
  if negb (default false (dict_get (u "overall") health_status)) then
    ext (Publish (u "error.occurred")) ;;;
    ret {| success := false; processed_count := 0; failed_count := 0;
           errors := [health_error_msg];
           duration := end_time env - start_time env |}
  else
    parsed_count <- _parse_and_save_news env ;;
    processed <- _process_news_content env ;;
    sent_count <- _send_notifications env ;;
    _ <- (if current_hour env =? cleanup_hour config
          then repo (CleanupOldNews 7) (fun d => cleanup_old_news fault clock d 7)
          else ret 0) ;;
    stats <- repo GetStatistics (get_statistics fault) ;;
    match stats with
    | Ok _ =>
        ext (Publish (u "cycle.completed")) ;;;
        ret {| success := true;
               processed_count := parsed_count + processed + sent_count;
               failed_count := 0;
               errors := [];
               duration := end_time env - start_time env |}
    | Raise e =>
        ext (Publish (u "error.occurred")) ;;;
        ret {| success := false; processed_count := 0; failed_count := 1;
               errors := [u "Critical error in full cycle: " ++ exn_msg e];
               duration := end_time env - start_time env |}
    end.

(** The scheduler runs one cycle after the other. *)
Fixpoint run_cycles (envs : list Env) : M (list ProcessingResult) :=
  match envs with
  | [] => ret []
  | env :: r =>
      res <- run_full_cycle env ;;
      rest <- run_cycles r ;;
      ret (res :: rest)
  end.

End Service.

(** *** Vocabulary of the statements *)

(** What a health check makes of the answer of [is_available]. *)
Definition answer (r : Res bool) : bool :=
  match r with Ok b => b | Raise _ => false end.

(** The calls that parse, save, read for a stage, transform, update,
    send or clean up. *)
Definition is_pipeline_work (c : call) : bool :=
  match c with
  | ParseAllSources | SaveNews _ | GetNewsByStatus _ _ | ProcessContent _
  | UpdateNewsStatus _ _ _ | SendMultipleNews _ | CleanupOldNews _ => true
  | GetStatistics | IsAvailable _ | Publish _ | AsyncioSleep _ => false
  end.

(** What a call may be made on, given the database at the time: content
    processing on an item stored as parsed, delivery on items stored as
    processed, and a status update only along a step of the lifecycle. *)
Definition event_ok (c : call) (d : Db) : Prop :=
  match c with
  | ProcessContent news => stored_status d (id news) = Some PARSED
  | SendMultipleNews news_items =>
      Forall (fun nc : NewsItem * pystr => stored_status d (id nc.1) = Some PROCESSED)
        news_items
  | UpdateNewsStatus news_id st _ =>
      forall a, stored_status d news_id = Some a -> lifecycle_step a st = true
  | _ => True
  end.

(** The successive states of the database: at each call, and now. *)
Definition history (w : World) : list Db := List.map snd (trace w) ++ [db w].

(** The item of a call that selects items for transformation or delivery. *)
Definition selects (c : call) (news_id : option Z) : Prop :=
  match c with
  | ProcessContent news => id news = news_id
  | SendMultipleNews news_items => In news_id (List.map (fun nc => id nc.1) news_items)
  | _ => False
  end.

(** What holds of a world all along a run that started from the database
    [d0]: the sequence bounds the keys, every call made so far was allowed
    when it was made, and the states seen so far are in order, up to the
    present one. *)
Definition Inv (d0 : Db) (w : World) : Prop :=
  head (history w) = Some d0
  /\ wf (db w)
  /\ Forall (fun cd : call * Db => event_ok cd.1 cd.2) (trace w)
  /\ StronglySorted evolves (List.map snd (trace w))
  /\ Forall (fun d => evolves d (db w)) (List.map snd (trace w)).

(** Partial-correctness triples over [M]; every computation of [M]
    returns. *)
Definition hoare {A} (P : World -> Prop) (m : M A) (Q : A -> World -> Prop) : Prop :=
  forall w, P w -> Q (m w).1 (m w).2.

(** The invariant, with a property [B] of the present database. *)
Definition holding (d0 : Db) (B : Db -> Prop) (w : World) : Prop :=
  Inv d0 w /\ B (db w).

(** No property at all. *)
Definition any_db : Db -> Prop := fun _ => True.

(** An environment in which the transformer is down, and a fresh world. *)
Definition transformer_down : Env :=
  {| parse_all_sources := Ok [first_item];
     process_content := fun _ => Ok (Some (u "text"));
     send_news := fun _ _ => Some 1;
     content_processor_is_available := Ok false;
     notification_service_is_available := Ok true;
     current_hour := 3; start_time := 0; end_time := 1 |}.

Definition default_config : Config :=
  {| cleanup_hour := 3; max_news_per_run := 10; gigachat_delay_seconds := 2 |}.

Definition fresh_world : World := {| db := empty_db; trace := [] |}.

(** Two healthy cycles: in the first the transformer returns nothing for
    the item it is given, in the second a new item goes all the way. *)
Definition second_item : NewsItem :=
  {| title := u "Engels bridge reopened"; content := u "The bridge is open again.";
     url := u "http://a.example/2"; source := u "feedA"; city := None;
     published_date := None; status := PARSED; id := None;
     rephrased_content := None; telegram_message_id := None; created_date := None |}.

Definition transformer_returns_nothing : Env :=
  {| parse_all_sources := Ok [first_item; mirrored_item];
     process_content := fun _ => Ok None;
     send_news := fun _ _ => Some 1;
     content_processor_is_available := Ok true;
     notification_service_is_available := Ok true;
     current_hour := 4; start_time := 0; end_time := 1 |}.

Definition all_goes_well : Env :=
  {| parse_all_sources := Ok [second_item];
     process_content := fun _ => Ok (Some (u "text"));
     send_news := fun _ _ => Some 77;
     content_processor_is_available := Ok true;
     notification_service_is_available := Ok true;
     current_hour := 4; start_time := 1; end_time := 2 |}.

Definition two_cycles : list ProcessingResult * World :=
  run_cycles (fun s => s) no_fault epoch default_config
    [transformer_returns_nothing; all_goes_well] fresh_world.

(** What a trace holds of the calls of one kind, in order: the items
    given to the content processor, the batches given to the
    notification service, and the status updates with their id and
    status. *)
Definition processed_items (t : list (call * Db)) : list NewsItem :=
  omap (fun cd : call * Db =>
          match cd.1 with ProcessContent news => Some news | _ => None end) t.

Definition sent_batches (t : list (call * Db)) : list (list (NewsItem * pystr)) :=
  omap (fun cd : call * Db =>
          match cd.1 with SendMultipleNews news_items => Some news_items | _ => None end) t.

Definition status_updates (t : list (call * Db)) : list (option Z * NewsStatus) :=
  omap (fun cd : call * Db =>
          match cd.1 with
          | UpdateNewsStatus news_id st _ => Some (news_id, st)
          | _ => None
          end) t.

(** What the answer of the content processor makes of an item, and
    what the outcome of a delivery makes of it. *)
Definition status_after_processing (env : Env) (news : NewsItem) : NewsStatus :=
  match process_content env news with
  | Ok rephrased => if truthy_opt rephrased then PROCESSED else FAILED
  | Raise _ => FAILED
  end.

Definition status_after_sending (res : option Z * option Z * bool) : NewsStatus :=
  if res.2 then SENT else FAILED.

(** The list a stage reads, empty when the read fails. *)
Definition read_for_stage (fault : nat -> option exn) (d : Db) (st : NewsStatus)
    (limit : Z) : list NewsItem :=
  match (get_news_by_status fault d st limit).1 with
  | Ok news_items => news_items
  | Raise _ => []
  end.

(** What the parser hands over, nothing when it fails. *)
Definition parsed_items (env : Env) : list NewsItem :=
  match parse_all_sources env with
  | Ok news_items => news_items
  | Raise _ => []
  end.

(** A stored row agrees with its status: a processed row has a rephrased
    content that is not empty, a sent row has one too and the id of its
    Telegram message. *)
Definition row_consistent (r : Row) : Prop :=
  match row_status r with
  | PROCESSED => truthy_opt (row_rephrased_content r) = true
  | SENT =>
      truthy_opt (row_rephrased_content r) = true /\ row_telegram_message_id r <> None
  | PARSED | FAILED => True
  end.

Definition consistent (d : Db) : Prop :=
  forall k r, rows d !! k = Some r -> row_consistent r.

(** The parser hands over items that are new to the lifecycle. *)
Definition parses_new_items (env : Env) : Prop :=
  Forall (fun news => status news = PARSED) (parsed_items env).

(** A property of the database alone, as a property of the world. *)
Definition on_db (B : Db -> Prop) : World -> Prop := fun w => B (db w).

End Bot.

(** ** services/parsing/news_parser_service.py *)

Module Parser.

(** Modelled from the spec: core/circuit_breaker.py is not among the
    sources.  Section 4.2: CLOSED goes to OPEN when the consecutive
    failures reach the threshold; OPEN goes to HALF_OPEN once the
    recovery timeout has elapsed since the last failure; the trial call
    closes the breaker on success and re-opens it on failure.  [call]
    runs the operation and returns its result or propagates its failure,
    or fails at once with the breaker-open signal. *)
Inductive breaker_state := CLOSED | OPEN | HALF_OPEN.

Record CircuitBreaker := {
  state : breaker_state;
  failure_count : Z;
  failure_threshold : Z;
  recovery_timeout : Q;
  last_failure_time : Q
}.

Definition new_breaker (threshold : Z) (recovery : Q) : CircuitBreaker :=
  {| state := CLOSED; failure_count := 0; failure_threshold := threshold;
     recovery_timeout := recovery; last_failure_time := 0 |}.

Definition on_success (b : CircuitBreaker) : CircuitBreaker :=
  {| state := CLOSED; failure_count := 0;
     failure_threshold := failure_threshold b;
     recovery_timeout := recovery_timeout b;
     last_failure_time := last_failure_time b |}.

Definition on_failure (now : Q) (trial : bool) (b : CircuitBreaker) : CircuitBreaker :=
  let n := failure_count b + 1 in
  {| state := if trial || (failure_threshold b <=? n) then OPEN else CLOSED;
     failure_count := n;
     failure_threshold := failure_threshold b;
     recovery_timeout := recovery_timeout b;
     last_failure_time := now |}.

Definition breaker_open_error : exn :=
  Exn CircuitBreakerOpenError (u "Circuit breaker is open").

(** Modelled from the spec: [CircuitBreaker.call], with the outcome
    [operation] of the guarded call, which is looked at only when the
    call goes through. *)
Definition breaker_call {A} (now : Q) (b : CircuitBreaker) (operation : Res A)
  : Res A * CircuitBreaker :=
  let blocked :=
    match state b with
    | OPEN => negb (Qle_bool (recovery_timeout b) (now - last_failure_time b))
    | _ => false
    end in
  if blocked then (Raise breaker_open_error, b)
  else
    let trial := match state b with CLOSED => false | _ => true end in
    match operation with
    | Ok v => (Ok v, on_success b)
    | Raise e => (Raise e, on_failure now trial b)
    end.

(** Calls received by the metrics collector. *)
Inductive metric_event :=
| Increment (metric : pystr) (tag_source : pystr)
| SetGauge (metric : pystr) (value : Z) (tag_source : option pystr).

(** The mutable part of the service. *)
Record Service := {
  circuit_breakers : list (pystr * CircuitBreaker);
  metrics : list metric_event
}.

Definition record (ev : metric_event) (s : Service) : Service :=
  {| circuit_breakers := circuit_breakers s; metrics := metrics s ++ [ev] |}.

Section Parsing.
(** Answer of [session.head(source.url)]: the status, or a failure. *)
Variable head_status : SourceConfig -> Res Z.
(** Outcome of the strategy chosen for the source, [strategy.parse]. *)
Variable strategy_parse : SourceConfig -> Res (list NewsItem).
(** The time at which the breaker of the source is called. *)
Variable call_time : SourceConfig -> Q.
(** [CircuitBreaker()], the breaker built without arguments. *)
Variable default_breaker : CircuitBreaker.
(** [self.validation_chain] *)
Variable validation_chain : list Validation.validator.

Definition is_source_available (source : SourceConfig) (s : Service) : bool * Service :=
  match head_status source with
  | Ok status =>
      let is_available := status <? 400 in
      (is_available,
       record (Increment (if is_available
                          then u "parser.availability_check_success"
                          else u "parser.availability_check_failed") (name source)) s)
  | Raise _ =>
      (false, record (Increment (u "parser.availability_check_error") (name source)) s)
  end.

Definition _parse_source_internal (source : SourceConfig) : Res (list NewsItem) :=
  strategy_parse source.

(** [self.circuit_breakers.get(source.name)], or a new breaker that is
    stored under that name. *)
Definition breaker_for (source : SourceConfig) (s : Service) : CircuitBreaker * Service :=
  match dict_get (name source) (circuit_breakers s) with
  | Some b => (b, s)
  | None =>
      (default_breaker,
       {| circuit_breakers := dict_set (name source) default_breaker (circuit_breakers s);
          metrics := metrics s |})
  end.

(** The body of the [try] block of [parse_source]. *)
Definition guarded_parse (source : SourceConfig) (circuit_breaker : CircuitBreaker)
    (s : Service) : Res (list NewsItem) * Service :=
  let '(available, s1) := is_source_available source s in
  if negb available then (Ok [], s1)
  else
    let '(r, b') :=
      breaker_call (call_time source) circuit_breaker (_parse_source_internal source) in
    (r, {| circuit_breakers := dict_set (name source) b' (circuit_breakers s1);
           metrics := metrics s1 |}).

(** [parse_source]: whatever is raised inside ends in [return []]. *)
Definition parse_source (source : SourceConfig) (s : Service)
  : Res (list NewsItem) * Service :=
  let '(circuit_breaker, s0) := breaker_for source s in
  match guarded_parse source circuit_breaker s0 with
  | (Ok news_items, s1) => (Ok news_items, s1)
  | (Raise _, s1) => (Ok [], record (Increment (u "parser.source_error") (name source)) s1)
  end.

Definition _parse_source_with_semaphore (source_name : pystr) (source : SourceConfig)
    (s : Service) : Res (list NewsItem) * Service :=
  parse_source source s.

(** [asyncio.gather] over the tasks, with [return_exceptions=True].  The tasks share
    the breakers and the collector only; they are run here in the
    order of the dict. *)
Fixpoint gather (tasks : list (pystr * SourceConfig)) (s : Service)
  : list (Res (list NewsItem)) * Service :=
  match tasks with
  | [] => ([], s)
  | (source_name, source) :: rest =>
      let '(r, s1) := _parse_source_with_semaphore source_name source s in
      let '(rs, s2) := gather rest s1 in
      (r :: rs, s2)
  end.

(** The loop over [results]: [all_news], [failed_sources], counters. *)
Fixpoint collect (names : list pystr) (results : list (Res (list NewsItem)))
    (s : Service) : list NewsItem * list pystr * Service :=
  match names, results with
  | source_name :: names', result :: results' =>
      match result with
      | Raise _ =>
          let '(all_news, failed_sources, s') :=
            collect names' results'
              (record (Increment (u "parser.source_failed") source_name) s) in
          (all_news, source_name :: failed_sources, s')
      | Ok items =>
          let '(all_news, failed_sources, s') :=
            collect names' results'
              (record (SetGauge (u "parser.news_count") (Z.of_nat (length items))
                         (Some source_name))
                 (record (Increment (u "parser.source_success") source_name) s)) in
          (items ++ all_news, failed_sources, s')
      end
  | _, _ => ([], [], s)
  end.

(** The loop that fills [validated_news]. *)
Fixpoint validate_all (all_news : list NewsItem) (s : Service)
  : list NewsItem * Service :=
  match all_news with
  | [] => ([], s)
  | news :: rest =>
      match Validation.validate validation_chain news with
      | Ok _ =>
          let '(validated_news, s') :=
            validate_all rest (record (Increment (u "parser.news_validated") (source news)) s) in
          (news :: validated_news, s')
      | Raise _ =>
          validate_all rest (record (Increment (u "parser.news_rejected") (source news)) s)
      end
  end.

(** [parse_all_sources] past the test for an empty [enabled_sources]. *)
Definition parse_enabled (enabled_sources : list (pystr * SourceConfig)) (s : Service)
  : Res (list NewsItem) * Service :=
  let '(results, s1) := gather enabled_sources s in
  let '(all_news, failed_sources, s2) :=
    collect (List.map fst enabled_sources) results s1 in
  let '(validated_news, s3) := validate_all all_news s2 in
  (Ok validated_news,
   record (SetGauge (u "parser.total_news") (Z.of_nat (length validated_news)) None) s3).

Definition parse_all_sources (sources : list (pystr * SourceConfig)) (s : Service)
  : Res (list NewsItem) * Service :=
  let enabled_sources := List.filter (fun ns => enabled ns.2) sources in
  match enabled_sources with
  | [] => (Ok [], s)
  | _ => parse_enabled enabled_sources s
  end.

(** *** Vocabulary of the statements *)

(** What the guarded call of each task yields, before [parse_source]
    catches it, the tasks being run as [gather] runs them. *)
Fixpoint task_outcomes (tasks : list (pystr * SourceConfig)) (s : Service)
  : list (SourceConfig * Res (list NewsItem)) :=
  match tasks with
  | [] => []
  | (source_name, source) :: rest =>
      let '(circuit_breaker, s0) := breaker_for source s in
      (source, (guarded_parse source circuit_breaker s0).1)
        :: task_outcomes rest (parse_source source s).2
  end.

(** The items a task contributes: those it returned, none if it failed. *)
Definition contribution (o : SourceConfig * Res (list NewsItem)) : list NewsItem :=
  match o.2 with
  | Ok news_items => news_items
  | Raise _ => []
  end.

End Parsing.

(** Three sources, the second of which times out at every call, and the
    items of the two others. *)
Definition source_named (n : string) : SourceConfig :=
  {| name := u n; src_url := u "http://example.org/"; src_city := u "Saratov";
     rss := Some (u "http://example.org/rss"); selector := None; enabled := true;
     priority := 1; timeout := 30 |}.

Definition item_of (n : string) : NewsItem :=
  {| title := u n; content := u "text"; url := []; source := u n; city := None;
     published_date := None; status := PARSED; id := None;
     rephrased_content := None; telegram_message_id := None; created_date := None |}.

Definition three_sources : list (pystr * SourceConfig) :=
  [(u "a", source_named "a"); (u "b", source_named "b"); (u "c", source_named "c")].

Definition second_times_out (source : SourceConfig) : Res (list NewsItem) :=
  if bool_decide (name source = u "b")
  then Raise (Exn (ExternalError (u "TimeoutError")) (u "timed out"))
  else Ok [{| title := name source; content := u "text"; url := []; source := name source;
              city := None; published_date := None; status := PARSED; id := None;
              rephrased_content := None; telegram_message_id := None;
              created_date := None |}].

Definition new_service : Service :=
  {| circuit_breakers :=
       [(u "a", new_breaker 3 300); (u "b", new_breaker 3 300); (u "c", new_breaker 3 300)];
     metrics := [] |}.




End Parser.

(** ** core/event_bus.py *)

Module EventBus.

Section Bus.
(** Handlers are callables; [list.remove] tells them apart with [==]. *)
Context {H : Type} `{EqDecision H}.
(** What running a handler on an event of some type ends in: a
    handler may raise.  A handler whose task cannot be created is
    skipped by the bus with a log entry, as one that raised is. *)
Variable run : H -> pystr -> Res unit.

(** [self.handlers], a [defaultdict(list)], in insertion order. *)
Definition handlers : Type := list (pystr * list H).

(** [self.handlers[event_type]]: a missing key is first stored with an
    empty list. *)
Definition getitem (event_type : pystr) (hs : handlers) : list H * handlers :=
  match dict_get event_type hs with
  | Some l => (l, hs)
  | None => ([], dict_set event_type [] hs)
  end.

(** [self.handlers.get(event_type, [])] *)
Definition handlers_for (event_type : pystr) (hs : handlers) : list H :=
  default [] (dict_get event_type hs).

(** [publish]: the tasks gathered, each with its outcome, and the
    result of the call.  [gather] runs with [return_exceptions=True]:
    the exceptions of the handlers are results, which are logged. *)
Definition publish (event_type : pystr) (hs : handlers)
  : Res unit * list (H * Res unit) :=
  match handlers_for event_type hs with
  | [] => (Ok tt, [])
  | l => (Ok tt, List.map (fun handler => (handler, run handler event_type)) l)
  end.

Definition subscribe (event_type : pystr) (handler : H) (hs : handlers) : handlers :=
  let '(l, hs1) := getitem event_type hs in
  dict_set event_type (l ++ [handler]) hs1.

(** [l.remove(x)]: the first occurrence goes; [None] stands for the
    ValueError raised when there is none. *)
Fixpoint list_remove (x : H) (l : list H) : option (list H) :=
  match l with
  | [] => None
  | y :: r => if decide (y = x) then Some r else cons y <$> list_remove x r
  end.

Definition unsubscribe (event_type : pystr) (handler : H) (hs : handlers) : handlers :=
  match dict_get event_type hs with
  | Some l =>
      match list_remove handler l with
      | Some l' => dict_set event_type l' hs
      | None => hs
      end
  | None => hs
  end.

Definition get_handlers_count (event_type : pystr) (hs : handlers) : Z :=
  Z.of_nat (length (handlers_for event_type hs)).

(** [clear_handlers(event_type=None)]: [if event_type:] takes the
    empty string for no event type. *)
Definition clear_handlers (event_type : option pystr) (hs : handlers) : handlers :=
  match event_type with
  | Some t => if truthy t then dict_set t [] (getitem t hs).2 else []
  | None => []
  end.

End Bus.

(** Two handlers, known by number, the second of which raises. *)
Definition second_raises (handler : nat) (event_type : pystr) : Res unit :=
  if (handler =? 2)%nat then Raise (Exn Exception (u "handler failed")) else Ok tt.

Definition two_handlers : @handlers nat :=
  subscribe (u "news.parsed") 2%nat (subscribe (u "news.parsed") 1%nat []).

End EventBus.

(** ** core/metrics.py *)

Module Metrics.

(** [tags]: [None], or a dict from the names of the tags to their values. *)
Definition tags : Type := option (list (pystr * pystr)).

(** The order of [str], by code points. *)
Fixpoint str_compare (a b : pystr) : comparison :=
  match a, b with
  | [], [] => Eq
  | [], _ :: _ => Lt
  | _ :: _, [] => Gt
  | x :: a', y :: b' =>
      match (x ?= y)%N with
      | Eq => str_compare a' b'
      | c => c
      end
  end.

(** [<=] on the tuples [(k, v)] that [sorted(tags.items())] compares. *)
Definition tuple_le (p q : pystr * pystr) : Prop :=
  match str_compare p.1 q.1 with
  | Lt => True
  | Gt => False
  | Eq => str_compare p.2 q.2 <> Gt
  end.

#[export] Instance tuple_le_dec p q : Decision (tuple_le p q).
Proof. unfold tuple_le. destruct (str_compare p.1 q.1); apply _. Defined.

(** [f"{k}={v}"] *)
Definition tag_item (kv : pystr * pystr) : pystr := kv.1 ++ u "=" ++ kv.2.

Definition _build_key (metric : pystr) (t : tags) : pystr :=
  match t with
  | None => metric
  | Some [] => metric
  | Some items =>
      let tag_str := join (u ",") (List.map tag_item (merge_sort tuple_le items)) in
      metric ++ u "[" ++ tag_str ++ u "]"
  end.

(** [InMemoryMetricsCollector]: [counters] and [durations] are
    defaultdicts, [gauges] is a dict. *)
Record Collector := {
  counters : list (pystr * Z);
  gauges : list (pystr * Q);
  durations : list (pystr * list Q)
}.

Definition new_collector : Collector :=
  {| counters := []; gauges := []; durations := [] |}.

Definition increment_counter (metric : pystr) (t : tags) (c : Collector) : Collector :=
  let key := _build_key metric t in
  {| counters := dict_set key (default 0 (dict_get key (counters c)) + 1) (counters c);
     gauges := gauges c;
     durations := durations c |}.

Definition record_duration (metric : pystr) (duration : Q) (t : tags) (c : Collector)
  : Collector :=
  let key := _build_key metric t in
  {| counters := counters c;
     gauges := gauges c;
     durations := dict_set key (default [] (dict_get key (durations c)) ++ [duration])
                    (durations c) |}.

Definition set_gauge (metric : pystr) (value : Q) (t : tags) (c : Collector) : Collector :=
  let key := _build_key metric t in
  {| counters := counters c;
     gauges := dict_set key value (gauges c);
     durations := durations c |}.

Definition get_counter (metric : pystr) (t : tags) (c : Collector) : Z :=
  let key := _build_key metric t in
  default 0 (dict_get key (counters c)).

Definition get_gauge (metric : pystr) (t : tags) (c : Collector) : option Q :=
  let key := _build_key metric t in
  dict_get key (gauges c).

Section Timed.
Context {A : Type}.
(** [time.time()] before the call, and in the [finally] block. *)
Variable start_time end_time : Q.

(** [timed_metric(metrics_getter, metric_name, tags)(func)]: the wrapped
    function returns or raises, and may use the collector itself. *)
Definition timed_metric (metric_name : pystr) (t : tags)
    (func : Collector -> Res A * Collector) (c : Collector) : Res A * Collector :=
  let '(result, c1) := func c in
  let c2 :=
    match result with
    | Ok _ => increment_counter (metric_name ++ u ".success") t c1
    | Raise _ => increment_counter (metric_name ++ u ".error") t c1
    end in
  (result, record_duration metric_name (end_time - start_time) t c2).
End Timed.

(** The durations recorded under the key of a metric. *)
Definition durations_of (metric : pystr) (t : tags) (c : Collector) : list Q :=
  default [] (dict_get (_build_key metric t) (durations c)).

(** Two ways of writing the same tags, and a function that fails. *)
Definition tags_ab : tags := Some [(u "source", u "a"); (u "status", u "b")].
Definition tags_ba : tags := Some [(u "status", u "b"); (u "source", u "a")].

Definition failing_call (c : Collector) : Res Z * Collector :=
  (Raise (Exn ProcessingError (u "failed")), c).

End Metrics.

(** ** services/content_processor_service.py *)

Module ContentProcessor.

(** [self.sensitive_keywords] *)
Definition sensitive_keywords : list pystr :=
  [
   u "путин"; u "зеленский"; u "байден"; u "трамп"; u "навальный"; u "оппозиция";
   u "выборы"; u "голосование"; u "референдум"; u "протест"; u "митинг";
   u "демонстрация"; u "санкции"; u "блокировка"; u "запрет"; u "цензура";
   u "репрессии"; u "война"; u "военный"; u "армия"; u "солдат"; u "офицер";
   u "генерал"; u "украина"; u "донбасс"; u "луганск"; u "донецк"; u "крым";
   u "херсон"; u "сво"; u "спецоперация"; u "мобилизация"; u "призыв"; u "военкомат";
   u "оружие"; u "танк"; u "самолет"; u "ракета"; u "бомба"; u "взрыв"; u "атака";
   u "обстрел"; u "удар"; u "наступление"; u "оборона"; u "коррупция"; u "взятка";
   u "откат"; u "хищение"; u "мошенничество"; u "убийство"; u "смерть"; u "теракт";
   u "взрыв"; u "пожар"; u "авария"; u "катастрофа"; u "трагедия"; u "жертвы";
   u "пострадавшие" ].

(** [self.gigachat_block_phrases] *)
Definition gigachat_block_phrases : list pystr :=
  [
   u "чувствительными темами"; u "временно ограничены"; u "некорректные ответы";
   u "открытых источников"; u "неправильного толкования";
   u "генеративные языковые модели"; u "благодарим за понимание" ].

(** The dict [replacements] of [_simple_rephrase_title], in its order. *)
Definition title_replacements : list (pystr * pystr) :=
  [
   (u "сообщает", u "информирует");
   (u "заявил", u "отметил");
   (u "рассказал", u "поделился информацией");
   (u "объявил", u "сообщил");
   (u "планирует", u "намерен");
   (u "будет", u "планируется");
   (u "прошел", u "состоялся");
   (u "началось", u "стартовало");
   (u "завершилось", u "подошло к концу") ].

(** The dict [word_replacements] of [_simple_rephrase_content]. *)
Definition word_replacements : list (pystr * pystr) :=
  [
   (u "сказал", u "отметил");
   (u "говорит", u "утверждает");
   (u "считает", u "полагает");
   (u "думает", u "считает");
   (u "планирует", u "намеревается");
   (u "хочет", u "планирует");
   (u "будет делать", u "планирует");
   (u "произошло", u "случилось");
   (u "случилось", u "имело место");
   (u "началось", u "стартовало");
   (u "закончилось", u "завершилось") ].

(** [s.replace(old, new)] for an [old] that is not empty: the
    occurrences are replaced from left to right, without overlap;
    [skip] code points of an occurrence are still to be passed. *)
Fixpoint replace_from (old new : pystr) (skip : nat) (s : pystr) : pystr :=
  match s with
  | [] => []
  | c :: r =>
      match skip with
      | S k => replace_from old new k r
      | O =>
          if startswith s old then new ++ replace_from old new (length old - 1) r
          else c :: replace_from old new 0 r
      end
  end.

Definition replace (old new s : pystr) : pystr := replace_from old new 0 s.

(** [s.endswith('.')] *)
Definition endswith_dot (s : pystr) : bool :=
  match last s with
  | Some c => (c =? 46)%N
  | None => false
  end.

Section Processor.
(** [str.lower] *)
Variable lower : pystr -> pystr.
(** [re.sub(r'\b' + old + r'\b', new, s, flags=re.IGNORECASE)] and
    [re.split(r'[.!?]+', s)], of the [re] library. *)
Variable re_sub_word : pystr -> pystr -> pystr -> pystr.
Variable re_split_sentences : pystr -> list pystr.
(** Outcome of [self.circuit_breaker.call(self._process_with_gigachat,
    news)]: the text of the service, nothing, or a failure. *)
Variable gigachat : NewsItem -> Res (option pystr).

Definition _is_sensitive_topic (title content : pystr) : bool :=
  let text := lower (title ++ u " " ++ content) in
  any_in sensitive_keywords text.

Definition _is_gigachat_blocked_response (response_text : pystr) : bool :=
  if negb (truthy response_text) then false
  else
    let text := lower response_text in
    any_in gigachat_block_phrases text.

Definition _simple_rephrase_title (title : pystr) : pystr :=
  fold_left (fun result (on : pystr * pystr) => re_sub_word on.1 on.2 result)
    title_replacements title.

(** One turn of the loop over [sentences]: what is appended to
    [rephrased_sentences], if anything. *)
Definition rephrase_sentence (sentence : pystr) : option pystr :=
  let sentence := strip sentence in
  if negb (truthy sentence) then None
  else
    let rephrased :=
      fold_left (fun r (on : pystr * pystr) => re_sub_word on.1 on.2 r)
        word_replacements sentence in
    let rephrased :=
      if str_in (u "в результате") (lower rephrased)
      then replace (u "в результате") (u "вследствие")
             (replace (u "В результате") (u "Вследствие этого") rephrased)
      else rephrased in
    let rephrased :=
      if truthy rephrased && negb (endswith_dot rephrased)
      then rephrased ++ u "."
      else rephrased in
    Some rephrased.

Definition _simple_rephrase_content (content : pystr) : pystr :=
  let sentences := re_split_sentences content in
  join (u " ") (omap rephrase_sentence sentences).

(** The operations on strings raise nothing, the [except] branch is
    never taken. *)
Definition _create_alternative_rephrasing (title content : pystr) (city : option pystr)
  : pystr :=
  let rephrased_title := _simple_rephrase_title title in
  let rephrased_content := _simple_rephrase_content content in
  let city_info :=
    match city with
    | Some c => if truthy c then u " (" ++ c ++ u ")" else []
    | None => []
    end in
  (u "Заголовок: " ++ rephrased_title ++ city_info ++ [10%N])
    ++ (u "Текст: " ++ rephrased_content).

(** [process_content]: every path ends in the return of a string. *)
Definition process_content (news : NewsItem) : pystr :=
  if _is_sensitive_topic (title news) (content news) then
    _create_alternative_rephrasing (title news) (content news) (city news)
  else
    match gigachat news with
    | Ok result =>
        if truthy_opt result
           && _is_gigachat_blocked_response (default [] result) then
          _create_alternative_rephrasing (title news) (content news) (city news)
        else if truthy_opt result then default [] result
        else _create_alternative_rephrasing (title news) (content news) (city news)
    | Raise _ =>
        _create_alternative_rephrasing (title news) (content news) (city news)
    end.

(** The processor, as the orchestrator sees it. *)
Definition as_content_processor (news : NewsItem) : Res (option pystr) :=
  Ok (Some (process_content news)).

End Processor.

End ContentProcessor.

(** * Properties *)

(** ** The retry wrapper *)

Module RetryFacts.
Import Retry.

Lemma Qmin_left (x y : Q) : (x <= y)%Q -> Qmin x y = x.
Proof.
  intros Hle. unfold Qmin, GenericMinMax.gmin.
  destruct (x ?= y)%Q eqn:E; try reflexivity.
  apply Qgt_alt in E. exfalso. exact (Qlt_not_le _ _ E Hle).
Qed.

Lemma backoff_0 md excs : (2 <= md)%Q -> backoff (three_attempts md excs) 0 = 1%Q.
Proof.
  intros H. unfold backoff. cbn [base_delay exponential_base max_delay three_attempts].
  apply Qmin_left. apply Qle_trans with (2 := H). unfold Qle. simpl. lia.
Qed.

Lemma backoff_1 md excs : (2 <= md)%Q -> backoff (three_attempts md excs) 1 = 2%Q.
Proof.
  intros H. unfold backoff. cbn [base_delay exponential_base max_delay three_attempts].
  apply Qmin_left. apply Qle_trans with (2 := H). unfold Qle. simpl. lia.
Qed.

(** An exception outside [config.exceptions] leaves at the first call,
    whatever the configuration. *)
Lemma not_retryable_propagates {A} config (func : nat -> Res A) random e todo :
  func 0%nat = Raise e ->
  isinstance e (exceptions config) = false ->
  attempts config func random (S todo) 0 None = (Raise e, [Invoke 0]).
Proof.
  intros Hf Hi. cbn [attempts]. change (Z.to_nat 0) with 0%nat.
  rewrite Hf, Hi. reflexivity.
Qed.

(** C4: with max_attempts=3, base_delay=1.0, exponential_base=2.0, no
    jitter (and a max_delay of at least 2.0, as the default 60.0 is), a
    function that fails at every call with a retryable exception is called
    exactly three times, the sleeps in between last 1.0 then 2.0, and the
    exception raised in the end is the one of the last call; a function
    whose first call fails with an exception that is not retryable is
    called once, nothing is slept, and that exception is raised. *)
Theorem retry_three_attempts {A} (md : Q) (excs : list exn_class)
    (func : nat -> Res A) (random : nat -> Q) :
  (2 <= md)%Q ->
  ((forall n, exists e, func n = Raise e /\ isinstance e excs = true) ->
   exists e2,
     func 2%nat = Raise e2 /\
     retry_async (three_attempts md excs) func random
     = (Raise e2, [Invoke 0; Sleep 1; Invoke 1; Sleep 2; Invoke 2]) /\
     invocations (snd (retry_async (three_attempts md excs) func random)) = 3%nat /\
     sleeps (snd (retry_async (three_attempts md excs) func random)) = [1%Q; 2%Q])
  /\
  (forall e, func 0%nat = Raise e -> isinstance e excs = false ->
     retry_async (three_attempts md excs) func random = (Raise e, [Invoke 0]) /\
     invocations (snd (retry_async (three_attempts md excs) func random)) = 1%nat /\
     sleeps (snd (retry_async (three_attempts md excs) func random)) = []).
Proof.
  intros Hmd. split.
  - intros Hfail.
    destruct (Hfail 0%nat) as (e0 & H0 & I0).
    destruct (Hfail 1%nat) as (e1 & H1 & I1).
    destruct (Hfail 2%nat) as (e2 & H2 & I2).
    exists e2. split; [exact H2|].
    assert (E : retry_async (three_attempts md excs) func random
                = (Raise e2, [Invoke 0; Sleep 1; Invoke 1; Sleep 2; Invoke 2])).
    { unfold retry_async.
      change (Z.to_nat (max_attempts (three_attempts md excs))) with 3%nat.
      cbn [attempts]. unfold jittered.
      cbn [jitter exceptions max_attempts three_attempts].
      change (Z.to_nat 0) with 0%nat. rewrite H0, I0.
      change (0 =? 3 - 1) with false. cbn iota.
      change (Z.to_nat (0 + 1)) with 1%nat. rewrite H1, I1.
      change (0 + 1 =? 3 - 1) with false. cbn iota.
      change (Z.to_nat (0 + 1 + 1)) with 2%nat. rewrite H2, I2.
      change (0 + 1 + 1 =? 3 - 1) with true. cbn iota.
      rewrite (backoff_0 md excs Hmd).
      change (0 + 1) with 1. rewrite (backoff_1 md excs Hmd). reflexivity. }
    rewrite E. repeat split; reflexivity.
  - intros e H0 I0.
    assert (E : retry_async (three_attempts md excs) func random = (Raise e, [Invoke 0])).
    { unfold retry_async.
      change (Z.to_nat (max_attempts (three_attempts md excs))) with 3%nat.
      apply not_retryable_propagates; assumption. }
    rewrite E. repeat split; reflexivity.
Qed.

Lemma retry_three_attempts_witness :
  (2 <= 60)%Q /\
  retry_async (three_attempts 60 [ExternalError (u "TimeoutError")])
    (fun _ => @Raise unit timeout_error) (fun _ => 0%Q)
  = (Raise timeout_error, [Invoke 0; Sleep 1; Invoke 1; Sleep 2; Invoke 2]).
Proof.
  assert (H : (2 <= 60)%Q) by (unfold Qle; simpl; lia).
  split; [exact H|].
  destruct (retry_three_attempts 60 [ExternalError (u "TimeoutError")]
              (fun _ => @Raise unit timeout_error) (fun _ => 0%Q) H) as [Hall _].
  destruct Hall as (e2 & He & Hr & _).
  - intros n. exists timeout_error. split; reflexivity.
  - injection He as <-. exact Hr.
Defined.










(** X3: with max_attempts zero or negative the loop body never runs: the
    wrapped function is not called, nothing is slept, and the final
    [raise last_exception] raises [None], which Python turns into a
    TypeError. *)
Theorem retry_without_attempts {A} config (func : nat -> Res A) random :
  max_attempts config <= 0 ->
  retry_async config func random
  = (Raise (Exn TypeError (u "exceptions must derive from BaseException")), []).
Proof.
  intros Hmax. unfold retry_async.
  replace (Z.to_nat (max_attempts config)) with 0%nat by lia. reflexivity.
Qed.






Lemma retry_without_attempts_witness :
  retry_async {| max_attempts := 0; base_delay := 1; max_delay := 60;
                 exponential_base := 2; jitter := true; exceptions := [Exception] |}
    third_time_lucky (fun _ => 0%Q)
  = (Raise (Exn TypeError (u "exceptions must derive from BaseException")), []).
Proof.
  apply retry_without_attempts. cbn. lia.
Defined.


End RetryFacts.

(** ** Strings *)

Module PyFacts.

Lemma lstrip_spaces (ws s : pystr) :
  forallb is_space ws = true -> lstrip (ws ++ s) = lstrip s.
Proof.
  induction ws as [|c ws IH]; intros H; [reflexivity|].
  cbn in H. apply andb_prop in H as [Hc Hws].
  cbn [app lstrip]. rewrite Hc. auto.
Qed.

Lemma lstrip_all_spaces (ws : pystr) :
  forallb is_space ws = true -> lstrip ws = [].
Proof.
  intros H. rewrite <- (app_nil_r ws). rewrite lstrip_spaces by assumption. reflexivity.
Qed.

Lemma forallb_rev {A} (f : A -> bool) (l : list A) :
  forallb f (rev l) = forallb f l.
Proof.
  induction l as [|a l IH]; [reflexivity|].
  cbn [rev]. rewrite forallb_app, IH. cbn. rewrite andb_true_r. apply andb_comm.
Qed.

Lemma rstrip_spaces (s ws : pystr) :
  forallb is_space ws = true -> rstrip (s ++ ws) = rstrip s.
Proof.
  intros H. unfold rstrip. rewrite rev_app_distr.
  rewrite lstrip_spaces; [reflexivity|]. rewrite forallb_rev. exact H.
Qed.

Lemma strip_right_spaces (s ws : pystr) :
  forallb is_space ws = true -> strip (s ++ ws) = strip s.
Proof.
  intros H. unfold strip. induction s as [|c s IH].
  - cbn [app]. rewrite lstrip_all_spaces by assumption. reflexivity.
  - cbn [app lstrip]. destruct (is_space c); [exact IH|].
    change (c :: s ++ ws) with ((c :: s) ++ ws). apply rstrip_spaces, H.
Qed.

(** Whitespace around a string does not survive [strip]. *)
Lemma strip_padding (l s r : pystr) :
  forallb is_space l = true -> forallb is_space r = true ->
  strip (l ++ s ++ r) = strip s.
Proof.
  intros Hl Hr. unfold strip. rewrite lstrip_spaces by assumption.
  apply (strip_right_spaces s r Hr).
Qed.

Lemma lstrip_split (s : pystr) :
  exists l, s = l ++ lstrip s /\ forallb is_space l = true.
Proof.
  induction s as [|c s (l & E & Hl)].
  - exists []. split; reflexivity.
  - cbn [lstrip]. destruct (is_space c) eqn:Hc.
    + exists (c :: l). split; [cbn; congruence|]. cbn. rewrite Hc. exact Hl.
    + exists []. split; reflexivity.
Qed.

(** [strip] only removes whitespace, and only at the two ends. *)
Lemma strip_split (s : pystr) :
  exists l r, s = l ++ strip s ++ r
              /\ forallb is_space l = true /\ forallb is_space r = true.
Proof.
  destruct (lstrip_split s) as (l & El & Hl).
  destruct (lstrip_split (rev (lstrip s))) as (r & Er & Hr).
  exists l, (rev r). split; [|split; [exact Hl|rewrite forallb_rev; exact Hr]].
  unfold strip, rstrip. rewrite <- rev_app_distr, <- Er, rev_involutive. exact El.
Qed.

(** Reading a dict after an assignment. *)
Lemma dict_get_set_eq {V} (key : pystr) (v : V) (d : list (pystr * V)) :
  dict_get key (dict_set key v d) = Some v.
Proof.
  induction d as [|[k x] d IH]; cbn.
  - rewrite bool_decide_eq_true_2 by reflexivity. reflexivity.
  - destruct (bool_decide (k = key)) eqn:E; cbn; rewrite E; [reflexivity|exact IH].
Qed.

Lemma dict_get_set_ne {V} (key key' : pystr) (v : V) (d : list (pystr * V)) :
  key' <> key -> dict_get key' (dict_set key v d) = dict_get key' d.
Proof.
  intros Hne. induction d as [|[k x] d IH]; cbn.
  - rewrite bool_decide_eq_false_2 by congruence. reflexivity.
  - destruct (bool_decide (k = key)) eqn:E; cbn.
    + apply bool_decide_eq_true in E. subst k.
      rewrite bool_decide_eq_false_2 by congruence. reflexivity.
    + destruct (bool_decide (k = key')); [reflexivity|exact IH].
Qed.

End PyFacts.

(** ** The validation chain *)

Module ValidationFacts.
Import Validation.

(** C3: for a keyword of the ambiguous table that occurs in the text and
    is one of the configured keywords: with a geographic-context word and
    no person-context word the keyword is a valid regional match; with a
    person-context word it is rejected, geographic words or not; with
    neither, it is accepted exactly when one of the anchor phrases occurs
    in the text. *)
Theorem disambiguation_table (lower : pystr -> pystr) (kws : list pystr)
    (keyword text : pystr) (data : ambiguous_data) :
  dict_get keyword ambiguous_keywords = Some data ->
  In keyword (keywords lower kws) ->
  str_in keyword text = true ->
  let geographic_found := any_in (geographic_context data) text in
  let person_found := any_in (person_context data) text in
  let anchor_found := any_in regional_words text in
  (geographic_found = true -> person_found = false ->
     _is_valid_regional_keyword keyword text = true
     /\ In keyword (found_keywords lower kws text))
  /\ (person_found = true ->
     _is_valid_regional_keyword keyword text = false
     /\ ~ In keyword (found_keywords lower kws text))
  /\ (geographic_found = false -> person_found = false ->
     _is_valid_regional_keyword keyword text = anchor_found
     /\ (In keyword (found_keywords lower kws text) <-> anchor_found = true)).
Proof.
  intros Hd Hin Hocc geo person anchor.
  assert (Hfound : In keyword (found_keywords lower kws text)
                   <-> _is_valid_regional_keyword keyword text = true).
  { unfold found_keywords. rewrite filter_In, Hocc. cbn. tauto. }
  assert (Hv : _is_valid_regional_keyword keyword text
               = if geo && negb person then true
                 else if person then false
                 else if anchor then true else false).
  { unfold _is_valid_regional_keyword. rewrite Hd. reflexivity. }
  repeat split.
  - rewrite Hv, H, H0. reflexivity.
  - apply Hfound. rewrite Hv, H, H0. reflexivity.
  - rewrite Hv, H. destruct geo; reflexivity.
  - intros Hf. apply Hfound in Hf. rewrite Hv, H in Hf. destruct geo; discriminate.
  - rewrite Hv, H, H0. destruct anchor; reflexivity.
  - intros Hf. apply Hfound in Hf. rewrite Hv, H, H0 in Hf.
    destruct anchor; [reflexivity|discriminate].
  - intros Ha. apply Hfound. rewrite Hv, H, H0, Ha. reflexivity.
Qed.

Lemma disambiguation_table_witness :
  _is_valid_regional_keyword (u "энгельс") (u "город энгельс отремонтировал дороги") = true
  /\ _is_valid_regional_keyword (u "энгельс") (u "город энгельс и фридрих философ") = false.
Proof.
  assert (Hd : dict_get (u "энгельс") ambiguous_keywords
               = Some {| geographic_context := geo_words;
                         person_context :=
                           [u "фридрих"; u "философ"; u "коммунизм"; u "маркс"; u "теория"] |})
    by (vm_compute; reflexivity).
  assert (Hin : In (u "энгельс") (keywords (fun s => s) [u "энгельс"]))
    by (left; reflexivity).
  split.
  - refine (proj1 (proj1 (disambiguation_table (fun s => s) [u "энгельс"] (u "энгельс")
             (u "город энгельс отремонтировал дороги") _ Hd Hin _) _ _));
      vm_compute; reflexivity.
  - refine (proj1 (proj1 (proj2 (disambiguation_table (fun s => s) [u "энгельс"] (u "энгельс")
             (u "город энгельс и фридрих философ") _ Hd Hin _)) _));
      vm_compute; reflexivity.
Defined.

(** The reasons the repository's validators give are never empty. *)
Lemma concrete_gives_reasons (v : validator) :
  concrete_validator v -> gives_reasons v.
Proof.
  intros Hv news reason. destruct Hv as [mn mx|mn mx|m|lower kws excl]; intros H.
  - unfold TitleValidator in H.
    repeat match type of H with
           | context [if ?c then _ else _] => destruct c
           end; try discriminate; injection H as <-; reflexivity.
  - unfold ContentValidator in H.
    repeat match type of H with
           | context [if ?c then _ else _] => destruct c
           end; try discriminate; injection H as <-; reflexivity.
  - unfold UrlValidator in H.
    repeat match type of H with
           | context [if ?c then _ else _] => destruct c
           end; try discriminate; injection H as <-; reflexivity.
  - unfold RegionKeywordValidator in H.
    destruct (find _ _); [injection H as <-; reflexivity|].
    destruct (found_keywords _ _ _); [injection H as <-; reflexivity|discriminate].
Qed.

Lemma chain_errors_all (validators : list validator) (news : NewsItem) :
  Forall gives_reasons validators ->
  chain_errors validators news = omap (fun v : validator => v news) validators.
Proof.
  induction 1 as [|v vs Hv _ IH]; [reflexivity|].
  unfold chain_errors, omap in *. simpl. rewrite IH.
  destruct (v news) as [reason|] eqn:E; [|reflexivity].
  rewrite (Hv news reason E). reflexivity.
Qed.

Lemma omap_nil_iff {A B} (f : A -> option B) (l : list A) :
  omap f l = [] <-> forall x, In x l -> f x = None.
Proof.
  unfold omap. induction l as [|a l IH]; simpl.
  - split; [intros _ x []|reflexivity].
  - destruct (f a) eqn:E.
    + split; [discriminate|]. intros H. specialize (H a (or_introl eq_refl)). congruence.
    + rewrite IH. split.
      * intros H x [<-|Hx]; auto.
      * intros H x Hx. apply H. right. exact Hx.
Qed.

(** C8: for a chain of validators whose reasons are never the empty
    string, as those of the four validators of the repository are, every
    validator is run and every reason is kept: the item is accepted exactly
    when each validator gives no reason, and a rejection reports the
    reasons of all the failing validators, in the order of the chain. *)
Theorem chain_aggregates_all_reasons (validators : list validator) (news : NewsItem) :
  Forall gives_reasons validators ->
  let reasons := omap (fun v : validator => v news) validators in
  (validate validators news = Ok tt <-> forall v, In v validators -> v news = None)
  /\ (is_valid validators news = true <-> reasons = [])
  /\ (reasons <> [] ->
      validate validators news
      = Raise (Exn NewsValidationError (u "Validation failed: " ++ join (u "; ") reasons))).
Proof.
  intros Hc reasons.
  assert (Hv : validate validators news
               = match reasons with
                 | [] => Ok tt
                 | e :: errs =>
                     Raise (Exn NewsValidationError
                              (u "Validation failed: " ++ join (u "; ") (e :: errs)))
                 end).
  { unfold validate. rewrite chain_errors_all by assumption. reflexivity. }
  split; [|split].
  - rewrite Hv, <- omap_nil_iff. fold reasons.
    destruct reasons; split; intros H; try reflexivity; discriminate.
  - unfold is_valid. rewrite Hv.
    destruct reasons; split; intros H; try reflexivity; discriminate.
  - intros Hne. rewrite Hv. destruct reasons; [contradiction|reflexivity].
Qed.

Lemma chain_aggregates_all_reasons_witness :
  Forall gives_reasons sample_chain
  /\ validate sample_chain sample_news
     = Raise (Exn NewsValidationError
                (u "Validation failed: Title too short: 5 < 10; Content too short: 17 < 20; Invalid URL format: nowhere; No relevant regional keywords found")).
Proof.
  assert (Hc : Forall gives_reasons sample_chain)
    by (repeat constructor; apply concrete_gives_reasons; constructor).
  split; [exact Hc|].
  rewrite (proj2 (proj2 (chain_aggregates_all_reasons sample_chain sample_news Hc)));
    [vm_compute; reflexivity|vm_compute; discriminate].
Defined.

Lemma strip_blank (s : pystr) : forallb is_space s = true -> strip s = [].
Proof.
  intros H. unfold strip. rewrite (PyFacts.lstrip_all_spaces s H). reflexivity.
Qed.

Lemma truthy_false (s : pystr) : truthy s = false <-> s = [].
Proof. destruct s; cbn; split; congruence. Qed.

(** X5: the title validator accepts an item exactly when its title,
    stripped of surrounding whitespace, is not empty and has a length
    between min_length and max_length; the content validator likewise.
    A title or content made of whitespace only is reported as empty
    whatever the bounds are, a min_length of zero included. *)
Theorem length_validators_accept_iff (mn mx : Z) (news : NewsItem) :
  (TitleValidator mn mx news = None
   <-> strip (title news) <> []
       /\ mn <= Z.of_nat (length (strip (title news))) <= mx)
  /\ (ContentValidator mn mx news = None
      <-> strip (content news) <> []
          /\ mn <= Z.of_nat (length (strip (content news))) <= mx)
  /\ (forallb is_space (title news) = true ->
      TitleValidator mn mx news = Some (u "Title cannot be empty"))
  /\ (forallb is_space (content news) = true ->
      ContentValidator mn mx news = Some (u "Content cannot be empty")).
Proof.
  assert (G : forall (s : pystr) (e short long : pystr),
             (if negb (truthy s) || negb (truthy (strip s)) then Some e
              else if Z.of_nat (length (strip s)) <? mn then Some short
              else if Z.of_nat (length (strip s)) >? mx then Some long
              else None) = None
             <-> strip s <> [] /\ mn <= Z.of_nat (length (strip s)) <= mx).
  { intros s e short long.
    destruct (truthy s) eqn:Ts; cbn [negb orb].
    - destruct (truthy (strip s)) eqn:Tt; cbn [negb].
      + assert (strip s <> []) by (intros E; rewrite E in Tt; discriminate).
        destruct (Z.ltb_spec (Z.of_nat (length (strip s))) mn);
          [split; [discriminate|lia]|].
        destruct (Z.gtb_spec (Z.of_nat (length (strip s))) mx);
          [split; [discriminate|lia]|].
        split; [intros _; split; [assumption|lia]|reflexivity].
      + apply truthy_false in Tt. split; [discriminate|]. intros [? _]. contradiction.
    - apply truthy_false in Ts. subst s. split; [discriminate|].
      intros [Hs _]. exfalso. apply Hs. reflexivity. }
  split; [apply G|]. split; [apply G|]. split.
  - intros Hb. unfold TitleValidator. rewrite (strip_blank _ Hb).
    cbn [truthy negb]. rewrite orb_true_r. reflexivity.
  - intros Hb. unfold ContentValidator. rewrite (strip_blank _ Hb).
    cbn [truthy negb]. rewrite orb_true_r. reflexivity.
Qed.

Lemma find_first {A} (f : A -> bool) (l : list A) (x : A) :
  List.find f l = Some x ->
  f x = true /\ exists l1 l2, l = l1 ++ x :: l2 /\ Forall (fun y => f y = false) l1.
Proof.
  induction l as [|a l IH]; [discriminate|]. cbn [List.find].
  destruct (f a) eqn:Fa.
  - intros [= <-]. split; [exact Fa|]. exists [], l. split; [reflexivity|constructor].
  - intros H. destruct (IH H) as (Fx & l1 & l2 & -> & Hl1). split; [exact Fx|].
    exists (a :: l1), l2. split; [reflexivity|]. constructor; assumption.
Qed.

(** X6: when an exclusion keyword occurs in the lowered "title content"
    text, the regional validator rejects the item whatever regional
    keywords the text holds, and the reason names the first exclusion
    keyword, in the configured order, that occurs in the text. *)
Theorem exclude_keyword_wins (lower : pystr -> pystr) (kws excl : list pystr)
    (news : NewsItem) (w : pystr) :
  let text := lower (title news ++ u " " ++ content news) in
  In w (exclude_keywords lower excl) ->
  str_in w text = true ->
  exists first before after,
    RegionKeywordValidator lower kws excl news
    = Some (u "News excluded due to keyword: " ++ first)
    /\ exclude_keywords lower excl = before ++ first :: after
    /\ str_in first text = true
    /\ Forall (fun x => str_in x text = false) before.
Proof.
  intros text Hin Hocc. unfold RegionKeywordValidator. fold text.
  destruct (List.find (fun w0 => str_in w0 text) (exclude_keywords lower excl))
    as [first|] eqn:F.
  - destruct (find_first _ _ _ F) as (Hf & before & after & E & Hb).
    exists first, before, after. repeat split; assumption.
  - exfalso. pose proof (find_none _ _ F w Hin) as Hn. cbn in Hn. congruence.
Qed.

(** X7: the regional validator accepts an item exactly when no exclusion
    keyword occurs in the lowered text and some configured keyword occurs
    in it and passes the disambiguation. *)
Theorem region_accepted_iff (lower : pystr -> pystr) (kws excl : list pystr)
    (news : NewsItem) :
  let text := lower (title news ++ u " " ++ content news) in
  RegionKeywordValidator lower kws excl news = None
  <-> (forall w, In w (exclude_keywords lower excl) -> str_in w text = false)
      /\ (exists keyword,
             In keyword (keywords lower kws) /\ str_in keyword text = true
             /\ _is_valid_regional_keyword keyword text = true).
Proof.
  intros text. unfold RegionKeywordValidator. fold text.
  destruct (List.find (fun w0 => str_in w0 text) (exclude_keywords lower excl))
    as [first|] eqn:F.
  - split; [discriminate|]. intros [Hex _]. exfalso.
    apply find_some in F. destruct F as [Hin Hocc].
    rewrite (Hex _ Hin) in Hocc. discriminate.
  - pose proof (find_none _ _ F) as Hn.
    destruct (found_keywords lower kws text) as [|k found] eqn:Fk.
    + split; [discriminate|]. intros [_ (keyword & Hin & Hocc & Hv)]. exfalso.
      assert (Hk : In keyword (found_keywords lower kws text)).
      { unfold found_keywords. apply filter_In. split; [exact Hin|].
        rewrite Hocc, Hv. reflexivity. }
      rewrite Fk in Hk. destruct Hk.
    + split; [|reflexivity]. intros _. split; [exact Hn|].
      exists k. assert (Hk : In k (found_keywords lower kws text)) by (rewrite Fk; left; reflexivity).
      unfold found_keywords in Hk. apply filter_In in Hk. destruct Hk as [Hin Hb].
      apply andb_true_iff in Hb. destruct Hb. repeat split; assumption.
Qed.

Lemma is_valid_errors (validators : list validator) (news : NewsItem) :
  is_valid validators news = true <-> chain_errors validators news = [].
Proof.
  unfold is_valid, validate. destruct (chain_errors validators news); cbn; split; congruence.
Qed.

(** X8: the errors of a chain made of two parts are the errors of the
    first part followed by those of the second; the chain accepts an item
    exactly when both parts accept it, so that adding validators never
    makes a rejected item valid, and the order of the parts changes the
    message only, not the verdict. *)
Theorem chain_of_two_parts (vs1 vs2 : list validator) (news : NewsItem) :
  chain_errors (vs1 ++ vs2) news = chain_errors vs1 news ++ chain_errors vs2 news
  /\ is_valid (vs1 ++ vs2) news = is_valid vs1 news && is_valid vs2 news
  /\ is_valid (vs2 ++ vs1) news = is_valid (vs1 ++ vs2) news.
Proof.
  assert (E : forall a b, chain_errors (a ++ b) news = chain_errors a news ++ chain_errors b news).
  { intros a b. unfold chain_errors. apply omap_app. }
  assert (V : forall a b, is_valid (a ++ b) news = is_valid a news && is_valid b news).
  { intros a b. apply eq_true_iff_eq. rewrite andb_true_iff, !is_valid_errors, E.
    split; [apply app_eq_nil|intros [-> ->]; reflexivity]. }
  split; [apply E|]. split; [apply V|]. rewrite !V. apply andb_comm.
Qed.

Lemma length_validators_accept_iff_witness :
  TitleValidator 0 200 blank_title_news = Some (u "Title cannot be empty").
Proof.
  apply (length_validators_accept_iff 0 200). reflexivity.
Defined.

Lemma exclude_keyword_wins_witness :
  exists first,
    RegionKeywordValidator (fun s => s) [u "саратов"] [u "реклама"; u "казино"] advert_news
    = Some (u "News excluded due to keyword: " ++ first).
Proof.
  destruct (exclude_keyword_wins (fun s => s) [u "саратов"] [u "реклама"; u "казино"]
              advert_news (u "казино")) as (first & _ & _ & E & _).
  - right. left. reflexivity.
  - reflexivity.
  - exists first. exact E.
Defined.

End ValidationFacts.

(** ** The repository *)

Module RepositoryFacts.
Import Repository PyFacts.

Lemma map_exists_true {A} (P : Z -> A -> Prop) `{!forall k x, Decision (P k x)}
    (m : gmap Z A) :
  bool_decide (map_Exists P m) = true <-> exists k x, m !! k = Some x /\ P k x.
Proof. rewrite bool_decide_eq_true. reflexivity. Qed.

Lemma max_key_ge_default (d : Z) (m : gmap Z Row) : d <= max_key d m.
Proof.
  unfold max_key. induction (List.map fst (map_to_list m)) as [|k l IH]; simpl; lia.
Qed.

Lemma max_key_ge_key (d : Z) (m : gmap Z Row) (k : Z) (r : Row) :
  m !! k = Some r -> k <= max_key d m.
Proof.
  intros H. apply elem_of_map_to_list in H.
  assert (Hin : In k (List.map fst (map_to_list m))).
  { apply in_map_iff. exists (k, r). split; [reflexivity|].
    apply list_elem_of_In. exact H. }
  unfold max_key. induction (List.map fst (map_to_list m)) as [|k' l IH]; simpl.
  - destruct Hin.
  - destruct Hin as [->|Hin]; [lia|]. specialize (IH Hin). lia.
Qed.

(** The key AUTOINCREMENT hands out is not in the table. *)
Lemma fresh_key (d : Z) (m : gmap Z Row) : m !! (1 + max_key d m) = None.
Proof.
  destruct (m !! (1 + max_key d m)) as [r|] eqn:E; [|reflexivity].
  apply (max_key_ge_key d) in E. lia.
Qed.

Section Facts.
Variable sha256_hex : pystr -> pystr.
Variable fault : nat -> option exn.
Variable clock : nat -> Z.

Abbreviation fingerprint := (_generate_content_hash sha256_hex).
Abbreviation news_exists := (news_exists sha256_hex fault).
Abbreviation save_news := (save_news sha256_hex fault clock).
Abbreviation update_news_status := (update_news_status fault).
Abbreviation hash_duplicate := (hash_duplicate sha256_hex).

(** *** Faults and reads *)

Lemma query_rows {A} db (q : Db -> A) :
  rows (snd (query fault db q)) = rows db
  /\ seq (snd (query fault db q)) = seq db
  /\ tick (snd (query fault db q)) = S (tick db).
Proof.
  unfold query, transaction. destruct (fault (tick db)); simpl; auto.
Qed.

Lemma query_ok {A} db (q : Db -> A) :
  fault (tick db) = None -> fst (query fault db q) = Ok (q db).
Proof. intros H. unfold query, transaction. rewrite H. reflexivity. Qed.

Lemma query_result {A} db (q : Db -> A) r :
  fst (query fault db q) = Ok r -> r = q db.
Proof.
  unfold query, transaction. destruct (fault (tick db)); simpl; congruence.
Qed.

Lemma get_statistics_state db :
  rows (get_statistics fault db).2 = rows db
  /\ seq (get_statistics fault db).2 = seq db
  /\ tick (get_statistics fault db).2 = S (tick db).
Proof. apply query_rows. Qed.

Lemma get_news_by_status_state db st limit :
  rows (get_news_by_status fault db st limit).2 = rows db
  /\ seq (get_news_by_status fault db st limit).2 = seq db
  /\ tick (get_news_by_status fault db st limit).2 = S (tick db).
Proof. apply query_rows. Qed.

Lemma get_news_by_status_result db st limit l :
  (get_news_by_status fault db st limit).1 = Ok l -> l = select_by_status st limit db.
Proof. apply query_result. Qed.

(** *** The fingerprint *)

(** C6: the fingerprint is the digest of the trimmed title followed by
    the trimmed body and of nothing else: equal trimmed titles and
    bodies give equal fingerprints, whitespace added around the title
    or the body changes nothing, and trimming removes whitespace at the
    two ends only. *)
Theorem fingerprint_of_trimmed_text :
  (forall t c, fingerprint t c = sha256_hex (strip t ++ strip c))
  /\ (forall t1 c1 t2 c2,
         strip t1 = strip t2 -> strip c1 = strip c2 ->
         fingerprint t1 c1 = fingerprint t2 c2)
  /\ (forall t c l1 r1 l2 r2,
         forallb is_space (l1 ++ r1 ++ l2 ++ r2) = true ->
         fingerprint (l1 ++ t ++ r1) (l2 ++ c ++ r2) = fingerprint t c)
  /\ (forall s, exists l r,
         s = l ++ strip s ++ r
         /\ forallb is_space l = true /\ forallb is_space r = true).
Proof.
  split; [reflexivity|]. split; [|split].
  - intros t1 c1 t2 c2 Ht Hc. unfold _generate_content_hash. rewrite Ht, Hc. reflexivity.
  - intros t c l1 r1 l2 r2 H.
    rewrite !forallb_app in H.
    apply andb_prop in H as [H1 H]. apply andb_prop in H as [H2 H].
    apply andb_prop in H as [H3 H4].
    unfold _generate_content_hash. rewrite !strip_padding by assumption. reflexivity.
  - apply strip_split.
Qed.

(** *** Duplicates *)

Lemma news_exists_spec db news :
  fault (tick db) = None ->
  exists b, fst (news_exists db news) = Ok b
            /\ (b = true <-> hash_duplicate db news \/ url_duplicate db news).
Proof.
  intros Hf. unfold Repository.news_exists. rewrite query_ok by assumption.
  eexists. split; [reflexivity|].
  unfold hash_stored, url_stored, hash_duplicate, url_duplicate.
  destruct (bool_decide (map_Exists _ _)) eqn:Eh.
  - apply map_exists_true in Eh. tauto.
  - apply bool_decide_eq_false in Eh.
    destruct (url news) as [|c s] eqn:Eu; cbn [truthy].
    + split; [discriminate|]. intros [H|[H _]]; [|congruence].
      exfalso. apply Eh. exact H.
    + destruct (bool_decide (map_Exists _ _)) eqn:Ev.
      * apply map_exists_true in Ev. split; [|reflexivity].
        intros _. right. split; [discriminate|exact Ev].
      * apply bool_decide_eq_false in Ev. split; [discriminate|].
        intros [H|[_ H]]; exfalso; [apply Eh|apply Ev]; exact H.
Qed.

(** What [save_news] returns and leaves behind. *)
Lemma save_news_cases db news :
  let '(r, db') := save_news db news in
  (r = None /\ rows db' = rows db /\ seq db' = seq db)
  \/ (exists k,
        r = Some k /\ k = 1 + max_key (seq db) (rows db)
        /\ fst (news_exists db news) = Ok false
        /\ fault (S (tick db)) = None
        /\ seq db' = k
        /\ rows db' =
           <[k := {| row_title := title news; row_content := content news;
                     row_url := url news; row_source := source news;
                     row_city := city news;
                     original_hash := fingerprint (title news) (content news);
                     row_rephrased_content := None;
                     row_published_date := published_date news;
                     row_created_date := Some (clock (S (tick db)));
                     row_status := status news;
                     row_telegram_message_id := None |}]> (rows db)).
Proof.
  unfold Repository.save_news.
  pose proof (query_rows db (fun d =>
    if hash_stored (fingerprint (title news) (content news)) d then true
    else if truthy (url news) then
      if url_stored (url news) d then true else false
    else false)) as (Hr & Hs & Ht).
  unfold Repository.news_exists.
  destruct (query fault db _) as [[b|e] db1] eqn:Eq; simpl in Hr, Hs, Ht.
  2: { left. auto. }
  destruct b; [left; auto|].
  unfold transaction. rewrite Ht.
  destruct (fault (S (tick db))) eqn:Ef; [left; auto|].
  unfold insert_news.
  destruct (hash_stored _ db1) eqn:Eh; [left; auto|].
  right. eexists. split; [reflexivity|]. simpl. rewrite Hr, Hs.
  repeat split; reflexivity.
Qed.

(** C5: with a working connection, [news_exists] answers true exactly
    when a stored row carries the fingerprint of the item, or the url of
    the item is not empty and a stored row carries it; so once an item
    has been saved, an item with the same trimmed title and body is a
    duplicate whatever its url and source, and an item with the same
    non-empty url is a duplicate whatever its content. *)
Theorem news_exists_hash_or_url db news :
  fault (tick db) = None ->
  (exists b, fst (news_exists db news) = Ok b
             /\ (b = true <-> hash_duplicate db news \/ url_duplicate db news))
  /\ (forall db0 saved k,
         save_news db0 saved = (Some k, db) ->
         (strip (title news) = strip (title saved) ->
          strip (content news) = strip (content saved) ->
          fst (news_exists db news) = Ok true)
         /\ (url news = url saved -> url saved <> [] ->
             fst (news_exists db news) = Ok true)).
Proof.
  intros Hf. split; [apply news_exists_spec, Hf|].
  intros db0 saved k Hs.
  pose proof (save_news_cases db0 saved) as Hc. rewrite Hs in Hc.
  destruct Hc as [(Hn & _)|(k' & Hk & _ & _ & _ & _ & Hrows)]; [discriminate|].
  injection Hk as <-.
  destruct (news_exists_spec db news Hf) as (b & Hb & Hiff).
  split.
  - intros Ht Hcn. rewrite Hb. f_equal. apply Hiff. left.
    eexists k, _. split; [rewrite Hrows; apply lookup_insert_eq|].
    simpl. unfold _generate_content_hash. rewrite Ht, Hcn. reflexivity.
  - intros Hu Hne. rewrite Hb. f_equal. apply Hiff. right.
    split; [congruence|].
    eexists k, _. split; [rewrite Hrows; apply lookup_insert_eq|].
    simpl. congruence.
Qed.

(** *** Updates *)

Lemma update_rows_lookup_ne news_id st kw (m : gmap Z Row) k :
  news_id <> Some k -> update_rows news_id st kw m !! k = m !! k.
Proof.
  intros H. destruct news_id as [j|]; [|reflexivity].
  simpl. apply lookup_alter_ne. congruence.
Qed.

Lemma update_rows_lookup_eq st kw (m : gmap Z Row) k :
  update_rows (Some k) st kw m !! k = apply_update st kw <$> m !! k.
Proof. simpl. apply lookup_alter_eq. Qed.

(** The table after [update_news_status]: untouched, or updated. *)
Lemma update_news_status_rows db news_id st kw :
  let '(ok, db') := update_news_status db news_id st kw in
  seq db' = seq db /\ tick db' = S (tick db)
  /\ ((fault (tick db) <> None /\ ok = false /\ rows db' = rows db)
      \/ (fault (tick db) = None
          /\ rows db' = update_rows news_id st kw (rows db)
          /\ ok = (0 <? rowcount news_id (rows db)))).
Proof.
  unfold Repository.update_news_status, transaction.
  destruct (fault (tick db)); simpl.
  - split; [reflexivity|]. split; [reflexivity|]. left. auto.
  - split; [reflexivity|]. split; [reflexivity|]. right. auto.
Qed.

Lemma apply_update_frame st kw r :
  let r' := apply_update st kw r in
  row_title r' = row_title r /\ row_content r' = row_content r
  /\ row_url r' = row_url r /\ row_source r' = row_source r
  /\ row_city r' = row_city r
  /\ row_published_date r' = row_published_date r
  /\ row_created_date r' = row_created_date r
  /\ original_hash r' = original_hash r
  /\ row_status r' = st
  /\ row_rephrased_content r'
     = default (row_rephrased_content r) (kw_rephrased_content kw)
  /\ row_telegram_message_id r'
     = default (row_telegram_message_id r) (kw_telegram_message_id kw).
Proof.
  unfold apply_update.
  destruct (kw_rephrased_content kw), (kw_telegram_message_id kw);
    repeat split; reflexivity.
Qed.

(** C9: [update_news_status] leaves every row but the one of the given
    id as it was, adds and removes no row, and in the row of the given
    id changes nothing but the status and those of [rephrased_content]
    and [telegram_message_id] that were passed; when the connection
    works, that row gets the new status and the passed values. *)
Theorem update_news_status_frame db news_id st kw :
  let db' := (update_news_status db news_id st kw).2 in
  (forall k, news_id <> Some k -> rows db' !! k = rows db !! k)
  /\ (forall k, rows db !! k = None -> rows db' !! k = None)
  /\ (forall k r, rows db !! k = Some r ->
        exists r', rows db' !! k = Some r'
          /\ row_title r' = row_title r /\ row_content r' = row_content r
          /\ row_url r' = row_url r /\ row_source r' = row_source r
          /\ row_city r' = row_city r
          /\ row_published_date r' = row_published_date r
          /\ row_created_date r' = row_created_date r
          /\ original_hash r' = original_hash r
          /\ (kw_rephrased_content kw = None ->
              row_rephrased_content r' = row_rephrased_content r)
          /\ (kw_telegram_message_id kw = None ->
              row_telegram_message_id r' = row_telegram_message_id r))
  /\ (forall k r, news_id = Some k -> rows db !! k = Some r ->
        fault (tick db) = None ->
        (update_news_status db news_id st kw).1 = true
        /\ exists r', rows db' !! k = Some r'
          /\ row_status r' = st
          /\ row_rephrased_content r'
             = default (row_rephrased_content r) (kw_rephrased_content kw)
          /\ row_telegram_message_id r'
             = default (row_telegram_message_id r) (kw_telegram_message_id kw)).
Proof.
  pose proof (update_news_status_rows db news_id st kw) as H.
  destruct (update_news_status db news_id st kw) as [ok db'] eqn:E.
  cbn [snd fst]. destruct H as (_ & _ & H).
  split; [|split; [|split]].
  - intros k Hk. destruct H as [(_ & _ & ->)|(_ & -> & _)]; [reflexivity|].
    apply update_rows_lookup_ne, Hk.
  - intros k Hk. destruct H as [(_ & _ & ->)|(_ & -> & _)]; [exact Hk|].
    destruct news_id as [j|]; [|exact Hk]. simpl.
    destruct (decide (j = k)) as [->|Hne].
    + rewrite lookup_alter_eq, Hk. reflexivity.
    + rewrite lookup_alter_ne by exact Hne. exact Hk.
  - intros k r Hk.
    destruct H as [(_ & _ & ->)|(_ & -> & _)].
    { exists r. repeat split; auto. }
    destruct (decide (news_id = Some k)) as [->|Hne].
    + rewrite update_rows_lookup_eq, Hk. simpl. eexists. split; [reflexivity|].
      pose proof (apply_update_frame st kw r) as F. simpl in F.
      destruct F as (? & ? & ? & ? & ? & ? & ? & ? & ? & Hr & Ht).
      repeat split; try assumption.
      * intros Hn. rewrite Hr, Hn. reflexivity.
      * intros Hn. rewrite Ht, Hn. reflexivity.
    + rewrite update_rows_lookup_ne by exact Hne.
      exists r. repeat split; auto.
  - intros k r -> Hk Hf.
    destruct H as [(Hne & _)|(_ & Hrows & Hok)]; [contradiction|].
    split.
    + rewrite Hok. simpl. rewrite Hk. rewrite bool_decide_eq_true_2 by eauto. reflexivity.
    + rewrite Hrows, update_rows_lookup_eq, Hk. simpl. eexists. split; [reflexivity|].
      pose proof (apply_update_frame st kw r) as F. simpl in F. tauto.
Qed.

(** *** Saving *)

(** C10: [save_news] always returns, with a key that was not in the
    table and now is, or with [None]; it returns [None] when the item is
    a duplicate and when a connection fails; and whenever it returns
    [None] the table and the key sequence are as they were. *)
Theorem save_news_total_and_atomic db news :
  exists r db',
    save_news db news = (r, db')
    /\ (r = None
        \/ exists k, r = Some k /\ rows db !! k = None
                     /\ is_Some (rows db' !! k)
                     /\ forall j, j <> k -> rows db' !! j = rows db !! j)
    /\ ((news_exists db news).1 = Ok true ->
        r = None /\ rows db' = rows db /\ seq db' = seq db)
    /\ (is_Some (fault (tick db)) \/ is_Some (fault (S (tick db))) ->
        r = None /\ rows db' = rows db /\ seq db' = seq db)
    /\ (r = None -> rows db' = rows db /\ seq db' = seq db).
Proof.
  pose proof (save_news_cases db news) as H.
  destruct (save_news db news) as [r db'] eqn:E.
  exists r, db'. split; [reflexivity|].
  destruct H as [(-> & Hr & Hs)|(k & -> & Hk & Hex & Hf & Hs & Hr)].
  - repeat split; auto.
  - split; [|split; [|split]].
    + right. exists k. split; [reflexivity|]. rewrite Hr. split; [|split].
      * rewrite Hk. apply fresh_key.
      * rewrite lookup_insert_eq. eauto.
      * intros j Hj. apply lookup_insert_ne. congruence.
    + rewrite Hex. discriminate.
    + intros [[e He]|[e He]]; [|congruence].
      exfalso. revert Hex. unfold Repository.news_exists, query, transaction.
      rewrite He. discriminate.
    + discriminate.
Qed.

End Facts.

Lemma news_exists_hash_or_url_witness :
  no_fault (tick db_with_first) = None
  /\ (Repository.news_exists (fun s => s) no_fault db_with_first mirrored_item).1 = Ok true.
Proof.
  split; [reflexivity|].
  refine (proj1 (proj2 (news_exists_hash_or_url (fun s => s) no_fault epoch
            db_with_first mirrored_item eq_refl) empty_db first_item 1 _) _ _);
    vm_compute; reflexivity.
Defined.

Lemma fingerprint_of_trimmed_text_witness :
  _generate_content_hash (fun s => s) (title mirrored_item) (content mirrored_item)
  = _generate_content_hash (fun s => s) (title first_item) (content first_item).
Proof.
  apply (proj1 (proj2 (fingerprint_of_trimmed_text (fun s => s))));
    vm_compute; reflexivity.
Defined.

Lemma update_news_status_frame_witness :
  (Repository.update_news_status no_fault db_with_first (Some 1) PROCESSED
     {| kw_rephrased_content := Some (Some (u "text"));
        kw_telegram_message_id := None |}).1 = true.
Proof.
  assert (H : is_Some (rows db_with_first !! 1)) by (vm_compute; eauto).
  destruct H as [r H].
  exact (proj1 (proj2 (proj2 (proj2
           (update_news_status_frame no_fault db_with_first (Some 1) PROCESSED
              {| kw_rephrased_content := Some (Some (u "text"));
                 kw_telegram_message_id := None |}))) 1 r eq_refl H eq_refl)).
Defined.

Lemma save_news_total_and_atomic_witness :
  (Repository.save_news (fun s => s) no_fault epoch db_with_first mirrored_item).1 = None.
Proof.
  destruct (save_news_total_and_atomic (fun s => s) no_fault epoch db_with_first
              mirrored_item) as (r & db' & E & _ & Hdup & _).
  rewrite E. apply Hdup. vm_compute. reflexivity.
Defined.

(** *** The lifecycle *)

Lemma lifecycle_le_refl a : lifecycle_le a a = true.
Proof. destruct a; reflexivity. Qed.

Lemma lifecycle_le_trans a b c :
  lifecycle_le a b = true -> lifecycle_le b c = true -> lifecycle_le a c = true.
Proof. destruct a, b, c; simpl; congruence. Qed.

Lemma lifecycle_step_le a b : lifecycle_step a b = true -> lifecycle_le a b = true.
Proof. destruct a, b; simpl; congruence. Qed.

Lemma evolves_refl d : wf d -> evolves d d.
Proof.
  intros H. repeat split; try assumption; try lia.
  - intros k r r' H1 H2. rewrite H1 in H2. injection H2 as <-. apply lifecycle_le_refl.
  - intros k H1 [r H2]. congruence.
Qed.

Lemma evolves_trans d1 d2 d3 : evolves d1 d2 -> evolves d2 d3 -> evolves d1 d3.
Proof.
  intros (W1 & W2 & S12 & L12 & N12) (_ & W3 & S23 & L23 & N23).
  repeat split; try assumption; try lia.
  - intros k r r3 H1 H3. destruct (rows d2 !! k) as [r2|] eqn:H2.
    + eapply lifecycle_le_trans; eauto.
    + assert (seq d2 < k) by (apply N23; eauto).
      assert (k <= seq d1) by (apply W1; eauto). lia.
  - intros k H1 H3. destruct (rows d2 !! k) as [r2|] eqn:H2.
    + apply N12; eauto.
    + assert (seq d2 < k) by (apply N23; eauto). lia.
Qed.

Lemma evolves_same d d' :
  wf d -> rows d' = rows d -> seq d' = seq d -> evolves d d'.
Proof.
  intros W Hr Hs.
  assert (W' : wf d') by (intros k Hk; rewrite Hr in Hk; rewrite Hs; auto).
  repeat split; try assumption; try lia.
  - intros k r r' H1 H2. rewrite Hr, H1 in H2. injection H2 as <-. apply lifecycle_le_refl.
  - intros k H1 [r H2]. rewrite Hr in H2. congruence.
Qed.

Lemma stored_status_same d d' news_id :
  rows d' = rows d -> stored_status d' news_id = stored_status d news_id.
Proof. intros H. destruct news_id; simpl; rewrite ?H; reflexivity. Qed.

Lemma batch_same from ids d d' : rows d' = rows d -> batch from ids d -> batch from ids d'.
Proof.
  intros H [Hn Hf]. split; [exact Hn|].
  eapply Forall_impl; [exact Hf|]. intros x Hx. simpl.
  rewrite (stored_status_same d d' x H). exact Hx.
Qed.

(** The rest of a batch is still a batch after a change to its head. *)
Lemma batch_tail from x ids d d' :
  batch from (x :: ids) d ->
  (forall y, y <> x -> stored_status d' y = stored_status d y) ->
  batch from ids d'.
Proof.
  intros [Hn Hf] Hframe. apply NoDup_cons in Hn as [Hx Hn].
  apply Forall_cons in Hf as [_ Hf]. split; [exact Hn|].
  apply Forall_forall. intros y Hy.
  rewrite Hframe; [exact (proj1 (Forall_forall _ _) Hf y Hy)|].
  intros ->. exact (Hx Hy).
Qed.

Section Lifecycle.
Variable sha256_hex : pystr -> pystr.
Variable fault : nat -> option exn.
Variable clock : nat -> Z.

Lemma save_news_evolves d news :
  wf d -> evolves d (save_news sha256_hex fault clock d news).2.
Proof.
  intros W. pose proof (save_news_cases sha256_hex fault clock d news) as H.
  destruct (save_news sha256_hex fault clock d news) as [res d'].
  destruct H as [(_ & Hr & Hs)|(k & _ & Hk & _ & _ & Hs & Hr)]; cbn [snd].
  - apply evolves_same; assumption.
  - pose proof (max_key_ge_default (seq d) (rows d)) as Hge.
    assert (W' : wf d').
    { intros j [r' Hj]. rewrite Hr in Hj. rewrite Hs.
      destruct (decide (k = j)) as [->|Hne]; [lia|].
      rewrite lookup_insert_ne in Hj by exact Hne.
      assert (j <= seq d) by (apply W; eauto). lia. }
    repeat split; try assumption; try lia.
    + intros j r r' H1 H2. rewrite Hr in H2.
      destruct (decide (k = j)) as [->|Hne].
      * pose proof (fresh_key (seq d) (rows d)) as Hf. rewrite <- Hk in Hf. congruence.
      * rewrite lookup_insert_ne in H2 by exact Hne. rewrite H1 in H2.
        injection H2 as <-. apply lifecycle_le_refl.
    + intros j H1 [r' H2]. rewrite Hr in H2.
      destruct (decide (k = j)) as [->|Hne]; [lia|].
      rewrite lookup_insert_ne in H2 by exact Hne. congruence.
Qed.

Lemma update_news_status_other d news_id st kw other :
  other <> news_id ->
  stored_status (update_news_status fault d news_id st kw).2 other = stored_status d other.
Proof.
  intros Hne. pose proof (update_news_status_rows fault d news_id st kw) as H.
  destruct (update_news_status fault d news_id st kw) as [ok d']. cbn [snd].
  destruct H as (_ & _ & [(_ & _ & Hr)|(_ & Hr & _)]).
  - apply stored_status_same, Hr.
  - destruct other as [j|]; [|reflexivity]. simpl. rewrite Hr.
    rewrite update_rows_lookup_ne by congruence. reflexivity.
Qed.

Lemma update_news_status_evolves d news_id st kw :
  wf d ->
  (forall a, stored_status d news_id = Some a -> lifecycle_step a st = true) ->
  evolves d (update_news_status fault d news_id st kw).2.
Proof.
  intros W Hstep. pose proof (update_news_status_rows fault d news_id st kw) as H.
  destruct (update_news_status fault d news_id st kw) as [ok d']. cbn [snd].
  destruct H as (Hs & _ & [(_ & _ & Hr)|(_ & Hr & _)]).
  { apply evolves_same; assumption. }
  assert (Hdom : forall k, is_Some (rows d' !! k) -> is_Some (rows d !! k)).
  { intros k [r' Hk]. rewrite Hr in Hk.
    destruct (decide (news_id = Some k)) as [->|Hne].
    - rewrite update_rows_lookup_eq in Hk. destruct (rows d !! k); [eauto|discriminate].
    - rewrite update_rows_lookup_ne in Hk by exact Hne. eauto. }
  repeat split; try assumption; try lia.
  - intros k Hk. rewrite Hs. apply W, Hdom, Hk.
  - intros k r r' H1 H2. rewrite Hr in H2.
    destruct (decide (news_id = Some k)) as [->|Hne].
    + rewrite update_rows_lookup_eq, H1 in H2. injection H2 as <-.
      destruct (apply_update_frame st kw r) as (_ & _ & _ & _ & _ & _ & _ & _ & Hst & _).
      rewrite Hst. apply lifecycle_step_le, Hstep. simpl. rewrite H1. reflexivity.
    + rewrite update_rows_lookup_ne, H1 in H2 by exact Hne.
      injection H2 as <-. apply lifecycle_le_refl.
  - intros k H1 H2. apply Hdom in H2 as [r H2]. congruence.
Qed.

Lemma cleanup_old_news_evolves d days :
  wf d -> evolves d (cleanup_old_news fault clock d days).2.
Proof.
  intros W. unfold cleanup_old_news, transaction.
  destruct (fault (tick d)); cbn [snd].
  { apply evolves_same; [assumption|reflexivity|reflexivity]. }
  assert (Hsub : forall k r, filter (fun kr : Z * Row =>
                                       expired (clock (tick d)) days kr.2 = false) (rows d)
                               !! k = Some r -> rows d !! k = Some r).
  { intros k r Hk. apply map_lookup_filter_Some in Hk. tauto. }
  repeat split; cbn [rows seq]; try assumption; try lia.
  - intros k [r Hk]. apply W. eauto.
  - intros k r r' H1 H2. apply Hsub in H2. rewrite H1 in H2. injection H2 as <-.
    apply lifecycle_le_refl.
  - intros k H1 [r H2]. apply Hsub in H2. congruence.
Qed.

Lemma get_news_by_status_evolves d st limit :
  wf d -> evolves d (get_news_by_status fault d st limit).2.
Proof.
  intros W. destruct (get_news_by_status_state fault d st limit) as (Hr & Hs & _).
  apply evolves_same; assumption.
Qed.

Lemma get_statistics_evolves d :
  wf d -> evolves d (get_statistics fault d).2.
Proof.
  intros W. destruct (get_statistics_state fault d) as (Hr & Hs & _).
  apply evolves_same; assumption.
Qed.

End Lifecycle.

(** The rows read for a stage form a batch. *)
Lemma select_by_status_batch st limit d :
  batch st (id <$> select_by_status st limit d) d.
Proof.
  unfold select_by_status.
  set (l := sql_limit limit
              (merge_sort created_le
                 (filter (fun kr : Z * Row => row_status kr.2 = st) (map_to_list (rows d))))).
  assert (Hnd : NoDup l.*1).
  { unfold l, sql_limit.
    assert (Hm : NoDup (merge_sort created_le
                          (filter (fun kr : Z * Row => row_status kr.2 = st)
                             (map_to_list (rows d)))).*1).
    { rewrite merge_sort_Permutation.
      eapply sublist_NoDup; [apply (NoDup_fst_map_to_list (rows d))|].
      apply fmap_sublist, sublist_filter. }
    destruct (limit <? 0); [exact Hm|].
    eapply sublist_NoDup; [exact Hm|]. apply fmap_sublist, sublist_take. }
  assert (Hin : forall kr, kr ∈ l -> rows d !! kr.1 = Some kr.2 /\ row_status kr.2 = st).
  { intros [k r] Hkr. unfold l, sql_limit in Hkr.
    assert (Hm : (k, r) ∈ merge_sort created_le
                   (filter (fun kr : Z * Row => row_status kr.2 = st)
                      (map_to_list (rows d)))).
    { destruct (limit <? 0); [exact Hkr|].
      eapply elem_of_sublist; [exact Hkr|apply sublist_take]. }
    rewrite merge_sort_Permutation in Hm. apply list_elem_of_filter in Hm as [Hst Hm].
    apply elem_of_map_to_list in Hm. auto. }
  assert (E : id <$> ((fun kr : Z * Row => _row_to_news_item kr.1 kr.2) <$> l)
              = Some <$> l.*1).
  { rewrite <- !list_fmap_compose. apply list_fmap_ext. intros _ [k r] _. reflexivity. }
  rewrite E. split.
  - apply (NoDup_fmap_2 Some), Hnd.
  - apply Forall_forall. intros x Hx.
    apply list_elem_of_fmap in Hx as (k & -> & Hk).
    apply list_elem_of_fmap in Hk as ([k' r] & -> & Hkr).
    destruct (Hin _ Hkr) as [Hl Hst]. simpl in *. rewrite Hl. simpl. congruence.
Qed.

(** Only rows with the requested status are read. *)
Lemma select_by_status_status st limit d news :
  news ∈ select_by_status st limit d ->
  status news = st /\ stored_status d (id news) = Some st.
Proof.
  intros Hin. split.
  - unfold select_by_status in Hin.
    apply list_elem_of_fmap in Hin as ([k r] & -> & Hkr). simpl.
    assert (Hm : (k, r) ∈ merge_sort created_le
                   (filter (fun kr : Z * Row => row_status kr.2 = st)
                      (map_to_list (rows d)))).
    { unfold sql_limit in Hkr. destruct (limit <? 0); [exact Hkr|].
      eapply elem_of_sublist; [exact Hkr|apply sublist_take]. }
    rewrite merge_sort_Permutation in Hm. apply list_elem_of_filter in Hm as [Hst _].
    exact Hst.
  - destruct (select_by_status_batch st limit d) as [_ Hf].
    apply (proj1 (Forall_forall _ _) Hf). apply list_elem_of_fmap. eauto.
Qed.

Lemma max_key_wf (d : Db) : wf d -> max_key (seq d) (rows d) = seq d.
Proof.
  intros W. unfold max_key.
  assert (H : Forall (fun k => k <= seq d) (List.map fst (map_to_list (rows d)))).
  { apply Forall_forall. intros k Hk. apply list_elem_of_In, in_map_iff in Hk.
    destruct Hk as ([k' r] & <- & Hk). apply list_elem_of_In, elem_of_map_to_list in Hk.
    apply W. eauto. }
  induction H as [|k l Hk _ IH]; simpl; lia.
Qed.

#[local] Instance created_le_total : Total created_le.
Proof.
  intros [k1 r1] [k2 r2]. unfold created_le. cbn [fst snd].
  destruct (row_created_date r1), (row_created_date r2); try tauto; lia.
Qed.

#[local] Instance created_le_trans : Transitive created_le.
Proof.
  intros [k1 r1] [k2 r2] [k3 r3]. unfold created_le. cbn [fst snd].
  destruct (row_created_date r1), (row_created_date r2), (row_created_date r3);
    try tauto; lia.
Qed.

Lemma created_le_date (a b : Z * Row) :
  created_le a b -> date_le (row_created_date a.2) (row_created_date b.2).
Proof.
  unfold created_le, date_le.
  destruct (row_created_date a.2), (row_created_date b.2); try tauto; lia.
Qed.

Lemma sorted_matching_sorted st d :
  StronglySorted created_le
    (merge_sort created_le
       (filter (fun kr : Z * Row => row_status kr.2 = st) (map_to_list (rows d)))).
Proof. apply StronglySorted_merge_sort; apply _. Qed.

Lemma sorted_matching_elem st d k r :
  (k, r) ∈ merge_sort created_le
             (filter (fun kr : Z * Row => row_status kr.2 = st) (map_to_list (rows d)))
  <-> rows d !! k = Some r /\ row_status r = st.
Proof.
  rewrite merge_sort_Permutation, list_elem_of_filter, elem_of_map_to_list. cbn. tauto.
Qed.

Lemma sorted_matching_length st d :
  (length (merge_sort created_le
             (filter (fun kr : Z * Row => row_status kr.2 = st) (map_to_list (rows d))))
   <= size (rows d))%nat.
Proof.
  rewrite merge_sort_Permutation. rewrite <- (length_map_to_list (rows d)).
  apply length_filter.
Qed.

Section Operations.
Variable sha256_hex : pystr -> pystr.
Variable fault : nat -> option exn.
Variable clock : nat -> Z.

Abbreviation save_news := (save_news sha256_hex fault clock).
Abbreviation update_news_status := (update_news_status fault).
Abbreviation cleanup_old_news := (cleanup_old_news fault clock).
Abbreviation get_news_by_status := (get_news_by_status fault).
Abbreviation get_statistics := (get_statistics fault).

(** X9: an item that [save_news] has stored under the key [k] is read
    back by [get_news_by_status] for its status, provided the limit is
    negative (no limit) or at least the size of the table: the item read
    carries the title, content, url, source, city, published date and
    status that were saved, the key as its id and the time of the insert
    as its created date, while its rephrased content and Telegram
    message id are empty whatever the saved item carried. *)
Theorem saved_item_is_read_back db news k db' limit :
  save_news db news = (Some k, db') ->
  limit < 0 \/ Z.of_nat (size (rows db')) <= limit ->
  stored_item news k (clock (S (tick db))) ∈ select_by_status (status news) limit db'
  /\ (fault (tick db') = None ->
      exists l, (get_news_by_status db' (status news) limit).1 = Ok l
                /\ stored_item news k (clock (S (tick db))) ∈ l).
Proof.
  intros Hs Hlimit.
  pose proof (save_news_cases sha256_hex fault clock db news) as Hc. rewrite Hs in Hc.
  destruct Hc as [(Hn & _)|(k' & Hk & _ & _ & _ & _ & Hrows)]; [discriminate|].
  injection Hk as <-.
  assert (Hin : stored_item news k (clock (S (tick db)))
                ∈ select_by_status (status news) limit db').
  { unfold select_by_status.
    set (s := merge_sort created_le _).
    assert (Hall : sql_limit limit s = s).
    { unfold sql_limit. destruct (Z.ltb_spec limit 0) as [|Hge]; [reflexivity|].
      apply take_ge.
      pose proof (sorted_matching_length (status news) db') as Hlen. fold s in Hlen.
      lia. }
    rewrite Hall.
    set (r := {| row_title := title news; row_content := content news;
                 row_url := url news; row_source := source news; row_city := city news;
                 original_hash := _generate_content_hash sha256_hex (title news) (content news);
                 row_rephrased_content := None;
                 row_published_date := published_date news;
                 row_created_date := Some (clock (S (tick db)));
                 row_status := status news; row_telegram_message_id := None |}) in *.
    apply (list_elem_of_fmap_2' _ _ (k, r)); [|reflexivity].
    apply sorted_matching_elem. split; [|reflexivity].
    rewrite Hrows. apply lookup_insert_eq. }
  split; [exact Hin|]. intros Hf.
  exists (select_by_status (status news) limit db'). split; [|exact Hin].
  apply query_ok, Hf.
Qed.


(** X10: on a table whose AUTOINCREMENT sequence bounds its keys, the id
    [save_news] returns is the sequence plus one, hence larger than every
    key of the table; the sequence then stands at that id, a cleanup
    leaves it there, and every id returned by a later save is larger: an
    id is never handed out twice, not even after its row was deleted. *)
Theorem saved_ids_are_new db news k db' :
  wf db ->
  save_news db news = (Some k, db') ->
  k = seq db + 1 /\ seq db' = k /\ wf db'
  /\ (forall j, is_Some (rows db !! j) -> j < k)
  /\ (forall days, seq (cleanup_old_news db' days).2 = k)
  /\ (forall later news1 k1 later',
         evolves db' later -> save_news later news1 = (Some k1, later') -> k < k1).
Proof.
  intros W Hs.
  pose proof (save_news_cases sha256_hex fault clock db news) as Hc. rewrite Hs in Hc.
  destruct Hc as [(Hn & _)|(k' & Hk & Hkey & _ & _ & Hseq & Hrows)]; [discriminate|].
  injection Hk as <-. rewrite (max_key_wf db W) in Hkey.
  pose proof (save_news_evolves sha256_hex fault clock db news W) as Hev.
  rewrite Hs in Hev. cbn [snd] in Hev. destruct Hev as (_ & W' & _).
  split; [lia|]. split; [exact Hseq|]. split; [exact W'|]. split; [|split].
  - intros j Hj. apply W in Hj. lia.
  - intros days. unfold Repository.cleanup_old_news, transaction.
    destruct (fault (tick db')); exact Hseq.
  - intros later news1 k1 later' (_ & Wl & Hle & _) Hs1.
    pose proof (save_news_cases sha256_hex fault clock later news1) as Hc. rewrite Hs1 in Hc.
    destruct Hc as [(Hn & _)|(k' & Hk & Hkey1 & _)]; [discriminate|].
    injection Hk as <-. rewrite (max_key_wf later Wl) in Hkey1. lia.
Qed.

(** X11: the list [get_news_by_status] returns holds at most [limit]
    items when the limit is not negative, and is ordered by created date,
    oldest first, rows without a date before all others; a stored row
    with the requested status is left out only when the limit is reached,
    and is then at least as recent as every item returned. *)
Theorem get_news_by_status_oldest_first db st limit l :
  (get_news_by_status db st limit).1 = Ok l ->
  (0 <= limit -> (length l <= Z.to_nat limit)%nat)
  /\ StronglySorted (fun a b => date_le (created_date a) (created_date b)) l
  /\ (forall k r,
         rows db !! k = Some r -> row_status r = st -> _row_to_news_item k r ∉ l ->
         0 <= limit /\ length l = Z.to_nat limit
         /\ Forall (fun a => date_le (created_date a) (row_created_date r)) l).
Proof.
  intros Hl. apply get_news_by_status_result in Hl. subst l.
  unfold select_by_status.
  pose proof (sorted_matching_sorted st db) as Hsorted.
  pose proof (sorted_matching_elem st db) as Helem.
  set (s := merge_sort created_le _) in *.
  split; [|split].
  - intros Hge. rewrite length_fmap. unfold sql_limit.
    destruct (Z.ltb_spec limit 0); [lia|]. rewrite length_take. lia.
  - apply StronglySorted_fmap with (R1 := created_le).
    + intros a b Hab. apply (created_le_date a b Hab).
    + unfold sql_limit. destruct (limit <? 0); [exact Hsorted|].
      rewrite <- (take_drop (Z.to_nat limit) s) in Hsorted.
      apply StronglySorted_app_1_l in Hsorted. exact Hsorted.
  - intros k r Hk Hst Hnot.
    assert (Hin : (k, r) ∈ s) by (apply Helem; auto).
    unfold sql_limit in *. destruct (Z.ltb_spec limit 0) as [Hneg|Hge].
    { exfalso. apply Hnot. apply (list_elem_of_fmap_2' _ _ (k, r)); [exact Hin|reflexivity]. }
    rewrite <- (take_drop (Z.to_nat limit) s) in Hin, Hsorted.
    apply elem_of_app in Hin as [Hin|Hin].
    { exfalso. apply Hnot. apply (list_elem_of_fmap_2' _ _ (k, r)); [exact Hin|reflexivity]. }
    split; [exact Hge|]. split.
    + rewrite length_fmap, length_take.
      assert (length (drop (Z.to_nat limit) s) <> 0)%nat.
      { intros E. apply nil_length_inv in E. rewrite E in Hin. inversion Hin. }
      rewrite length_drop in H. lia.
    + apply Forall_forall. intros a Ha.
      apply list_elem_of_fmap in Ha as (kr & -> & Hkr).
      apply (created_le_date kr (k, r)).
      eapply StronglySorted_app_1_elem_of; eassumption.
Qed.

(** X12: [update_news_status] returns True exactly when the connection
    works and a row with the given id exists; an id of None or an id
    that is not in the table gives False.  When it returns False the
    table is unchanged, and in every case the sequence and the set of
    keys are what they were: an update neither adds nor removes a row. *)
Theorem update_news_status_result db news_id st kw :
  ((update_news_status db news_id st kw).1 = true
   <-> fault (tick db) = None
       /\ exists k, news_id = Some k /\ is_Some (rows db !! k))
  /\ ((update_news_status db news_id st kw).1 = false ->
      rows (update_news_status db news_id st kw).2 = rows db)
  /\ seq (update_news_status db news_id st kw).2 = seq db
  /\ (forall k, is_Some (rows (update_news_status db news_id st kw).2 !! k)
                <-> is_Some (rows db !! k)).
Proof.
  pose proof (update_news_status_rows fault db news_id st kw) as H.
  destruct (Repository.update_news_status fault db news_id st kw) as [ok db']. cbn [fst snd].
  destruct H as (Hs & _ & [(Hf & -> & Hr)|(Hf & Hr & ->)]).
  - split; [|split; [|split]].
    + split; [discriminate|]. intros [Hn _]. contradiction.
    + intros _. exact Hr.
    + exact Hs.
    + intros k. rewrite Hr. reflexivity.
  - assert (Hcount : (0 <? rowcount news_id (rows db)) = true
                     <-> exists k, news_id = Some k /\ is_Some (rows db !! k)).
    { destruct news_id as [k|]; cbn [rowcount].
      - destruct (bool_decide (is_Some (rows db !! k))) eqn:E.
        + apply bool_decide_eq_true in E. split; [eauto|reflexivity].
        + apply bool_decide_eq_false in E. split; [discriminate|].
          intros (k' & [= <-] & Hk). contradiction.
      - split; [discriminate|]. intros (k & Hk & _). discriminate. }
    split; [|split; [|split]].
    + rewrite Hcount. tauto.
    + intros Hfalse. rewrite Hr. destruct news_id as [k|]; [|reflexivity].
      cbn [update_rows]. apply alter_id'.
      destruct (rows db !! k) eqn:E; [|reflexivity].
      exfalso. assert (Ht : (0 <? rowcount (Some k) (rows db)) = true)
        by (apply Hcount; eauto). congruence.
    + exact Hs.
    + intros k. rewrite Hr. destruct (decide (news_id = Some k)) as [->|Hne].
      * rewrite update_rows_lookup_eq. apply fmap_is_Some.
      * rewrite update_rows_lookup_ne by exact Hne. reflexivity.
Qed.

Lemma apply_update_idemp st kw r :
  apply_update st kw (apply_update st kw r) = apply_update st kw r.
Proof.
  destruct kw as [[c|] [m|]], r; reflexivity.
Qed.

Lemma update_rows_idemp news_id st kw (m : gmap Z Row) :
  update_rows news_id st kw (update_rows news_id st kw m) = update_rows news_id st kw m.
Proof.
  destruct news_id as [k|]; [|reflexivity]. cbn [update_rows].
  apply map_eq. intros j. destruct (decide (j = k)) as [->|Hne].
  - rewrite !lookup_alter_eq. destruct (m !! k); cbn; [|reflexivity].
    rewrite apply_update_idemp. reflexivity.
  - rewrite !lookup_alter_ne by congruence. reflexivity.
Qed.

(** X13: when the first of two identical calls of [update_news_status]
    finds a working connection, the second changes nothing more, whether
    its own connection works or not. *)
Theorem update_news_status_idempotent db news_id st kw :
  fault (tick db) = None ->
  let once := (update_news_status db news_id st kw).2 in
  rows (update_news_status once news_id st kw).2 = rows once.
Proof.
  intros Hf once.
  pose proof (update_news_status_rows fault db news_id st kw) as H1.
  pose proof (update_news_status_rows fault once news_id st kw) as H2.
  subst once.
  destruct (Repository.update_news_status fault db news_id st kw) as [ok1 db1].
  cbn [snd] in *.
  destruct (Repository.update_news_status fault db1 news_id st kw) as [ok2 db2].
  cbn [snd] in *.
  destruct H1 as (_ & _ & [(Hn & _)|(_ & Hr1 & _)]); [contradiction|].
  destruct H2 as (_ & _ & [(_ & _ & Hr2)|(_ & Hr2 & _)]); [exact Hr2|].
  rewrite Hr2, Hr1. apply update_rows_idemp.
Qed.





Lemma length_by_status (l : list (Z * Row)) :
  Z.of_nat (length l)
  = Z.of_nat (length (List.filter (fun kr : Z * Row => bool_decide (row_status kr.2 = PARSED)) l))
    + Z.of_nat (length (List.filter (fun kr : Z * Row => bool_decide (row_status kr.2 = PROCESSED)) l))
    + Z.of_nat (length (List.filter (fun kr : Z * Row => bool_decide (row_status kr.2 = SENT)) l))
    + Z.of_nat (length (List.filter (fun kr : Z * Row => bool_decide (row_status kr.2 = FAILED)) l)).
Proof.
  induction l as [|[k r] l IH]; [reflexivity|].
  cbn [List.filter snd].
  destruct (row_status r);
    repeat match goal with
           | |- context [bool_decide (?a = ?b)] =>
               let v := eval vm_compute in (bool_decide (a = b)) in
               change (bool_decide (a = b)) with v
           end;
    cbn [length]; lia.
Qed.

Lemma dict_get_by_status (c1 c2 c3 c4 : Z) (st : NewsStatus) :
  dict_get (status_value st)
    (List.filter (fun p : pystr * Z => 0 <? p.2)
       [(status_value PARSED, c1); (status_value PROCESSED, c2);
        (status_value SENT, c3); (status_value FAILED, c4)])
  = let c := match st with
             | PARSED => c1 | PROCESSED => c2 | SENT => c3 | FAILED => c4
             end in
    if 0 <? c then Some c else None.
Proof.
  cbn [List.filter snd]. destruct st; cbn zeta;
    destruct (0 <? c1), (0 <? c2), (0 <? c3), (0 <? c4); vm_compute; reflexivity.
Qed.

(** X15: in the statistics, total_news is the number of rows and equals
    the sum of the rows of the four statuses; by_status maps the value
    of a status to the number of rows stored with it when there is at
    least one, and has no entry for a status without rows.  Computing
    the statistics leaves the table as it is. *)
Theorem get_statistics_counts db s :
  (get_statistics db).1 = Ok s ->
  total_news s = Z.of_nat (size (rows db))
  /\ total_news s
     = count_status PARSED db + count_status PROCESSED db
       + count_status SENT db + count_status FAILED db
  /\ (forall st,
         dict_get (status_value st) (by_status s)
         = if 0 <? count_status st db then Some (count_status st db) else None)
  /\ rows (get_statistics db).2 = rows db.
Proof.
  intros Hs. apply query_result in Hs. subst s. cbn [total_news by_status].
  split; [reflexivity|]. split; [|split].
  - rewrite <- (length_map_to_list (rows db)). apply length_by_status.
  - intros st.
    destruct st;
      exact (dict_get_by_status (count_status PARSED db) (count_status PROCESSED db)
               (count_status SENT db) (count_status FAILED db) _).
  - apply (get_statistics_state fault db).
Qed.


Lemma news_exists_false db news :
  (news_exists sha256_hex fault db news).1 = Ok false ->
  ~ hash_duplicate sha256_hex db news /\ ~ url_duplicate db news.
Proof.
  intros H.
  assert (Hf : fault (tick db) = None).
  { unfold news_exists, query, transaction in H.
    destruct (fault (tick db)); [discriminate|reflexivity]. }
  destruct (news_exists_spec sha256_hex fault db news Hf) as (b & Hb & Hiff).
  rewrite Hb in H. injection H as ->.
  split; intros Hd; assert (false = true) by (apply Hiff; auto); discriminate.
Qed.

Lemma no_duplicates_same d d' : rows d' = rows d -> no_duplicates d -> no_duplicates d'.
Proof. intros E H k1 k2 r1 r2. rewrite E. apply H. Qed.

(** X16: a table in which no two rows share a fingerprint, or a url
    that is not empty, stays so through [save_news], [update_news_status]
    and [cleanup_old_news], whatever their arguments and whether the
    connections work or fail. *)
Theorem no_duplicates_preserved db :
  no_duplicates db ->
  (forall news, no_duplicates (save_news db news).2)
  /\ (forall news_id st kw, no_duplicates (update_news_status db news_id st kw).2)
  /\ (forall days, no_duplicates (cleanup_old_news db days).2).
Proof.
  intros Hnd. split; [|split].
  - intros news.
    pose proof (save_news_cases sha256_hex fault clock db news) as Hc.
    destruct (Repository.save_news sha256_hex fault clock db news) as [res db'].
    cbn [snd].
    destruct Hc as [(_ & Hr & _)|(k & _ & Hk & Hex & _ & _ & Hr)].
    { exact (no_duplicates_same db db' Hr Hnd). }
    apply news_exists_false in Hex as [Hh Hu].
    pose proof (fresh_key (seq db) (rows db)) as Hfresh. rewrite <- Hk in Hfresh.
    intros k1 k2 r1 r2 H1 H2 Hsame. rewrite Hr in H1, H2.
    destruct (decide (k = k1)) as [<-|N1], (decide (k = k2)) as [<-|N2];
      [reflexivity| | |].
    + exfalso. rewrite lookup_insert_eq in H1. injection H1 as <-.
      rewrite lookup_insert_ne in H2 by exact N2. cbn in Hsame.
      destruct Hsame as [E|[E Hne]].
      * apply Hh. exists k2, r2. split; [exact H2|]. symmetry. exact E.
      * apply Hu. split; [exact Hne|]. exists k2, r2. split; [exact H2|]. symmetry. exact E.
    + exfalso. rewrite lookup_insert_eq in H2. injection H2 as <-.
      rewrite lookup_insert_ne in H1 by exact N1. cbn in Hsame.
      destruct Hsame as [E|[E Hne]].
      * apply Hh. exists k1, r1. split; [exact H1|]. exact E.
      * apply Hu. split; [congruence|]. exists k1, r1. split; [exact H1|]. exact E.
    + rewrite lookup_insert_ne in H1 by exact N1.
      rewrite lookup_insert_ne in H2 by exact N2. exact (Hnd k1 k2 r1 r2 H1 H2 Hsame).
  - intros news_id st kw.
    pose proof (update_news_status_rows fault db news_id st kw) as H.
    destruct (Repository.update_news_status fault db news_id st kw) as [ok db'].
    cbn [snd].
    destruct H as (_ & _ & [(_ & _ & Hr)|(_ & Hr & _)]).
    { exact (no_duplicates_same db db' Hr Hnd). }
    assert (Hrow : forall k r', rows db' !! k = Some r' ->
               exists r, rows db !! k = Some r
                         /\ original_hash r' = original_hash r /\ row_url r' = row_url r).
    { intros k r' Hk. rewrite Hr in Hk.
      destruct (decide (news_id = Some k)) as [->|Hne].
      - rewrite update_rows_lookup_eq in Hk.
        destruct (rows db !! k) as [r|]; [|discriminate]. injection Hk as <-.
        exists r. split; [reflexivity|].
        destruct (apply_update_frame st kw r) as (_ & _ & Hu & _ & _ & _ & _ & Hh & _).
        split; assumption.
      - rewrite update_rows_lookup_ne in Hk by exact Hne. exists r'. auto. }
    intros k1 k2 r1' r2' H1 H2 Hsame.
    destruct (Hrow _ _ H1) as (r1 & L1 & Eh1 & Eu1).
    destruct (Hrow _ _ H2) as (r2 & L2 & Eh2 & Eu2).
    apply (Hnd k1 k2 r1 r2 L1 L2). rewrite <- Eh1, <- Eh2, <- Eu1, <- Eu2. exact Hsame.
  - intros days k1 k2 r1 r2 H1 H2.
    assert (Hsub : forall k r, rows (cleanup_old_news db days).2 !! k = Some r ->
                               rows db !! k = Some r).
    { unfold Repository.cleanup_old_news, transaction.
      destruct (fault (tick db)); cbn [snd rows]; [auto|].
      intros k r Hk. apply map_lookup_filter_Some in Hk. tauto. }
    apply Hnd; apply Hsub; assumption.
Qed.

End Operations.

Lemma wf_empty_db : wf empty_db.
Proof. intros k [r Hk]. unfold empty_db in Hk. cbn [rows] in Hk. rewrite lookup_empty in Hk. discriminate. Qed.

Lemma saved_item_is_read_back_witness :
  stored_item first_item 1 0 ∈ select_by_status PARSED (-1) db_with_first.
Proof.
  refine (proj1 (saved_item_is_read_back (fun s => s) no_fault epoch empty_db first_item 1
                   db_with_first (-1) _ _)).
  - vm_compute. reflexivity.
  - left. lia.
Defined.

Lemma saved_ids_are_new_witness :
  wf empty_db /\ 1 = seq empty_db + 1 /\ seq db_with_first = 1.
Proof.
  split; [exact wf_empty_db|].
  destruct (saved_ids_are_new (fun s => s) no_fault epoch empty_db first_item 1 db_with_first
              wf_empty_db) as (H1 & H2 & _).
  - vm_compute. reflexivity.
  - split; assumption.
Defined.

Lemma get_news_by_status_oldest_first_witness :
  StronglySorted (fun a b => date_le (created_date a) (created_date b))
    (select_by_status PARSED 10 db_with_first).
Proof.
  refine (proj1 (proj2 (get_news_by_status_oldest_first no_fault db_with_first PARSED 10
                          (select_by_status PARSED 10 db_with_first) _))).
  reflexivity.
Defined.

Lemma update_news_status_idempotent_witness :
  no_fault (tick db_with_first) = None
  /\ rows (Repository.update_news_status no_fault
             (Repository.update_news_status no_fault db_with_first (Some 1) FAILED no_kwargs).2
             (Some 1) FAILED no_kwargs).2
     = rows (Repository.update_news_status no_fault db_with_first (Some 1) FAILED no_kwargs).2.
Proof.
  split; [reflexivity|].
  apply (update_news_status_idempotent no_fault db_with_first (Some 1) FAILED no_kwargs).
  reflexivity.
Defined.

Lemma get_statistics_counts_witness :
  total_news stats_with_first = Z.of_nat (size (rows db_with_first)).
Proof.
  refine (proj1 (get_statistics_counts no_fault db_with_first stats_with_first _)).
  vm_compute. reflexivity.
Defined.

Lemma no_duplicates_preserved_witness : no_duplicates db_with_first.
Proof.
  refine (proj1 (no_duplicates_preserved (fun s => s) no_fault epoch empty_db _) first_item).
  intros k1 k2 r1 r2 H1. unfold empty_db in H1. cbn [rows] in H1.
  rewrite lookup_empty in H1. discriminate.
Defined.

End RepositoryFacts.

(** ** The orchestrator *)

Module BotFacts.
Import Repository RepositoryFacts Bot.

Section Facts.
Variable sha256_hex : pystr -> pystr.
Variable fault : nat -> option exn.
Variable clock : nat -> Z.
Variable config : Config.

Abbreviation check_health := (check_health fault).
Abbreviation run_full_cycle := (run_full_cycle sha256_hex fault clock config).
Abbreviation run_cycles := (run_cycles sha256_hex fault clock config).

(** *** The health gate *)

Lemma check_health_spec env w :
  let d1 := (get_statistics fault (db w)).2 in
  let database := is_ok (get_statistics fault (db w)).1 in
  let content_processor := answer (content_processor_is_available env) in
  let notification_service := answer (notification_service_is_available env) in
  check_health env w
  = ([(u "database", database); (u "content_processor", content_processor);
      (u "notification_service", notification_service);
      (u "overall", database && (content_processor && (notification_service && true)))],
     {| db := d1;
        trace := ((trace w ++ [(GetStatistics, db w)])
                    ++ [(IsAvailable (u "content_processor"), d1)])
                   ++ [(IsAvailable (u "notification_service"), d1)] |}).
Proof.
  unfold Bot.check_health, _check_database_health, _check_availability, bindM, repo, ext, ret.
  destruct (get_statistics fault (db w)) as [r d1]. reflexivity.
Qed.

Lemma overall_of_health env w :
  dict_get (u "overall") (check_health env w).1
  = Some (is_ok (get_statistics fault (db w)).1
          && (answer (content_processor_is_available env)
              && (answer (notification_service_is_available env) && true))).
Proof. rewrite check_health_spec. reflexivity. Qed.

(** C2: when the health checker reports an overall health of false, the
    cycle returns success=false, processed_count 0, failed_count 0 and the
    single error message of the health check; the table is as it was, and
    the calls of the cycle are the three health probes and the publication
    of the error: nothing is parsed, saved, read for a stage, transformed,
    updated, sent or cleaned up. *)
Theorem unhealthy_cycle_aborts env w :
  dict_get (u "overall") (check_health env w).1 = Some false ->
  let res := (run_full_cycle env w).1 in
  let w' := (run_full_cycle env w).2 in
  success res = false /\ processed_count res = 0 /\ failed_count res = 0
  /\ errors res = [u "Health check failed, skipping cycle"]
  /\ rows (db w') = rows (db w) /\ seq (db w') = seq (db w)
  /\ (exists d1,
        trace w' = trace w ++ [(GetStatistics, db w);
                               (IsAvailable (u "content_processor"), d1);
                               (IsAvailable (u "notification_service"), d1);
                               (Publish (u "error.occurred"), d1)])
  /\ (exists calls, trace w' = trace w ++ calls
                    /\ forallb (fun cd => negb (is_pipeline_work cd.1)) calls = true).
Proof.
  intros Hov res w'. subst res w'.
  pose proof (check_health_spec env w) as Eh. cbv zeta in Eh.
  rewrite Eh in Hov. cbn [fst] in Hov.
  assert (E : run_full_cycle env w
              = ({| success := false; processed_count := 0; failed_count := 0;
                    errors := [health_error_msg];
                    duration := end_time env - start_time env |},
                 {| db := (get_statistics fault (db w)).2;
                    trace := (((trace w ++ [(GetStatistics, db w)])
                                ++ [(IsAvailable (u "content_processor"),
                                     (get_statistics fault (db w)).2)])
                               ++ [(IsAvailable (u "notification_service"),
                                    (get_statistics fault (db w)).2)])
                              ++ [(Publish (u "error.occurred"),
                                   (get_statistics fault (db w)).2)] |})).
  { unfold Bot.run_full_cycle. unfold bindM at 1. rewrite Eh. cbv beta iota.
    rewrite Hov. reflexivity. }
  rewrite E. cbn [fst snd db trace success processed_count failed_count errors].
  destruct (get_statistics_state fault (db w)) as (Hr & Hs & _).
  repeat split; try assumption.
  - eexists. rewrite <- !app_assoc. reflexivity.
  - eexists. split; [rewrite <- !app_assoc; reflexivity|reflexivity].
Qed.

(** *** Rules for the invariant *)

Variable d0 : Db.
Abbreviation Inv := (Inv d0).
Abbreviation holding := (holding d0).

Lemma Inv_extend c w d' :
  Inv w -> event_ok c (db w) -> evolves (db w) d' ->
  Inv {| db := d'; trace := trace w ++ [(c, db w)] |}.
Proof.
  intros (Hh & W & Hev & Hs & Hf) Hc He. unfold Bot.Inv, history in *. cbn [db trace].
  rewrite map_app. cbn [List.map snd].
  split.
  { rewrite <- app_assoc. destruct (List.map snd (trace w)); exact Hh. }
  split; [exact (proj1 (proj2 He))|]. split; [|split].
  - apply Forall_app. split; [exact Hev|]. constructor; [exact Hc|constructor].
  - apply StronglySorted_app_2; [|exact Hs|repeat constructor].
    intros x1 x2 H1 H2. apply list_elem_of_singleton in H2 as ->.
    exact (proj1 (Forall_forall _ _) Hf x1 H1).
  - apply Forall_app. split; [|constructor; [exact He|constructor]].
    eapply Forall_impl; [exact Hf|]. intros x Hx. simpl in *.
    exact (evolves_trans _ _ _ Hx He).
Qed.

Lemma hoare_bind {A B} (P : World -> Prop) (m : M A) (Q : A -> World -> Prop)
    (k : A -> M B) (R : B -> World -> Prop) :
  hoare P m Q -> (forall a, hoare (Q a) (k a) R) -> hoare P (bindM m k) R.
Proof.
  intros Hm Hk w Hw. unfold bindM. specialize (Hm w Hw).
  destruct (m w) as [a w1]. apply Hk, Hm.
Qed.

Lemma hoare_ret {A} (P : World -> Prop) (a : A) : hoare P (ret a) (fun _ => P).
Proof. intros w Hw. exact Hw. Qed.

Lemma hoare_weaken {A} (P P' : World -> Prop) (m : M A) (Q Q' : A -> World -> Prop) :
  hoare P' m Q' -> (forall w, P w -> P' w) -> (forall a w, Q' a w -> Q a w) ->
  hoare P m Q.
Proof. intros H HP HQ w Hw. apply HQ, H, HP, Hw. Qed.

Lemma hoare_ext c (B : Db -> Prop) :
  (forall d, B d -> event_ok c d) ->
  hoare (holding B) (ext c) (fun _ => holding B).
Proof.
  intros Hc w [HI HB]. unfold ext. cbn [fst snd]. split; [|exact HB].
  apply Inv_extend; [exact HI|apply Hc, HB|apply evolves_refl, HI].
Qed.

Lemma hoare_repo {A} c (op : Db -> A * Db) (B : Db -> Prop) (B' : A -> Db -> Prop) :
  (forall d, wf d -> B d -> event_ok c d /\ evolves d (op d).2 /\ B' (op d).1 (op d).2) ->
  hoare (holding B) (repo c op) (fun a => holding (B' a)).
Proof.
  intros Hop w [HI HB]. unfold repo.
  destruct (Hop (db w) (proj1 (proj2 HI)) HB) as (Hc & He & HB').
  destruct (op (db w)) as [a d']. cbn [fst snd] in *. split; [|exact HB'].
  apply Inv_extend; assumption.
Qed.

Lemma hoare_for_each {X A} (P : list X -> World -> Prop) (body : X -> A -> M A) :
  (forall x rest acc, hoare (P (x :: rest)) (body x acc) (fun _ => P rest)) ->
  forall xs acc, hoare (P xs) (for_each xs body acc) (fun _ => P []).
Proof.
  intros Hbody xs. induction xs as [|x rest IH]; intros acc.
  - apply hoare_ret.
  - cbn [for_each]. eapply hoare_bind; [apply Hbody|]. intros acc'. apply IH.
Qed.

(** *** The stages *)

Lemma check_health_inv env :
  hoare (holding any_db) (check_health env) (fun _ => holding any_db).
Proof.
  unfold Bot.check_health, _check_database_health, _check_availability.
  eapply hoare_bind.
  { eapply hoare_bind.
    - apply (hoare_repo GetStatistics (get_statistics fault) any_db (fun _ => any_db)).
      intros d W _. split; [exact I|]. split; [apply get_statistics_evolves, W|exact I].
    - intros r. apply hoare_ret. }
  intros database. eapply hoare_bind.
  { eapply hoare_bind; [apply hoare_ext; intros; exact I|]. intros ?. apply hoare_ret. }
  intros cp. eapply hoare_bind.
  { eapply hoare_bind; [apply hoare_ext; intros; exact I|]. intros ?. apply hoare_ret. }
  intros ns. apply hoare_ret.
Qed.

Lemma parse_and_save_inv env :
  hoare (holding any_db) (_parse_and_save_news sha256_hex fault clock env)
    (fun _ => holding any_db).
Proof.
  unfold _parse_and_save_news.
  eapply hoare_bind; [apply hoare_ext; intros; exact I|]. intros ?.
  destruct (parse_all_sources env) as [[|news news_items]|e]; try apply hoare_ret.
  apply (hoare_for_each (fun _ => holding any_db)).
  intros x rest acc. eapply hoare_bind.
  - apply (hoare_repo (SaveNews x) _ any_db (fun _ => any_db)).
    intros d W _. split; [exact I|]. split; [apply save_news_evolves, W|exact I].
  - intros news_id. destruct (truthy_id news_id); [|apply hoare_ret].
    eapply hoare_bind; [apply hoare_ext; intros; exact I|]. intros ?. apply hoare_ret.
Qed.

Lemma update_rule news_id rest from st kw :
  lifecycle_step from st = true ->
  hoare (holding (batch from (news_id :: rest)))
    (repo (UpdateNewsStatus news_id st kw)
       (fun d => update_news_status fault d news_id st kw))
    (fun _ => holding (batch from rest)).
Proof.
  intros Hstep.
  apply (hoare_repo _ _ (batch from (news_id :: rest)) (fun _ => batch from rest)).
  intros d W HB.
  assert (Hhead : stored_status d news_id = Some from).
  { destruct HB as [_ HB]. apply Forall_cons in HB as [HB _]. exact HB. }
  split; [|split].
  - simpl. intros a Ha. rewrite Hhead in Ha. injection Ha as <-. exact Hstep.
  - apply update_news_status_evolves; [exact W|].
    intros a Ha. rewrite Hhead in Ha. injection Ha as <-. exact Hstep.
  - eapply batch_tail; [exact HB|]. intros y Hy. apply update_news_status_other, Hy.
Qed.

Lemma process_content_inv env :
  hoare (holding any_db) (_process_news_content fault config env) (fun _ => holding any_db).
Proof.
  unfold _process_news_content. eapply hoare_bind.
  { apply (hoare_repo _ _ any_db
             (fun r d => match r with
                         | Ok l => batch PARSED (id <$> l) d
                         | Raise _ => True
                         end)).
    intros d W _. split; [exact I|]. split; [apply get_news_by_status_evolves, W|].
    destruct (get_news_by_status fault d PARSED (max_news_per_run config)) as [r d'] eqn:E.
    cbn [fst snd]. destruct r as [l|e]; [|exact I].
    pose proof (get_news_by_status_result fault d PARSED (max_news_per_run config) l) as Hl.
    pose proof (get_news_by_status_state fault d PARSED (max_news_per_run config)) as (Hr & _).
    rewrite E in Hl, Hr. cbn [fst snd] in Hl, Hr. rewrite (Hl eq_refl).
    eapply batch_same; [exact Hr|apply select_by_status_batch]. }
  intros r. destruct r as [[|news unprocessed_news]|e];
    try (eapply hoare_weaken; [apply (hoare_ret (holding any_db))| |];
         [intros w [HI _]; split; [exact HI|exact I]|auto]).
  eapply hoare_weaken;
    [apply (hoare_for_each (fun l => holding (batch PARSED (id <$> l))))
    |intros w Hw; exact Hw
    |intros a w [HI _]; split; [exact HI|exact I]].
  intros x rest acc. rewrite fmap_cons.
  eapply hoare_bind.
  { apply hoare_ext. intros d [_ HB]. apply Forall_cons in HB as [HB _]. exact HB. }
  intros ?.
  destruct (process_content env x) as [rephrased|e].
  - destruct (truthy_opt rephrased).
    + eapply hoare_bind; [apply update_rule; reflexivity|]. intros ok.
      eapply hoare_bind.
      { destruct ok; [|apply hoare_ret].
        eapply hoare_bind; [apply hoare_ext; intros; exact I|]. intros ?. apply hoare_ret. }
      intros n. eapply hoare_bind; [apply hoare_ext; intros; exact I|].
      intros ?. apply hoare_ret.
    + eapply hoare_bind; [apply update_rule; reflexivity|]. intros ?. apply hoare_ret.
  - eapply hoare_bind; [apply update_rule; reflexivity|]. intros ?. apply hoare_ret.
Qed.

Lemma batch_sublist from ids ids' d :
  ids' `sublist_of` ids -> batch from ids d -> batch from ids' d.
Proof.
  intros Hsub [Hn Hf]. split; [eapply sublist_NoDup; eassumption|].
  apply Forall_forall. intros x Hx.
  apply (proj1 (Forall_forall _ _) Hf x). eapply elem_of_sublist; eassumption.
Qed.

Lemma to_send_ids ready_news :
  ((fun nc : NewsItem * pystr => id nc.1) <$> to_send ready_news)
    `sublist_of` (id <$> ready_news).
Proof.
  unfold to_send, omap. induction ready_news as [|news l IH]; simpl; [constructor|].
  destruct (rephrased_content news) as [c|]; [|apply sublist_cons, IH].
  destruct (truthy c); [apply sublist_skip, IH|apply sublist_cons, IH].
Qed.

Lemma results_ids send news_items :
  (fun res : option Z * option Z * bool => res.1.1)
    <$> Notification.send_multiple_news send news_items
  = (fun nc : NewsItem * pystr => id nc.1) <$> news_items.
Proof.
  unfold Notification.send_multiple_news.
  induction news_items as [|nc l IH]; simpl; [reflexivity|]. f_equal. exact IH.
Qed.

Lemma send_notifications_inv env :
  hoare (holding any_db) (_send_notifications fault env) (fun _ => holding any_db).
Proof.
  assert (Hdrop : forall (B : Db -> Prop) (z : Z),
             hoare (holding B) (ret z) (fun _ => holding any_db)).
  { intros B z w [HI _]. split; [exact HI|exact I]. }
  unfold _send_notifications. eapply hoare_bind.
  { apply (hoare_repo _ _ any_db
             (fun r d => match r with
                         | Ok l => batch PROCESSED (id <$> l) d
                         | Raise _ => True
                         end)).
    intros d W _. split; [exact I|]. split; [apply get_news_by_status_evolves, W|].
    destruct (get_news_by_status fault d PROCESSED 5) as [r d'] eqn:E.
    cbn [fst snd]. destruct r as [l|e]; [|exact I].
    pose proof (get_news_by_status_result fault d PROCESSED 5 l) as Hl.
    pose proof (get_news_by_status_state fault d PROCESSED 5) as (Hr & _).
    rewrite E in Hl, Hr. cbn [fst snd] in Hl, Hr. rewrite (Hl eq_refl).
    eapply batch_same; [exact Hr|apply select_by_status_batch]. }
  intros r. destruct r as [[|news ready_news]|e]; try apply Hdrop.
  set (ready := news :: ready_news).
  destruct (to_send ready) as [|nc news_to_send] eqn:Es; [apply Hdrop|].
  set (items := nc :: news_to_send) in *.
  eapply hoare_weaken with
    (P' := holding (batch PROCESSED
                      ((fun nc : NewsItem * pystr => id nc.1) <$> items)))
    (Q' := fun _ => holding (batch PROCESSED []));
    [|intros w [HI HB]; split; [exact HI|];
      eapply batch_sublist; [|exact HB]; rewrite <- Es; apply to_send_ids
     |intros a w [HI _]; split; [exact HI|exact I]].
  eapply hoare_bind.
  { apply hoare_ext. intros d [_ HB]. simpl. apply Forall_fmap in HB. exact HB. }
  intros ?. rewrite <- (results_ids (send_news env) items).
  eapply hoare_weaken;
    [apply (hoare_for_each
              (fun l => holding (batch PROCESSED
                                   ((fun res : option Z * option Z * bool => res.1.1) <$> l))))
    |intros w Hw; exact Hw
    |intros z w Hw; exact Hw].
  intros [[news_id message_id] ok] rest acc. rewrite fmap_cons. cbn [fst].
  destruct ok.
  - eapply hoare_bind; [apply update_rule; reflexivity|]. intros ?.
    eapply hoare_bind.
    { destruct (existsb _ _); [apply hoare_ext; intros; exact I|apply hoare_ret]. }
    intros ?. apply hoare_ret.
  - eapply hoare_bind; [apply update_rule; reflexivity|]. intros ?. apply hoare_ret.
Qed.

Lemma run_full_cycle_inv env :
  hoare (holding any_db) (run_full_cycle env) (fun _ => holding any_db).
Proof.
  unfold Bot.run_full_cycle.
  eapply hoare_bind; [apply check_health_inv|]. intros health_status.
  destruct (negb _).
  { eapply hoare_bind; [apply hoare_ext; intros; exact I|]. intros ?. apply hoare_ret. }
  eapply hoare_bind; [apply parse_and_save_inv|]. intros parsed_count.
  eapply hoare_bind; [apply process_content_inv|]. intros processed.
  eapply hoare_bind; [apply send_notifications_inv|]. intros sent_count.
  eapply hoare_bind.
  { destruct (current_hour env =? cleanup_hour config); [|apply hoare_ret].
    apply (hoare_repo (CleanupOldNews 7) _ any_db (fun _ => any_db)).
    intros d W _. split; [exact I|]. split; [apply cleanup_old_news_evolves, W|exact I]. }
  intros ?. eapply hoare_bind.
  { apply (hoare_repo GetStatistics (get_statistics fault) any_db (fun _ => any_db)).
    intros d W _. split; [exact I|]. split; [apply get_statistics_evolves, W|exact I]. }
  intros stats. destruct stats.
  - eapply hoare_bind; [apply hoare_ext; intros; exact I|]. intros ?. apply hoare_ret.
  - eapply hoare_bind; [apply hoare_ext; intros; exact I|]. intros ?. apply hoare_ret.
Qed.

Lemma run_cycles_inv envs :
  hoare (holding any_db) (run_cycles envs) (fun _ => holding any_db).
Proof.
  induction envs as [|env envs IH]; cbn [Bot.run_cycles]; [apply hoare_ret|].
  eapply hoare_bind; [apply run_full_cycle_inv|]. intros res.
  eapply hoare_bind; [apply IH|]. intros rest. apply hoare_ret.
Qed.

(** *** The lifecycle over any number of cycles *)

Lemma sorted_lookup {A} (R : relation A) (l : list A) (i j : nat) (x y : A) :
  StronglySorted R l -> (i < j)%nat -> l !! i = Some x -> l !! j = Some y -> R x y.
Proof.
  intros Hs. revert i j. induction Hs as [|a l Hs IH Hf]; intros i j Hij Hi Hj.
  - discriminate.
  - destruct i as [|i], j as [|j]; try lia; simpl in Hi, Hj.
    + injection Hi as <-. apply (proj1 (Forall_forall _ _) Hf).
      apply list_elem_of_lookup. eauto.
    + apply (IH i j); [lia|assumption|assumption].
Qed.

Lemma Inv_history w : Inv w -> StronglySorted evolves (history w).
Proof.
  intros (_ & W & _ & Hs & Hf). unfold history.
  apply StronglySorted_app_2; [|exact Hs|repeat constructor].
  intros x1 x2 H1 H2. apply list_elem_of_singleton in H2 as ->.
  exact (proj1 (Forall_forall _ _) Hf x1 H1).
Qed.

Lemma history_of_trace w (j : nat) c d :
  trace w !! j = Some (c, d) -> history w !! j = Some d.
Proof.
  intros H. unfold history. rewrite lookup_app_l.
  - change (List.map snd (trace w)) with (snd <$> trace w).
    rewrite list_lookup_fmap, H. reflexivity.
  - rewrite length_map. eapply lookup_lt_Some, H.
Qed.

Lemma Inv_no_regress w (i j : nat) d d' k r r' :
  Inv w -> (i <= j)%nat ->
  history w !! i = Some d -> history w !! j = Some d' ->
  rows d !! k = Some r -> rows d' !! k = Some r' ->
  lifecycle_le (row_status r) (row_status r') = true.
Proof.
  intros HI Hij Hi Hj Hr Hr'.
  destruct (decide (i = j)) as [->|Hne].
  - rewrite Hi in Hj. injection Hj as <-. rewrite Hr in Hr'. injection Hr' as <-.
    apply lifecycle_le_refl.
  - assert (He : evolves d d').
    { eapply (sorted_lookup evolves (history w) i j);
        [apply Inv_history, HI|lia|eassumption|eassumption]. }
    destruct He as (_ & _ & _ & Hle & _). eapply Hle; eassumption.
Qed.

(** C1: over any number of cycles run from a database whose key sequence
    bounds its keys, and whatever the outside world answers: between two
    moments of the run no stored row has a status that is earlier in the
    lifecycle at the later moment; content processing is only called on
    an item stored as parsed, delivery only on items stored as processed,
    and a status is only updated along one step of the lifecycle; an item
    stored as failed at some moment is selected by no later call of
    content processing or delivery; and reading by status returns rows of
    that status only. *)
Theorem status_never_regresses (envs : list Env) :
  wf d0 ->
  let w := (run_cycles envs {| db := d0; trace := [] |}).2 in
  head (history w) = Some d0
  /\ (forall (i j : nat) d d' k r r',
        (i <= j)%nat -> history w !! i = Some d -> history w !! j = Some d' ->
        rows d !! k = Some r -> rows d' !! k = Some r' ->
        lifecycle_le (row_status r) (row_status r') = true)
  /\ (forall c d, (c, d) ∈ trace w -> event_ok c d)
  /\ (forall (i j : nat) d c d' k r,
        (i <= j)%nat -> history w !! i = Some d -> trace w !! j = Some (c, d') ->
        rows d !! k = Some r -> row_status r = FAILED -> ~ selects c (Some k))
  /\ (forall st limit d news,
        news ∈ select_by_status st limit d -> status news = st).
Proof.
  intros W w.
  assert (HI : Inv w).
  { apply (run_cycles_inv envs {| db := d0; trace := [] |}).
    split; [|exact I]. unfold Bot.Inv, history. cbn [db trace List.map app].
    repeat split; try assumption; constructor. }
  assert (Hev : forall c d, (c, d) ∈ trace w -> event_ok c d).
  { intros c d Hin. destruct HI as (_ & _ & Hf & _).
    exact (proj1 (Forall_forall _ _) Hf (c, d) Hin). }
  split; [exact (proj1 HI)|]. split; [|split; [exact Hev|split]].
  - intros i j d d' k r r'. apply Inv_no_regress, HI.
  - intros i j d c d' k r Hij Hi Hj Hr Hfailed Hsel.
    assert (Hok : event_ok c d').
    { apply Hev. apply list_elem_of_lookup. eauto. }
    assert (Hst : exists a, stored_status d' (Some k) = Some a
                            /\ (a = PARSED \/ a = PROCESSED)).
    { destruct c; simpl in Hsel, Hok; try contradiction.
      - rewrite Hsel in Hok. eauto.
      - apply in_map_iff in Hsel as (nc & Hid & Hnc).
        apply list_elem_of_In in Hnc.
        pose proof (proj1 (Forall_forall _ _) Hok nc Hnc) as Hp. simpl in Hp.
        rewrite Hid in Hp. eauto. }
    destruct Hst as (a & Ha & Hcase). simpl in Ha.
    destruct (rows d' !! k) as [r'|] eqn:Hr'; [|discriminate].
    simpl in Ha. injection Ha as <-.
    pose proof (Inv_no_regress w i j d d' k r r' HI Hij Hi
                  (history_of_trace w j c d' Hj) Hr Hr') as Hle.
    rewrite Hfailed in Hle. destruct Hcase as [E|E]; rewrite E in Hle; discriminate.
  - intros st limit d news Hin. apply (select_by_status_status st limit d news Hin).
Qed.

End Facts.

Lemma status_never_regresses_witness :
  wf empty_db
  /\ head (history two_cycles.2) = Some empty_db
  /\ row_status <$> rows (db two_cycles.2) !! 1 = Some FAILED
  /\ row_status <$> rows (db two_cycles.2) !! 2 = Some SENT.
Proof.
  assert (W : wf empty_db).
  { intros k [r H]. unfold empty_db in H. cbn [rows] in H.
    rewrite lookup_empty in H. discriminate. }
  split; [exact W|].
  pose proof (status_never_regresses (fun s => s) no_fault epoch default_config empty_db
                [transformer_returns_nothing; all_goes_well] W) as (Hh & _).
  split; [unfold two_cycles, fresh_world; exact Hh|]. split; vm_compute; reflexivity.
Defined.

Lemma unhealthy_cycle_aborts_witness :
  dict_get (u "overall") (Bot.check_health no_fault transformer_down fresh_world).1 = Some false
  /\ (Bot.run_full_cycle (fun s => s) no_fault epoch default_config transformer_down
        fresh_world).1
     = {| success := false; processed_count := 0; failed_count := 0;
          errors := [u "Health check failed, skipping cycle"];
          duration := 1 - 0 |}
  /\ rows (db (Bot.run_full_cycle (fun s => s) no_fault epoch default_config transformer_down
                 fresh_world).2) = ∅.
Proof.
  assert (H : dict_get (u "overall")
                (Bot.check_health no_fault transformer_down fresh_world).1 = Some false)
    by (vm_compute; reflexivity).
  split; [exact H|].
  pose proof (unhealthy_cycle_aborts (fun s => s) no_fault epoch default_config
                transformer_down fresh_world H) as (_ & _ & _ & _ & Hr & _).
  split; [vm_compute; reflexivity|exact Hr].
Defined.

Section Stages.
Variable sha256_hex : pystr -> pystr.
Variable fault : nat -> option exn.
Variable clock : nat -> Z.
Variable config : Config.

Abbreviation check_health := (check_health fault).
Abbreviation run_full_cycle := (run_full_cycle sha256_hex fault clock config).
Abbreviation run_cycles := (run_cycles sha256_hex fault clock config).
Abbreviation _parse_and_save_news := (_parse_and_save_news sha256_hex fault clock).
Abbreviation _process_news_content := (_process_news_content fault config).
Abbreviation _send_notifications := (_send_notifications fault).

(** X17: the health report always has the four entries database,
    content_processor, notification_service and overall, in that order;
    the database is healthy exactly when the statistics can be read, a
    service exactly when its [is_available] returns True, so that a probe
    that raises counts as unhealthy; overall is True exactly when the
    three others are; and the check leaves the table as it is. *)
Theorem check_health_reports env w :
  let health_status := (check_health env w).1 in
  List.map fst health_status
  = [u "database"; u "content_processor"; u "notification_service"; u "overall"]
  /\ (dict_get (u "database") health_status = Some true
      <-> exists stats, (get_statistics fault (db w)).1 = Ok stats)
  /\ (dict_get (u "content_processor") health_status = Some true
      <-> content_processor_is_available env = Ok true)
  /\ (dict_get (u "notification_service") health_status = Some true
      <-> notification_service_is_available env = Ok true)
  /\ (dict_get (u "overall") health_status = Some true
      <-> dict_get (u "database") health_status = Some true
          /\ dict_get (u "content_processor") health_status = Some true
          /\ dict_get (u "notification_service") health_status = Some true)
  /\ rows (db (check_health env w).2) = rows (db w).
Proof.
  intros health_status. subst health_status.
  pose proof (check_health_spec fault env w) as E. cbv zeta in E. rewrite E.
  cbn [fst snd db].
  destruct (get_statistics_state fault (db w)) as (Hr & _).
  destruct (get_statistics fault (db w)) as [stats d1]. cbn [fst snd] in *.
  assert (Ha : forall r : Res bool, answer r = true <-> r = Ok true).
  { intros [[|]|e]; cbn; split; congruence. }
  assert (Hs : is_ok stats = true <-> exists s, stats = Ok s).
  { destruct stats as [s|e]; cbn; split; eauto; try discriminate.
    intros (s & Hs). discriminate. }
  split; [reflexivity|].
  rewrite <- Hs, <- (Ha (content_processor_is_available env)),
    <- (Ha (notification_service_is_available env)).
  generalize (is_ok stats) (answer (content_processor_is_available env))
             (answer (notification_service_is_available env)).
  intros a b c. split; [|split; [|split; [|split; [|exact Hr]]]];
    destruct a, b, c; vm_compute; intuition congruence.
Qed.

Lemma run_full_cycle_cases env w :
  let res := (run_full_cycle env w).1 in
  let healthy := dict_get (u "overall") (check_health env w).1 = Some true in
  (~ healthy
   /\ res = {| success := false; processed_count := 0; failed_count := 0;
               errors := [health_error_msg];
               duration := end_time env - start_time env |})
  \/ (healthy
      /\ exists n : Z,
          res = {| success := true; processed_count := n; failed_count := 0;
                   errors := []; duration := end_time env - start_time env |})
  \/ (healthy
      /\ exists e : exn,
          res = {| success := false; processed_count := 0; failed_count := 1;
                   errors := [u "Critical error in full cycle: " ++ exn_msg e];
                   duration := end_time env - start_time env |}).
Proof.
  intros res healthy. subst res healthy.
  pose proof (overall_of_health fault env w) as Hov.
  unfold Bot.run_full_cycle, bindM.
  destruct (Bot.check_health fault env w) as [health_status w1]. cbn [fst] in *.
  rewrite Hov. cbn [from_option Datatypes.id].
  destruct (is_ok _ && _) eqn:Hh; cbn [negb].
  - right.
    destruct (Bot._parse_and_save_news sha256_hex fault clock env w1) as [parsed_count w2].
    destruct (Bot._process_news_content fault config env w2) as [processed w3].
    destruct (Bot._send_notifications fault env w3) as [sent_count w4].
    destruct ((if current_hour env =? cleanup_hour config
               then repo (CleanupOldNews 7) (fun d => cleanup_old_news fault clock d 7)
               else ret 0) w4) as [c w5].
    destruct (repo GetStatistics (get_statistics fault) w5) as [[stats|e] w6].
    + left. split; [reflexivity|]. eexists. reflexivity.
    + right. split; [reflexivity|]. eexists. reflexivity.
  - left. split; [discriminate|reflexivity].
Qed.

(** X18: a cycle succeeds exactly when it reports no error; a successful
    cycle passed the health check and reports a failed_count of 0,
    whatever happened to single items; a failed cycle reports a
    processed_count of 0 and exactly one error, with a failed_count of 0
    when the health check stopped it and of 1 when it failed after a
    passed health check; the duration is always the time elapsed. *)
Theorem run_full_cycle_result env w :
  let res := (run_full_cycle env w).1 in
  let healthy := dict_get (u "overall") (check_health env w).1 = Some true in
  (success res = true <-> errors res = [])
  /\ (success res = true -> healthy /\ failed_count res = 0)
  /\ (success res = false ->
      processed_count res = 0 /\ length (errors res) = 1%nat
      /\ (failed_count res = 0 <-> ~ healthy)
      /\ (failed_count res = 1 <-> healthy))
  /\ duration res = (end_time env - start_time env)%Q.
Proof.
  intros res healthy.
  destruct (run_full_cycle_cases env w) as [[Hh E]|[[Hh (n & E)]|[Hh (e & E)]]];
    fold res healthy in Hh, E; rewrite E;
    cbn [success errors failed_count processed_count duration length];
    repeat split; intros; try discriminate; try reflexivity; try tauto; try lia.
Qed.


(** *** What the stages call *)

Lemma for_each_omap {X A C} (f : call * Db -> option C) (g : X -> list C)
    (body : X -> A -> M A) :
  (forall x acc w, omap f (trace (body x acc w).2) = omap f (trace w) ++ g x) ->
  forall xs acc w,
    omap f (trace (for_each xs body acc w).2) = omap f (trace w) ++ concat (List.map g xs).
Proof.
  intros Hbody xs. induction xs as [|x xs IH]; intros acc w.
  - cbn. rewrite app_nil_r. reflexivity.
  - cbn [for_each List.map concat]. unfold bindM.
    specialize (Hbody x acc w). destruct (body x acc w) as [acc' w1]. cbn [snd] in Hbody.
    rewrite IH, Hbody, <- app_assoc. reflexivity.
Qed.

Lemma for_each_count {X} (body : X -> Z -> M Z) :
  (forall x acc w, acc <= (body x acc w).1 <= acc + 1) ->
  forall xs acc w,
    acc <= (for_each xs body acc w).1 <= acc + Z.of_nat (length xs).
Proof.
  intros Hbody xs. induction xs as [|x xs IH]; intros acc w.
  - cbn. lia.
  - cbn [for_each length]. unfold bindM.
    specialize (Hbody x acc w). destruct (body x acc w) as [acc' w1]. cbn [fst] in Hbody.
    specialize (IH acc' w1). lia.
Qed.

Lemma concat_singletons {X C} (g : X -> C) (xs : list X) :
  concat (List.map (fun x => [g x]) xs) = List.map g xs.
Proof. induction xs as [|x xs IH]; cbn; [reflexivity|]. f_equal. exact IH. Qed.

Lemma select_by_status_length st limit d :
  0 <= limit -> (length (select_by_status st limit d) <= Z.to_nat limit)%nat.
Proof.
  intros Hge. unfold select_by_status, sql_limit. rewrite length_fmap.
  destruct (Z.ltb_spec limit 0); [lia|]. rewrite length_take. lia.
Qed.

Lemma read_for_stage_length d st limit :
  0 <= limit -> (length (read_for_stage fault d st limit) <= Z.to_nat limit)%nat.
Proof.
  intros Hge. unfold read_for_stage.
  destruct (get_news_by_status fault d st limit).1 as [l|e] eqn:E; [|cbn; lia].
  apply get_news_by_status_result in E. subst l. apply select_by_status_length, Hge.
Qed.

Ltac step_repo :=
  match goal with
  | |- context [update_news_status ?f ?d ?i ?s ?k] =>
      destruct (update_news_status f d i s k) as [? ?]
  end.

Ltac trace_done :=
  unfold ret; cbn [db trace snd fst]; rewrite ?omap_app; cbn;
  rewrite ?app_nil_r, <- ?app_assoc; reflexivity.

(** X19: the content stage gives the content processor exactly the items
    it read as parsed, each once and in the order read, at most
    max_news_per_run of them when that limit is not negative; every one
    of these items gets exactly one status update, to processed when the
    processor returned a text that is not empty and to failed when it
    returned nothing or raised; and the count the stage returns lies
    between 0 and the number of items read. *)
Theorem process_stage_settles_each_item env w :
  let read := read_for_stage fault (db w) PARSED (max_news_per_run config) in
  let r := _process_news_content env w in
  processed_items (trace r.2) = processed_items (trace w) ++ read
  /\ status_updates (trace r.2)
     = status_updates (trace w)
       ++ List.map (fun news => (id news, status_after_processing env news)) read
  /\ (0 <= max_news_per_run config ->
      (length read <= Z.to_nat (max_news_per_run config))%nat)
  /\ 0 <= r.1 <= Z.of_nat (length read).
Proof.
  intros read r.
  split; [|split; [|split]]; [| |apply read_for_stage_length|].
  - subst r read. unfold processed_items.
    unfold Bot._process_news_content, read_for_stage, bindM, repo.
    destruct (get_news_by_status fault (db w) PARSED (max_news_per_run config))
      as [[l|e] d1]; cbn [fst snd]; [|trace_done].
    destruct l as [|news l]; [trace_done|].
    rewrite for_each_omap with (g := fun x => [x]).
    + rewrite concat_singletons, map_id. trace_done.
    + intros x acc w0. unfold bindM, ext, repo, ret. cbn [db trace snd].
      destruct (process_content env x) as [rephrased|e].
      * destruct (truthy_opt rephrased); step_repo; [destruct b|]; trace_done.
      * step_repo. trace_done.
  - subst r read. unfold status_updates.
    unfold Bot._process_news_content, read_for_stage, bindM, repo.
    destruct (get_news_by_status fault (db w) PARSED (max_news_per_run config))
      as [[l|e] d1]; cbn [fst snd]; [|trace_done].
    destruct l as [|news l]; [trace_done|].
    rewrite for_each_omap
      with (g := fun x => [(id x, status_after_processing env x)]).
    + rewrite concat_singletons. trace_done.
    + intros x acc w0. unfold status_after_processing, bindM, ext, repo, ret.
      cbn [db trace snd].
      destruct (process_content env x) as [rephrased|e].
      * destruct (truthy_opt rephrased); step_repo; [destruct b|]; trace_done.
      * step_repo. trace_done.
  - subst r read. unfold Bot._process_news_content, read_for_stage, bindM, repo.
    destruct (get_news_by_status fault (db w) PARSED (max_news_per_run config))
      as [[l|e] d1]; cbn [fst snd]; [|cbn; lia].
    destruct l as [|news l]; [cbn; lia|].
    match goal with
    | |- context [for_each ?xs ?body ?acc ?w0] =>
        assert (Hc : acc <= (for_each xs body acc w0).1 <= acc + Z.of_nat (length xs));
        [apply (for_each_count body)|lia]
    end.
    intros x acc w0. unfold bindM, ext, repo, ret. cbn [db trace snd].
    destruct (process_content env x) as [rephrased|e].
    + destruct (truthy_opt rephrased); step_repo; [destruct b|]; cbn [fst]; lia.
    + step_repo. cbn [fst]. lia.
Qed.


Lemma for_each_sum {X} (h : X -> Z) (body : X -> Z -> M Z) :
  (forall x acc w, (body x acc w).1 = acc + h x) ->
  forall xs acc w,
    (for_each xs body acc w).1 = acc + foldr Z.add 0 (List.map h xs).
Proof.
  intros Hbody xs. induction xs as [|x xs IH]; intros acc w.
  - cbn. lia.
  - cbn [for_each List.map foldr]. unfold bindM.
    specialize (Hbody x acc w). destruct (body x acc w) as [acc' w1]. cbn [fst] in Hbody.
    rewrite IH, Hbody. lia.
Qed.

Lemma omap_length {X Y} (f : X -> option Y) (l : list X) :
  (length (omap f l) <= length l)%nat.
Proof.
  induction l as [|x l IH]; [reflexivity|]. cbn. destruct (f x); cbn; lia.
Qed.

Lemma to_send_spec ready_news :
  (length (to_send ready_news) <= length ready_news)%nat
  /\ Forall (fun nc : NewsItem * pystr =>
               nc.1 ∈ ready_news /\ rephrased_content nc.1 = Some nc.2
               /\ truthy nc.2 = true)
       (to_send ready_news).
Proof.
  split; [apply omap_length|].
  apply Forall_forall. intros [news c] Hin. unfold to_send in Hin.
  apply list_elem_of_omap in Hin as (news' & Hin & Hf).
  destruct (rephrased_content news') as [c'|] eqn:Ec; [|discriminate].
  destruct (truthy c') eqn:Tc; [|discriminate].
  injection Hf as <- <-. cbn. auto.
Qed.

(** X20: the delivery stage reads at most five processed items and hands
    the notification service one batch, made of those that carry a
    rephrased content that is not empty, each with that content, or no
    batch at all when there is none; every item of the batch gets
    exactly one status update, to sent when its delivery succeeded and
    to failed otherwise; the count returned is the number of successful
    deliveries. *)
Theorem send_stage_settles_each_item env w :
  let ready := read_for_stage fault (db w) PROCESSED 5 in
  let news_to_send := to_send ready in
  let results := Notification.send_multiple_news (send_news env) news_to_send in
  let r := _send_notifications env w in
  sent_batches (trace r.2)
  = sent_batches (trace w) ++ match news_to_send with [] => [] | _ => [news_to_send] end
  /\ status_updates (trace r.2)
     = status_updates (trace w)
       ++ List.map (fun res => (res.1.1, status_after_sending res)) results
  /\ (length news_to_send <= 5)%nat
  /\ Forall (fun nc : NewsItem * pystr =>
               nc.1 ∈ ready /\ rephrased_content nc.1 = Some nc.2 /\ truthy nc.2 = true)
       news_to_send
  /\ r.1 = foldr Z.add 0 (List.map (fun res : option Z * option Z * bool =>
                                        if res.2 then 1 else 0) results).
Proof.
  intros ready news_to_send results r.
  assert (Hlen : (length news_to_send <= 5)%nat).
  { pose proof (proj1 (to_send_spec ready)) as H1.
    pose proof (read_for_stage_length (db w) PROCESSED 5 ltac:(lia)) as H2.
    fold ready in H2. subst news_to_send. lia. }
  split; [|split; [|split; [exact Hlen|split; [apply to_send_spec|]]]].
  - subst r results news_to_send ready. unfold sent_batches.
    unfold Bot._send_notifications, read_for_stage, bindM, repo.
    destruct (get_news_by_status fault (db w) PROCESSED 5) as [[l|e] d1];
      cbn [fst snd]; [|trace_done].
    destruct l as [|news l]; [trace_done|].
    destruct (to_send (news :: l)) as [|nc rest] eqn:Es; [trace_done|].
    unfold ext. cbn [db trace].
    rewrite for_each_omap with (g := fun _ => []).
    + assert (E : forall (X : Type) (xs : list X),
                 concat (List.map (fun _ : X => @nil (list (NewsItem * pystr))) xs) = [])
        by (intros X xs; induction xs; cbn; auto).
      rewrite E. trace_done.
    + intros [[news_id message_id] ok] acc w0. unfold bindM, ext, repo, ret.
      destruct ok; step_repo; [destruct (existsb _ _)|]; trace_done.
  - subst r results news_to_send ready. unfold status_updates.
    unfold Bot._send_notifications, read_for_stage, bindM, repo.
    destruct (get_news_by_status fault (db w) PROCESSED 5) as [[l|e] d1];
      cbn [fst snd]; [|trace_done].
    destruct l as [|news l]; [trace_done|].
    destruct (to_send (news :: l)) as [|nc rest] eqn:Es; [trace_done|].
    unfold ext. cbn [db trace].
    rewrite for_each_omap with (g := fun res => [(res.1.1, status_after_sending res)]).
    + rewrite concat_singletons. trace_done.
    + intros [[news_id message_id] ok] acc w0.
      unfold status_after_sending, bindM, ext, repo, ret.
      destruct ok; step_repo; [destruct (existsb _ _)|]; trace_done.
  - subst r results news_to_send ready.
    unfold Bot._send_notifications, read_for_stage, bindM, repo.
    destruct (get_news_by_status fault (db w) PROCESSED 5) as [[l|e] d1];
      cbn [fst snd]; [|reflexivity].
    destruct l as [|news l]; [reflexivity|].
    destruct (to_send (news :: l)) as [|nc rest] eqn:Es; [reflexivity|].
    unfold ext. cbn [db trace].
    rewrite for_each_sum with (h := fun res : option Z * option Z * bool =>
                                      if res.2 then 1 else 0); [lia|].
    intros [[news_id message_id] ok] acc w0. unfold bindM, ext, repo, ret.
    destruct ok; step_repo; [destruct (existsb _ _)|]; cbn [fst snd]; lia.
Qed.


(** *** What a cycle stores *)

Lemma save_loop_counts (body : NewsItem -> Z -> M Z) :
  (forall news acc w,
      body news acc w
      = let '(res, d') := save_news sha256_hex fault clock (db w) news in
        if truthy_id res
        then (acc + 1,
              {| db := d';
                 trace := (trace w ++ [(SaveNews news, db w)])
                            ++ [(Publish (u "news.parsed"), d')] |})
        else (acc, {| db := d'; trace := trace w ++ [(SaveNews news, db w)] |})) ->
  forall (items : list NewsItem) (acc : Z) (w : World),
    wf (db w) -> 0 <= seq (db w) ->
    wf (db (for_each items body acc w).2)
    /\ seq (db (for_each items body acc w).2)
       = seq (db w) + ((for_each items body acc w).1 - acc)
    /\ Z.of_nat (size (rows (db (for_each items body acc w).2)))
       = Z.of_nat (size (rows (db w))) + ((for_each items body acc w).1 - acc)
    /\ acc <= (for_each items body acc w).1 <= acc + Z.of_nat (length items).
Proof.
  intros Hbody. induction items as [|news items IH]; intros acc w W Hseq.
  - cbn. repeat split; try assumption; lia.
  - cbn [for_each length]. unfold bindM. rewrite Hbody.
    pose proof (save_news_cases sha256_hex fault clock (db w) news) as Hc.
    pose proof (save_news_evolves sha256_hex fault clock (db w) news W) as (_ & W' & _).
    destruct (save_news sha256_hex fault clock (db w) news) as [res d']. cbn [snd] in W'.
    destruct Hc as [(-> & Hr & Hs)|(k & -> & Hk & _ & _ & Hs & Hr)].
    + cbn [truthy_id].
      match goal with
      | |- context [for_each items body acc ?w1] =>
          specialize (IH acc w1 W' ltac:(cbn [db]; lia));
          destruct (for_each items body acc w1) as [n w2]
      end.
      cbn [fst snd db] in *. rewrite Hr, Hs in IH. intuition lia.
    + rewrite (max_key_wf (db w) W) in Hk.
      assert (Hfresh : rows (db w) !! k = None).
      { pose proof (fresh_key (seq (db w)) (rows (db w))) as Hf.
        rewrite (max_key_wf (db w) W) in Hf. rewrite Hk. exact Hf. }
      assert (Ht : truthy_id (Some k) = true).
      { cbn. destruct (Z.eqb_spec k 0); [lia|reflexivity]. }
      rewrite Ht.
      match goal with
      | |- context [for_each items body (acc + 1) ?w1] =>
          specialize (IH (acc + 1) w1 W' ltac:(cbn [db]; lia));
          destruct (for_each items body (acc + 1) w1) as [n w2]
      end.
      cbn [fst snd db] in *. rewrite Hr, Hs in IH.
      rewrite map_size_insert_None in IH by exact Hfresh. intuition lia.
Qed.

(** X21: on a table whose key sequence is not negative and bounds its
    keys, the count [_parse_and_save_news] returns is the number of rows
    the stage added: the table and the key sequence both grow by exactly
    that count, which lies between 0 and the number of items parsed. *)
Theorem parse_and_save_counts_new_rows env w :
  wf (db w) -> 0 <= seq (db w) ->
  let r := _parse_and_save_news env w in
  0 <= r.1 <= Z.of_nat (length (parsed_items env))
  /\ Z.of_nat (size (rows (db r.2))) = Z.of_nat (size (rows (db w))) + r.1
  /\ seq (db r.2) = seq (db w) + r.1
  /\ wf (db r.2).
Proof.
  intros W Hseq r.
  set (body := fun (news : NewsItem) (saved_count : Z) =>
                  news_id <- repo (SaveNews news)
                               (fun d => save_news sha256_hex fault clock d news) ;;
                  if truthy_id news_id then
                    ext (Publish (u "news.parsed")) ;;; ret (saved_count + 1)
                  else ret saved_count).
  assert (Hbody : forall news acc w,
             body news acc w
             = let '(res, d') := save_news sha256_hex fault clock (db w) news in
               if truthy_id res
               then (acc + 1,
                     {| db := d';
                        trace := (trace w ++ [(SaveNews news, db w)])
                                   ++ [(Publish (u "news.parsed"), d')] |})
               else (acc, {| db := d'; trace := trace w ++ [(SaveNews news, db w)] |})).
  { intros news0 acc w0. unfold body, bindM, repo, ext, ret.
    destruct (save_news sha256_hex fault clock (db w0) news0) as [res d'].
    destruct (truthy_id res); reflexivity. }
  assert (E : r = for_each (parsed_items env) body 0
                    {| db := db w; trace := trace w ++ [(ParseAllSources, db w)] |}).
  { subst r. unfold Bot._parse_and_save_news, parsed_items, bindM, ext.
    destruct (parse_all_sources env) as [[|news items]|e]; reflexivity. }
  rewrite E.
  pose proof (save_loop_counts body Hbody (parsed_items env) 0
                {| db := db w; trace := trace w ++ [(ParseAllSources, db w)] |} W Hseq) as H.
  cbn [db] in H. intuition lia.
Qed.


(** *** Rows agree with their status *)

Lemma hoare_db_ext c (B : Db -> Prop) : hoare (on_db B) (ext c) (fun _ => on_db B).
Proof. intros w Hw. exact Hw. Qed.

Lemma hoare_db_repo {A} c (op : Db -> A * Db) (B : Db -> Prop) (B' : A -> Db -> Prop) :
  (forall d, B d -> B' (op d).1 (op d).2) ->
  hoare (on_db B) (repo c op) (fun a => on_db (B' a)).
Proof.
  intros Hop w Hw. unfold repo, on_db in *. specialize (Hop (db w) Hw).
  destruct (op (db w)) as [a d']. exact Hop.
Qed.

Lemma consistent_same d d' : rows d' = rows d -> consistent d -> consistent d'.
Proof. intros E H k r. rewrite E. apply H. Qed.

Lemma save_news_consistent d news :
  status news = PARSED -> consistent d ->
  consistent (save_news sha256_hex fault clock d news).2.
Proof.
  intros Hst Hc. pose proof (save_news_cases sha256_hex fault clock d news) as H.
  destruct (save_news sha256_hex fault clock d news) as [res d']. cbn [snd].
  destruct H as [(_ & Hr & _)|(k & _ & _ & _ & _ & _ & Hr)].
  - exact (consistent_same d d' Hr Hc).
  - intros j r Hj. rewrite Hr in Hj. destruct (decide (k = j)) as [->|Hne].
    + rewrite lookup_insert_eq in Hj. injection Hj as <-.
      unfold row_consistent. cbn [row_status]. rewrite Hst. exact I.
    + rewrite lookup_insert_ne in Hj by exact Hne. exact (Hc j r Hj).
Qed.

Lemma update_news_status_consistent d news_id st kw :
  consistent d ->
  (forall k r, news_id = Some k -> rows d !! k = Some r ->
               row_consistent (apply_update st kw r)) ->
  consistent (update_news_status fault d news_id st kw).2.
Proof.
  intros Hc Hrow. pose proof (update_news_status_rows fault d news_id st kw) as H.
  destruct (update_news_status fault d news_id st kw) as [ok d']. cbn [snd].
  destruct H as (_ & _ & [(_ & _ & Hr)|(_ & Hr & _)]).
  - exact (consistent_same d d' Hr Hc).
  - intros j r' Hj. rewrite Hr in Hj.
    destruct (decide (news_id = Some j)) as [->|Hne].
    + rewrite update_rows_lookup_eq in Hj.
      destruct (rows d !! j) as [r|] eqn:E; [|discriminate]. injection Hj as <-.
      apply (Hrow j r eq_refl E).
    + rewrite update_rows_lookup_ne in Hj by exact Hne. exact (Hc j r' Hj).
Qed.

Lemma failed_consistent kw r : row_consistent (apply_update FAILED kw r).
Proof.
  unfold row_consistent.
  destruct (apply_update_frame FAILED kw r) as (_ & _ & _ & _ & _ & _ & _ & _ & -> & _).
  exact I.
Qed.

Lemma cleanup_old_news_consistent d days :
  consistent d -> consistent (cleanup_old_news fault clock d days).2.
Proof.
  intros Hc. unfold cleanup_old_news, transaction.
  destruct (fault (tick d)); cbn [snd]; [exact Hc|].
  intros k r Hk. cbn [rows] in Hk. apply map_lookup_filter_Some in Hk as [Hk _].
  exact (Hc k r Hk).
Qed.

Lemma check_health_consistent env :
  hoare (on_db consistent) (check_health env) (fun _ => on_db consistent).
Proof.
  unfold Bot.check_health, _check_database_health, _check_availability.
  eapply hoare_bind.
  { eapply hoare_bind.
    - apply (hoare_db_repo GetStatistics (get_statistics fault) consistent
               (fun _ => consistent)).
      intros d Hd. destruct (get_statistics_state fault d) as (Hr & _).
      exact (consistent_same _ _ Hr Hd).
    - intros r. apply hoare_ret. }
  intros database. eapply hoare_bind.
  { eapply hoare_bind; [apply hoare_db_ext|]. intros ?. apply hoare_ret. }
  intros cp. eapply hoare_bind.
  { eapply hoare_bind; [apply hoare_db_ext|]. intros ?. apply hoare_ret. }
  intros ns. apply hoare_ret.
Qed.

Lemma parse_and_save_consistent env :
  parses_new_items env ->
  hoare (on_db consistent) (_parse_and_save_news env) (fun _ => on_db consistent).
Proof.
  intros Hnew. unfold parses_new_items, parsed_items in Hnew.
  unfold Bot._parse_and_save_news.
  eapply hoare_bind; [apply hoare_db_ext|]. intros ?.
  destruct (parse_all_sources env) as [[|news news_items]|e]; try apply hoare_ret.
  eapply hoare_weaken;
    [apply (hoare_for_each
              (fun l w => consistent (db w) /\ Forall (fun n => status n = PARSED) l))
    |intros w0 Hw; split; [exact Hw|exact Hnew]
    |intros z w0 [Hw _]; exact Hw].
  intros x rest acc. eapply hoare_bind.
  - apply (hoare_db_repo (SaveNews x) _
             (fun d => consistent d /\ Forall (fun n => status n = PARSED) (x :: rest))
             (fun _ d => consistent d /\ Forall (fun n => status n = PARSED) rest)).
    intros d [Hd Hf]. apply Forall_cons in Hf as [Hx Hf]. split; [|exact Hf].
    apply save_news_consistent; assumption.
  - intros news_id. destruct (truthy_id news_id); [|apply hoare_ret].
    eapply hoare_bind; [apply hoare_db_ext|]. intros ?. apply hoare_ret.
Qed.

Lemma process_content_consistent env :
  hoare (on_db consistent) (_process_news_content env) (fun _ => on_db consistent).
Proof.
  unfold Bot._process_news_content. eapply hoare_bind.
  { apply (hoare_db_repo _ _ consistent (fun _ => consistent)).
    intros d Hd. destruct (get_news_by_status_state fault d PARSED (max_news_per_run config))
      as (Hr & _).
    exact (consistent_same _ _ Hr Hd). }
  intros r. destruct r as [[|news unprocessed_news]|e]; try apply hoare_ret.
  apply (hoare_for_each (fun _ => on_db consistent)).
  intros x rest acc. eapply hoare_bind; [apply hoare_db_ext|]. intros ?.
  assert (Hfail : hoare (on_db consistent)
                    (repo (UpdateNewsStatus (id x) FAILED no_kwargs)
                       (fun d => update_news_status fault d (id x) FAILED no_kwargs))
                    (fun _ => on_db consistent)).
  { apply (hoare_db_repo _ _ consistent (fun _ => consistent)).
    intros d Hd. apply update_news_status_consistent; [exact Hd|].
    intros k r _ _. apply failed_consistent. }
  destruct (process_content env x) as [rephrased|e].
  - destruct (truthy_opt rephrased) eqn:Ht.
    + eapply hoare_bind.
      { apply (hoare_db_repo _ _ consistent (fun _ => consistent)).
        intros d Hd. apply update_news_status_consistent; [exact Hd|].
        intros k r _ _. unfold row_consistent.
        destruct (apply_update_frame PROCESSED
                    {| kw_rephrased_content := Some rephrased;
                       kw_telegram_message_id := None |} r)
          as (_ & _ & _ & _ & _ & _ & _ & _ & -> & -> & _).
        exact Ht. }
      intros ok. eapply hoare_bind.
      { destruct ok; [|apply hoare_ret].
        eapply hoare_bind; [apply hoare_db_ext|]. intros ?. apply hoare_ret. }
      intros n. eapply hoare_bind; [apply hoare_db_ext|]. intros ?. apply hoare_ret.
    + eapply hoare_bind; [exact Hfail|]. intros ?. apply hoare_ret.
  - eapply hoare_bind; [exact Hfail|]. intros ?. apply hoare_ret.
Qed.

Lemma send_results_success send news_items :
  Forall (fun res : option Z * option Z * bool => res.2 = true -> res.1.2 <> None)
    (Notification.send_multiple_news send news_items).
Proof.
  unfold Notification.send_multiple_news. apply Forall_forall. intros res Hin.
  apply list_elem_of_In, in_map_iff in Hin as (nc & <- & _). cbn.
  intros H. apply bool_decide_eq_true in H. exact H.
Qed.

Lemma send_notifications_consistent env :
  hoare (on_db consistent) (_send_notifications env) (fun _ => on_db consistent).
Proof.
  unfold Bot._send_notifications. eapply hoare_bind.
  { apply (hoare_db_repo _ _ consistent
             (fun r d => consistent d
                         /\ match r with
                            | Ok l => batch PROCESSED (id <$> l) d
                            | Raise _ => True
                            end)).
    intros d Hd.
    destruct (get_news_by_status fault d PROCESSED 5) as [r d'] eqn:E. cbn [fst snd].
    pose proof (get_news_by_status_state fault d PROCESSED 5) as (Hr & _).
    rewrite E in Hr. cbn [snd] in Hr.
    split; [exact (consistent_same _ _ Hr Hd)|].
    destruct r as [l|e]; [|exact I].
    pose proof (get_news_by_status_result fault d PROCESSED 5 l) as Hl.
    rewrite E in Hl. cbn [fst] in Hl. rewrite (Hl eq_refl).
    eapply batch_same; [exact Hr|apply select_by_status_batch]. }
  assert (Hdrop : forall (B : Db -> Prop) (z : Z),
             hoare (on_db (fun d => consistent d /\ B d)) (ret z)
               (fun _ => on_db consistent)).
  { intros B z w [Hw _]. exact Hw. }
  intros r. destruct r as [[|news ready_news]|e]; try apply Hdrop.
  set (ready := news :: ready_news).
  destruct (to_send ready) as [|nc news_to_send] eqn:Es; [apply Hdrop|].
  set (items := nc :: news_to_send) in *.
  eapply hoare_bind.
  { apply (hoare_db_ext _ (fun d => consistent d /\ batch PROCESSED (id <$> ready) d)). }
  intros ?.
  set (results := Notification.send_multiple_news (send_news env) items).
  eapply hoare_weaken;
    [apply (hoare_for_each
              (fun l w =>
                 consistent (db w)
                 /\ batch PROCESSED
                      ((fun res : option Z * option Z * bool => res.1.1) <$> l) (db w)
                 /\ Forall (fun res : option Z * option Z * bool =>
                              res.2 = true -> res.1.2 <> None) l))
    |intros w [Hw HB]; split; [exact Hw|split; [|apply send_results_success]];
     unfold results; rewrite results_ids;
     eapply batch_sublist; [|exact HB]; rewrite <- Es; apply to_send_ids
    |intros z w [Hw _]; exact Hw].
  intros [[news_id message_id] ok] rest acc. 
  assert (Htail : forall st kw d,
             batch PROCESSED
               ((fun res : option Z * option Z * bool => res.1.1)
                  <$> (news_id, message_id, ok) :: rest) d ->
             batch PROCESSED
               ((fun res : option Z * option Z * bool => res.1.1) <$> rest)
               (update_news_status fault d news_id st kw).2).
  { intros st kw d HB. rewrite fmap_cons in HB. cbn [fst] in HB.
    eapply batch_tail; [exact HB|]. intros y Hy. apply update_news_status_other, Hy. }
  destruct ok.
  - eapply hoare_bind.
    { apply (hoare_db_repo _ _
               (fun d => consistent d
                         /\ batch PROCESSED
                              ((fun res : option Z * option Z * bool => res.1.1)
                                 <$> (news_id, message_id, true) :: rest) d
                         /\ Forall (fun res : option Z * option Z * bool =>
                                      res.2 = true -> res.1.2 <> None)
                              ((news_id, message_id, true) :: rest))
               (fun _ d => consistent d
                           /\ batch PROCESSED
                                ((fun res : option Z * option Z * bool => res.1.1)
                                   <$> rest) d
                           /\ Forall (fun res : option Z * option Z * bool =>
                                        res.2 = true -> res.1.2 <> None) rest)).
      intros d (Hd & HB & Hf). apply Forall_cons in Hf as [Hm Hf]. cbn in Hm.
      split; [|split; [apply Htail, HB|exact Hf]].
      apply update_news_status_consistent; [exact Hd|].
      intros k r -> Hk.
      assert (Hst : row_status r = PROCESSED).
      { destruct HB as [_ HB]. rewrite fmap_cons in HB. apply Forall_cons in HB as [HB _].
        cbn in HB. rewrite Hk in HB. cbn in HB. congruence. }
      pose proof (Hd k r Hk) as Hrc. unfold row_consistent in Hrc |- *.
      rewrite Hst in Hrc.
      destruct (apply_update_frame SENT
                  {| kw_rephrased_content := None;
                     kw_telegram_message_id := Some message_id |} r)
        as (_ & _ & _ & _ & _ & _ & _ & _ & -> & -> & ->).
      cbn. split; [exact Hrc|apply Hm; reflexivity]. }
    intros ?. eapply hoare_bind.
    { destruct (existsb _ _); [apply hoare_db_ext|apply hoare_ret]. }
    intros ?. apply hoare_ret.
  - eapply hoare_bind.
    { apply (hoare_db_repo _ _
               (fun d => consistent d
                         /\ batch PROCESSED
                              ((fun res : option Z * option Z * bool => res.1.1)
                                 <$> (news_id, message_id, false) :: rest) d
                         /\ Forall (fun res : option Z * option Z * bool =>
                                      res.2 = true -> res.1.2 <> None)
                              ((news_id, message_id, false) :: rest))
               (fun _ d => consistent d
                           /\ batch PROCESSED
                                ((fun res : option Z * option Z * bool => res.1.1)
                                   <$> rest) d
                           /\ Forall (fun res : option Z * option Z * bool =>
                                        res.2 = true -> res.1.2 <> None) rest)).
      intros d (Hd & HB & Hf). apply Forall_cons in Hf as [_ Hf].
      split; [|split; [apply Htail, HB|exact Hf]].
      apply update_news_status_consistent; [exact Hd|].
      intros k r _ _. apply failed_consistent. }
    intros ?. apply hoare_ret.
Qed.

Lemma run_full_cycle_consistent env :
  parses_new_items env ->
  hoare (on_db consistent) (run_full_cycle env) (fun _ => on_db consistent).
Proof.
  intros Hnew. unfold Bot.run_full_cycle.
  eapply hoare_bind; [apply check_health_consistent|]. intros health_status.
  destruct (negb _).
  { eapply hoare_bind; [apply hoare_db_ext|]. intros ?. apply hoare_ret. }
  eapply hoare_bind; [apply parse_and_save_consistent, Hnew|]. intros parsed_count.
  eapply hoare_bind; [apply process_content_consistent|]. intros processed.
  eapply hoare_bind; [apply send_notifications_consistent|]. intros sent_count.
  eapply hoare_bind.
  { destruct (current_hour env =? cleanup_hour config); [|apply hoare_ret].
    apply (hoare_db_repo (CleanupOldNews 7) _ consistent (fun _ => consistent)).
    intros d Hd. apply cleanup_old_news_consistent, Hd. }
  intros ?. eapply hoare_bind.
  { apply (hoare_db_repo GetStatistics (get_statistics fault) consistent
             (fun _ => consistent)).
    intros d Hd. destruct (get_statistics_state fault d) as (Hr & _).
    exact (consistent_same _ _ Hr Hd). }
  intros stats. destruct stats.
  - eapply hoare_bind; [apply hoare_db_ext|]. intros ?. apply hoare_ret.
  - eapply hoare_bind; [apply hoare_db_ext|]. intros ?. apply hoare_ret.
Qed.

(** X22: over any number of cycles in which the parser hands over items
    of status parsed, and whatever the outside world answers, the table
    stays consistent: a row stored as processed has a rephrased content
    that is not empty, and a row stored as sent has one too, together
    with the id of its Telegram message. *)
Theorem rows_agree_with_their_status (envs : list Env) (w : World) :
  consistent (db w) ->
  Forall parses_new_items envs ->
  consistent (db (run_cycles envs w).2).
Proof.
  revert w. induction envs as [|env envs IH]; intros w Hw Hnew; [exact Hw|].
  apply Forall_cons in Hnew as [Hnew Hrest].
  cbn [Bot.run_cycles]. unfold bindM.
  pose proof (run_full_cycle_consistent env Hnew w Hw) as H1.
  destruct (Bot.run_full_cycle sha256_hex fault clock config env w) as [res w1].
  cbn [snd] in H1. specialize (IH w1 H1 Hrest).
  destruct (Bot.run_cycles sha256_hex fault clock config envs w1) as [rest w2].
  exact IH.
Qed.

End Stages.

Lemma parse_and_save_counts_new_rows_witness :
  seq (db (Bot._parse_and_save_news (fun s => s) no_fault epoch all_goes_well fresh_world).2)
  = seq (db fresh_world)
    + (Bot._parse_and_save_news (fun s => s) no_fault epoch all_goes_well fresh_world).1.
Proof.
  refine (proj1 (proj2 (proj2 (parse_and_save_counts_new_rows (fun s => s) no_fault epoch
                                 all_goes_well fresh_world _ _)))).
  - exact wf_empty_db.
  - cbn. lia.
Defined.

Lemma rows_agree_with_their_status_witness : consistent (db two_cycles.2).
Proof.
  refine (rows_agree_with_their_status (fun s => s) no_fault epoch default_config
            [transformer_returns_nothing; all_goes_well] fresh_world _ _).
  - intros k r Hk. unfold fresh_world, empty_db in Hk. cbn [db rows] in Hk.
    rewrite lookup_empty in Hk. discriminate.
  - repeat constructor.
Defined.

End BotFacts.

(** ** The parser service *)

Module ParserFacts.
Import Parser.

Lemma record_metrics ev s : metrics (record ev s) = metrics s ++ [ev].
Proof. reflexivity. Qed.

Section Facts.
Variable head_status : SourceConfig -> Res Z.
Variable strategy_parse : SourceConfig -> Res (list NewsItem).
Variable call_time : SourceConfig -> Q.
Variable default_breaker : CircuitBreaker.
Variable validation_chain : list Validation.validator.

Abbreviation guarded_parse := (guarded_parse head_status strategy_parse call_time).
Abbreviation parse_source := (parse_source head_status strategy_parse call_time default_breaker).
Abbreviation gather := (gather head_status strategy_parse call_time default_breaker).
Abbreviation task_outcomes :=
  (task_outcomes head_status strategy_parse call_time default_breaker).
Abbreviation validate_all := (validate_all validation_chain).
Abbreviation parse_all_sources :=
  (parse_all_sources head_status strategy_parse call_time default_breaker validation_chain).

(** *** The collector only ever receives more *)

Lemma is_source_available_metrics source s :
  metrics s `prefix_of` metrics (is_source_available head_status source s).2.
Proof.
  unfold is_source_available. destruct (head_status source); cbn [snd];
    rewrite record_metrics; apply prefix_app_r; reflexivity.
Qed.

Lemma breaker_for_metrics source s :
  metrics (breaker_for default_breaker source s).2 = metrics s.
Proof. unfold breaker_for. destruct (dict_get _ _); reflexivity. Qed.

Lemma guarded_parse_metrics source b s :
  metrics s `prefix_of` metrics (guarded_parse source b s).2.
Proof.
  unfold Parser.guarded_parse.
  pose proof (is_source_available_metrics source s) as H.
  destruct (is_source_available head_status source s) as [available s1]. cbn [snd] in H.
  destruct (negb available); [exact H|].
  destruct (breaker_call _ _ _) as [r b']. exact H.
Qed.

(** What [parse_source] makes of the guarded call: its items, or no item
    and a count of the failure under the name of the source. *)
Lemma parse_source_spec source s :
  let o := (guarded_parse source (breaker_for default_breaker source s).1
              (breaker_for default_breaker source s).2).1 in
  (parse_source source s).1 = Ok (contribution (source, o))
  /\ metrics s `prefix_of` metrics (parse_source source s).2
  /\ (forall e, o = Raise e ->
        Increment (u "parser.source_error") (name source)
          ∈ metrics (parse_source source s).2).
Proof.
  unfold Parser.parse_source.
  pose proof (breaker_for_metrics source s) as Hb.
  destruct (breaker_for default_breaker source s) as [b s0]. cbn [fst snd] in *.
  pose proof (guarded_parse_metrics source b s0) as Hg. rewrite Hb in Hg.
  destruct (guarded_parse source b s0) as [[items|e] s1]; cbn [fst snd] in *.
  - split; [reflexivity|]. split; [exact Hg|]. discriminate.
  - split; [reflexivity|]. rewrite record_metrics. split.
    + etransitivity; [exact Hg|]. apply prefix_app_r. reflexivity.
    + intros _ _. apply elem_of_app. right. apply list_elem_of_singleton. reflexivity.
Qed.

Lemma gather_spec tasks s :
  (gather tasks s).1 = (fun o => Ok (contribution o)) <$> task_outcomes tasks s
  /\ metrics s `prefix_of` metrics (gather tasks s).2
  /\ (forall source e, (source, Raise e) ∈ task_outcomes tasks s ->
        Increment (u "parser.source_error") (name source) ∈ metrics (gather tasks s).2).
Proof.
  revert s. induction tasks as [|[source_name source] rest IH]; intros s.
  - cbn [Parser.gather Parser.task_outcomes fst snd fmap list_fmap].
    split; [reflexivity|]. split; [reflexivity|]. intros ? ? H. inversion H.
  - cbn [Parser.gather Parser.task_outcomes]. unfold _parse_source_with_semaphore.
    pose proof (parse_source_spec source s) as (Hr & Hp & He). cbv zeta in Hr, He.
    destruct (parse_source source s) as [r s1] eqn:Es. cbn [fst snd] in *.
    destruct (IH s1) as (IHr & IHp & IHe).
    destruct (gather rest s1) as [rs s2]. cbn [fst snd] in *.
    destruct (breaker_for default_breaker source s) as [b s0]. cbn [fst snd] in *.
    rewrite fmap_cons. split; [rewrite Hr, IHr; reflexivity|].
    split; [etransitivity; eassumption|].
    intros src e Hin. apply elem_of_cons in Hin as [Heq|Hin].
    + injection Heq as -> Heq. eapply elem_of_prefix; [|exact IHp].
      apply (He e). symmetry. exact Heq.
    + apply IHe with e. exact Hin.
Qed.

Lemma collect_spec names (results : list (Res (list NewsItem))) s :
  length names = length results ->
  (collect names results s).1.1
  = concat ((fun r => match r with Ok items => items | Raise _ => [] end) <$> results)
  /\ metrics s `prefix_of` metrics (collect names results s).2.
Proof.
  revert results s. induction names as [|n names IH]; intros [|r results] s Hlen;
    try discriminate.
  - split; reflexivity.
  - injection Hlen as Hlen. cbn [collect]. destruct r as [items|e].
    + destruct (IH results
                  (record (SetGauge (u "parser.news_count") (Z.of_nat (length items)) (Some n))
                     (record (Increment (u "parser.source_success") n) s)) Hlen)
        as [IHr IHp].
      destruct (collect names results _) as [[all_news failed] s']. cbn [fst snd] in *.
      rewrite fmap_cons. cbn [concat]. rewrite IHr. split; [reflexivity|].
      etransitivity; [|exact IHp]. rewrite !record_metrics, <- app_assoc.
      apply prefix_app_r. reflexivity.
    + destruct (IH results (record (Increment (u "parser.source_failed") n) s) Hlen)
        as [IHr IHp].
      destruct (collect names results _) as [[all_news failed] s']. cbn [fst snd] in *.
      rewrite fmap_cons. cbn [concat app]. split; [exact IHr|].
      etransitivity; [|exact IHp]. rewrite record_metrics. apply prefix_app_r. reflexivity.
Qed.

Lemma validate_all_spec all_news s :
  (validate_all all_news s).1 = List.filter (Validation.is_valid validation_chain) all_news
  /\ metrics s `prefix_of` metrics (validate_all all_news s).2.
Proof.
  revert s. induction all_news as [|news rest IH]; intros s.
  - split; reflexivity.
  - cbn [Parser.validate_all List.filter]. unfold Validation.is_valid at 1.
    destruct (Validation.validate validation_chain news) as [[]|e]; cbn [is_ok].
    + destruct (IH (record (Increment (u "parser.news_validated") (source news)) s))
        as [IHr IHp].
      destruct (validate_all rest _) as [validated s']. cbn [fst snd] in *.
      split; [rewrite IHr; reflexivity|].
      etransitivity; [|exact IHp]. rewrite record_metrics. apply prefix_app_r. reflexivity.
    + destruct (IH (record (Increment (u "parser.news_rejected") (source news)) s))
        as [IHr IHp].
      split; [exact IHr|].
      etransitivity; [|exact IHp]. rewrite record_metrics. apply prefix_app_r. reflexivity.
Qed.

Lemma contribution_concat (outcomes : list (SourceConfig * Res (list NewsItem))) :
  concat ((fun r : Res (list NewsItem) =>
             match r with Ok items => items | Raise _ => [] end)
            <$> ((fun o => Ok (contribution o)) <$> outcomes))
  = concat (contribution <$> outcomes).
Proof. rewrite <- list_fmap_compose. reflexivity. Qed.

(** C7: whatever subset of the tasks fails, [parse_all_sources] returns,
    and returns the valid items of the tasks that did not fail, in the
    order of the sources: a failed task contributes no item and is counted
    as an error under the name of its source, and the valid items of every
    other task are in the result. *)
Theorem parse_all_sources_isolates_failures (sources : list (pystr * SourceConfig))
    (s : Service) :
  let enabled_sources := List.filter (fun ns => enabled ns.2) sources in
  let outcomes := task_outcomes enabled_sources s in
  let result :=
    List.filter (Validation.is_valid validation_chain) (concat (contribution <$> outcomes)) in
  (parse_all_sources sources s).1 = Ok result
  /\ (forall source e, (source, Raise e) ∈ outcomes ->
        contribution (source, Raise e) = []
        /\ Increment (u "parser.source_error") (name source)
             ∈ metrics (parse_all_sources sources s).2)
  /\ (forall source news_items news,
        (source, Ok news_items) ∈ outcomes -> news ∈ news_items ->
        Validation.is_valid validation_chain news = true -> news ∈ result).
Proof.
  intros enabled_sources outcomes result.
  assert (Hresult : forall source news_items news,
             (source, Ok news_items) ∈ outcomes -> news ∈ news_items ->
             Validation.is_valid validation_chain news = true -> news ∈ result).
  { intros source news_items news Ho Hn Hv. unfold result.
    apply list_elem_of_In, filter_In. split; [|exact Hv].
    apply in_concat. exists news_items. split; [|apply list_elem_of_In, Hn].
    apply list_elem_of_In, list_elem_of_fmap. exists (source, Ok news_items).
    split; [reflexivity|exact Ho]. }
  assert (Hgen : (parse_enabled head_status strategy_parse call_time default_breaker
                    validation_chain enabled_sources s).1 = Ok result
                 /\ forall source e, (source, Raise e) ∈ outcomes ->
                      Increment (u "parser.source_error") (name source)
                        ∈ metrics (parse_enabled head_status strategy_parse call_time
                                     default_breaker validation_chain enabled_sources s).2).
  2: { unfold Parser.parse_all_sources. fold enabled_sources.
       destruct Hgen as [Hg1 Hg2].
       assert (Hnil : enabled_sources = [] -> outcomes = [])
         by (intros E; unfold outcomes; rewrite E; reflexivity).
       destruct enabled_sources as [|ns rest].
       - split; [unfold result; rewrite (Hnil eq_refl); reflexivity|].
         split; [|exact Hresult].
         intros ? ? H. rewrite (Hnil eq_refl) in H. inversion H.
       - split; [exact Hg1|]. split; [|exact Hresult].
         intros source e Hin. split; [reflexivity|]. apply (Hg2 source e Hin). }
  unfold parse_enabled.
  destruct (gather_spec enabled_sources s) as (Hg & Hgp & Hge).
  destruct (gather enabled_sources s) as [results s1]. cbn [fst snd] in *.
  assert (Hlen : length (List.map fst enabled_sources) = length results).
  { rewrite Hg, length_map, length_fmap.
    clear. revert s. induction enabled_sources as [|[n src] l IH]; intros s; [reflexivity|].
    cbn [length Parser.task_outcomes].
    destruct (breaker_for default_breaker src s). cbn [length]. f_equal. apply IH. }
  destruct (collect_spec (List.map fst enabled_sources) results s1 Hlen) as [Hc Hcp].
  destruct (collect (List.map fst enabled_sources) results s1) as [[all_news failed] s2].
  cbn [fst snd] in *.
  destruct (validate_all_spec all_news s2) as [Hv Hvp].
  destruct (validate_all all_news s2) as [validated s3]. cbn [fst snd] in *.
  split.
  - f_equal. rewrite Hv, Hc, Hg. unfold result, outcomes.
    rewrite contribution_concat. reflexivity.
  - intros source e Hin.
    rewrite record_metrics. apply elem_of_app. left.
    eapply elem_of_prefix; [|exact Hvp]. eapply elem_of_prefix; [|exact Hcp].
    apply (Hge source e Hin).
Qed.

End Facts.

Lemma parse_all_sources_isolates_failures_witness :
  (Parser.parse_all_sources (fun _ => Ok 200) second_times_out (fun _ => 0%Q)
     (new_breaker 5 60) [] three_sources new_service).1
  = Ok [item_of "a"; item_of "c"]
  /\ Increment (u "parser.source_error") (u "b")
       ∈ metrics (Parser.parse_all_sources (fun _ => Ok 200) second_times_out (fun _ => 0%Q)
                    (new_breaker 5 60) [] three_sources new_service).2.
Proof.
  pose proof (parse_all_sources_isolates_failures (fun _ => Ok 200) second_times_out
                (fun _ => 0%Q) (new_breaker 5 60) [] three_sources new_service)
    as (Hr & Hf & _).
  split; [rewrite Hr; vm_compute; reflexivity|].
  apply (Hf (source_named "b") (Exn (ExternalError (u "TimeoutError")) (u "timed out"))).
  vm_compute. right. left.
Defined.

(** *** What the collector is told *)



Section Accounting.
Variable head_status : SourceConfig -> Res Z.
Variable strategy_parse : SourceConfig -> Res (list NewsItem).
Variable call_time : SourceConfig -> Q.
Variable default_breaker : CircuitBreaker.
Variable validation_chain : list Validation.validator.

Abbreviation guarded_parse := (guarded_parse head_status strategy_parse call_time).
Abbreviation parse_source := (parse_source head_status strategy_parse call_time default_breaker).
Abbreviation gather := (gather head_status strategy_parse call_time default_breaker).
Abbreviation task_outcomes :=
  (task_outcomes head_status strategy_parse call_time default_breaker).
Abbreviation validate_all := (validate_all validation_chain).
Abbreviation parse_all_sources :=
  (parse_all_sources head_status strategy_parse call_time default_breaker validation_chain).








End Accounting.

End ParserFacts.

(** ** The event bus *)

Module EventBusFacts.
Import EventBus PyFacts.

Section Facts.
Context {H : Type} `{EqDecision H}.
Variable run : H -> pystr -> Res unit.

Lemma handlers_for_subscribe_eq t (h : H) hs :
  handlers_for t (subscribe t h hs) = handlers_for t hs ++ [h].
Proof.
  unfold handlers_for, subscribe, getitem.
  destruct (dict_get t hs) as [l|] eqn:E; rewrite dict_get_set_eq; reflexivity.
Qed.

Lemma handlers_for_subscribe_ne t t' (h : H) hs :
  t' <> t -> handlers_for t' (subscribe t h hs) = handlers_for t' hs.
Proof.
  intros Hne. unfold handlers_for, subscribe, getitem.
  destruct (dict_get t hs) as [l|] eqn:E; rewrite !dict_get_set_ne by exact Hne; reflexivity.
Qed.

Lemma publish_calls t (hs : handlers) :
  publish run t hs = (Ok tt, List.map (fun h => (h, run h t)) (handlers_for t hs)).
Proof. unfold publish. destruct (handlers_for t hs); reflexivity. Qed.

(** X23: [publish] never raises, whatever its handlers do, and calls
    exactly the handlers subscribed for the event type, in the order of
    their subscription; a handler subscribed for a type is called last
    on the next event of that type and changes nothing for the other
    types; [get_handlers_count] grows by one; and an event without
    subscriber calls nobody. *)
Theorem publish_reaches_subscribers t (h : H) (hs : handlers) :
  (forall t', (publish run t' hs).1 = Ok tt
              /\ List.map fst (publish run t' hs).2 = handlers_for t' hs)
  /\ (publish run t (subscribe t h hs)).2 = (publish run t hs).2 ++ [(h, run h t)]
  /\ (forall t', t' <> t -> publish run t' (subscribe t h hs) = publish run t' hs)
  /\ get_handlers_count t (subscribe t h hs) = get_handlers_count t hs + 1
  /\ (handlers_for t hs = [] -> (publish run t hs).2 = []).
Proof.
  split; [|split; [|split; [|split]]].
  - intros t'. rewrite publish_calls. cbn [fst snd]. split; [reflexivity|].
    rewrite map_map. cbn. apply map_id.
  - rewrite !publish_calls. cbn [snd]. rewrite handlers_for_subscribe_eq, map_app.
    reflexivity.
  - intros t' Hne. rewrite !publish_calls, handlers_for_subscribe_ne by exact Hne.
    reflexivity.
  - unfold get_handlers_count. rewrite handlers_for_subscribe_eq, length_app. cbn. lia.
  - intros E. rewrite publish_calls, E. reflexivity.
Qed.

Lemma list_remove_None (x : H) l : list_remove x l = None <-> x ∉ l.
Proof.
  induction l as [|y l IH]; cbn.
  - split; [intros _ Hin; inversion Hin|reflexivity].
  - destruct (decide (y = x)) as [->|Hne].
    + split; [discriminate|]. intros Hn. exfalso. apply Hn. left.
    + destruct (list_remove x l) as [l'|]; cbn.
      * split; [discriminate|]. intros Hn. exfalso.
        assert (Hx : x ∉ l) by (intros Hin; apply Hn; right; exact Hin).
        apply IH in Hx. discriminate.
      * split; [|reflexivity]. intros _ Hin. apply elem_of_cons in Hin as [->|Hin];
          [contradiction|]. apply (proj1 IH eq_refl Hin).
Qed.

Lemma list_remove_Some (x : H) l l' :
  list_remove x l = Some l' ->
  exists before after, l = before ++ x :: after /\ l' = before ++ after /\ x ∉ before.
Proof.
  revert l'. induction l as [|y l IH]; intros l'; cbn; [discriminate|].
  destruct (decide (y = x)) as [->|Hne].
  - intros [= <-]. exists [], l. repeat split. intros Hin. inversion Hin.
  - destruct (list_remove x l) as [l1|]; cbn; [|discriminate].
    intros [= <-]. destruct (IH l1 eq_refl) as (b & a & -> & -> & Hb).
    exists (y :: b), a. repeat split. intros Hin.
    apply elem_of_cons in Hin as [->|Hin]; [contradiction|exact (Hb Hin)].
Qed.

Lemma list_remove_last (x : H) l : x ∉ l -> list_remove x (l ++ [x]) = Some l.
Proof.
  induction l as [|y l IH]; intros Hn; cbn.
  - destruct (decide (x = x)); [reflexivity|contradiction].
  - destruct (decide (y = x)) as [->|Hne]; [exfalso; apply Hn; left|].
    rewrite IH; [reflexivity|]. intros Hin. apply Hn. right. exact Hin.
Qed.

(** X24: [unsubscribe] of a handler that is not subscribed for the type
    changes no subscription and raises nothing; of a handler that is,
    it removes the first of its subscriptions for that type and only
    that one, so that the count falls by one; the other event types keep
    their handlers; and subscribing a handler that was not subscribed
    and unsubscribing it again restores every subscription. *)
Theorem unsubscribe_removes_first t (h : H) (hs : handlers) :
  (h ∉ handlers_for t hs ->
   forall t', handlers_for t' (unsubscribe t h hs) = handlers_for t' hs)
  /\ (h ∈ handlers_for t hs ->
      exists before after,
        handlers_for t hs = before ++ h :: after
        /\ (h ∉ before)
        /\ handlers_for t (unsubscribe t h hs) = before ++ after
        /\ get_handlers_count t (unsubscribe t h hs) = get_handlers_count t hs - 1)
  /\ (forall t', t' <> t -> handlers_for t' (unsubscribe t h hs) = handlers_for t' hs)
  /\ (h ∉ handlers_for t hs ->
      forall t', handlers_for t' (unsubscribe t h (subscribe t h hs)) = handlers_for t' hs).
Proof.
  assert (Hother : forall t', t' <> t ->
             handlers_for t' (unsubscribe t h hs) = handlers_for t' hs).
  { intros t' Hne. unfold unsubscribe, handlers_for.
    destruct (dict_get t hs) as [l|]; [|reflexivity].
    destruct (list_remove h l); [|reflexivity].
    rewrite dict_get_set_ne by exact Hne. reflexivity. }
  split; [|split; [|split; [exact Hother|]]].
  - intros Hn t'. unfold unsubscribe, handlers_for in *.
    destruct (dict_get t hs) as [l|] eqn:E; [|reflexivity]. cbn in Hn.
    apply list_remove_None in Hn. rewrite Hn. reflexivity.
  - intros Hin. unfold unsubscribe, get_handlers_count, handlers_for in *.
    destruct (dict_get t hs) as [l|] eqn:E; cbn in Hin; [|inversion Hin].
    destruct (list_remove h l) as [l'|] eqn:Er.
    + destruct (list_remove_Some h l l' Er) as (b & a & -> & -> & Hb).
      exists b, a. rewrite dict_get_set_eq. cbn.
      repeat split; try assumption. rewrite !length_app. cbn. lia.
    + apply list_remove_None in Er. contradiction.
  - intros Hn t'. destruct (decide (t' = t)) as [->|Hne].
    + assert (E : dict_get t (subscribe t h hs) = Some (handlers_for t hs ++ [h])).
      { unfold handlers_for, subscribe, getitem.
        destruct (dict_get t hs); rewrite dict_get_set_eq; reflexivity. }
      unfold unsubscribe. rewrite E, (list_remove_last h _ Hn).
      unfold handlers_for at 1. rewrite dict_get_set_eq. reflexivity.
    + unfold unsubscribe, handlers_for.
      destruct (dict_get t (subscribe t h hs)) as [l|];
        [destruct (list_remove h l); [rewrite dict_get_set_ne by exact Hne|]|];
        apply (handlers_for_subscribe_ne t t' h hs Hne).
Qed.

(** X25: [clear_handlers] without event type removes every handler, and
    so does [clear_handlers] with the empty string as event type, which
    [if event_type:] takes for no type at all; with an event type that is
    not empty it leaves that type without handlers and every other type
    with the handlers it had. *)
Theorem clear_handlers_empty_string (t : pystr) (hs : @handlers H) :
  clear_handlers None hs = []
  /\ clear_handlers (Some []) hs = []
  /\ (forall t', handlers_for t' (clear_handlers (Some []) hs) = [])
  /\ (t <> [] ->
      handlers_for t (clear_handlers (Some t) hs) = []
      /\ forall t', t' <> t ->
           handlers_for t' (clear_handlers (Some t) hs) = handlers_for t' hs).
Proof.
  split; [reflexivity|]. split; [reflexivity|]. split; [reflexivity|].
  intros Hne. assert (Ht : truthy t = true) by (destruct t; [contradiction|reflexivity]).
  unfold clear_handlers. rewrite Ht. unfold handlers_for, getitem. split.
  - rewrite dict_get_set_eq. reflexivity.
  - intros t' Hne'. destruct (dict_get t hs); cbn [snd];
      rewrite !dict_get_set_ne by exact Hne'; reflexivity.
Qed.

End Facts.

Lemma unsubscribe_removes_first_witness :
  handlers_for (u "news.parsed") (unsubscribe (u "news.parsed") 1%nat two_handlers) = [2%nat].
Proof.
  destruct (proj1 (proj2 (unsubscribe_removes_first (u "news.parsed") 1%nat two_handlers)))
    as (before & after & E & Hb & Hr & _).
  - vm_compute. left.
  - rewrite Hr. destruct before as [|x before].
    + vm_compute in E. injection E as <-. reflexivity.
    + exfalso. vm_compute in E. injection E as <- _. apply Hb. left.
Defined.

End EventBusFacts.

(** ** The metrics collector *)

Module MetricsFacts.
Import Metrics PyFacts.

Lemma str_compare_eq a b : str_compare a b = Eq <-> a = b.
Proof.
  revert b. induction a as [|x a IH]; intros [|y b]; cbn; try (split; congruence).
  destruct (x ?= y)%N eqn:E.
  - apply N.compare_eq_iff in E. subst y. rewrite IH. split; congruence.
  - split; [discriminate|]. intros [= -> _]. rewrite N.compare_refl in E. discriminate.
  - split; [discriminate|]. intros [= -> _]. rewrite N.compare_refl in E. discriminate.
Qed.

Lemma str_compare_antisym a b : str_compare b a = CompOpp (str_compare a b).
Proof.
  revert b. induction a as [|x a IH]; intros [|y b]; cbn; try reflexivity.
  rewrite (N.compare_antisym x y). destruct (x ?= y)%N; cbn; [apply IH|reflexivity..].
Qed.

Lemma str_compare_trans a b c :
  str_compare a b = Lt -> str_compare b c = Lt -> str_compare a c = Lt.
Proof.
  revert b c. induction a as [|x a IH]; intros [|y b] [|z c]; cbn; try congruence.
  destruct (x ?= y)%N eqn:E1, (y ?= z)%N eqn:E2; try discriminate; intros H1 H2.
  - apply N.compare_eq_iff in E1, E2. subst. rewrite N.compare_refl. eapply IH; eassumption.
  - apply N.compare_eq_iff in E1. subst. rewrite E2. reflexivity.
  - apply N.compare_eq_iff in E2. subst. rewrite E1. reflexivity.
  - apply N.compare_lt_iff in E1, E2.
    rewrite (proj2 (N.compare_lt_iff x z)) by (eapply N.lt_trans; eassumption). reflexivity.
Qed.

Lemma str_compare_refl a : str_compare a a = Eq.
Proof. apply str_compare_eq. reflexivity. Qed.

#[local] Instance tuple_le_total : Total tuple_le.
Proof.
  intros [k1 v1] [k2 v2]. unfold tuple_le. cbn [fst snd].
  rewrite (str_compare_antisym k1 k2), (str_compare_antisym v1 v2).
  destruct (str_compare k1 k2), (str_compare v1 v2); cbn; auto; left; discriminate.
Qed.

#[local] Instance tuple_le_antisym : AntiSymm eq tuple_le.
Proof.
  intros [k1 v1] [k2 v2]. unfold tuple_le. cbn [fst snd].
  rewrite (str_compare_antisym k1 k2), (str_compare_antisym v1 v2).
  destruct (str_compare k1 k2) eqn:Ek, (str_compare v1 v2) eqn:Ev; cbn;
    intros H1 H2; try contradiction; try congruence.
  apply str_compare_eq in Ek, Ev. congruence.
Qed.

#[local] Instance tuple_le_trans : Transitive tuple_le.
Proof.
  intros [k1 v1] [k2 v2] [k3 v3]. unfold tuple_le. cbn [fst snd].
  destruct (str_compare k1 k2) eqn:E12; try contradiction.
  - apply str_compare_eq in E12. subst k2.
    destruct (str_compare k1 k3) eqn:E13; try tauto.
    intros H12 H23 H13.
    destruct (str_compare v1 v2) eqn:V12; try congruence.
    + apply str_compare_eq in V12. subst v2. contradiction.
    + destruct (str_compare v2 v3) eqn:V23; try congruence.
      * apply str_compare_eq in V23. subst v3. congruence.
      * rewrite (str_compare_trans v1 v2 v3 V12 V23) in H13. discriminate.
  - intros _. destruct (str_compare k2 k3) eqn:E23; try contradiction.
    + apply str_compare_eq in E23. subst k3. rewrite E12. auto.
    + rewrite (str_compare_trans k1 k2 k3 E12 E23). auto.
Qed.

Lemma sorted_tags_unique (t1 t2 : list (pystr * pystr)) :
  t1 ≡ₚ t2 -> merge_sort tuple_le t1 = merge_sort tuple_le t2.
Proof.
  intros Hp. apply (StronglySorted_unique tuple_le).
  - apply StronglySorted_merge_sort; apply _.
  - apply StronglySorted_merge_sort; apply _.
  - rewrite !merge_sort_Permutation. exact Hp.
Qed.

(** X26: the key of a metric does not depend on the order in which its
    tags were put into the dict: two dicts with the same items give the
    same key.  Without tags, or with an empty dict of tags, the key is
    the name of the metric; otherwise it is the name followed by the
    items, as k=v, sorted and joined by commas, between brackets. *)
Theorem build_key_ignores_tag_order (metric : pystr) (t1 t2 : list (pystr * pystr)) :
  (t1 ≡ₚ t2 -> _build_key metric (Some t1) = _build_key metric (Some t2))
  /\ _build_key metric None = metric
  /\ _build_key metric (Some []) = metric
  /\ (t1 <> [] ->
      _build_key metric (Some t1)
      = metric ++ u "[" ++ join (u ",") (List.map tag_item (merge_sort tuple_le t1)) ++ u "]"
        /\ StronglySorted tuple_le (merge_sort tuple_le t1)
        /\ merge_sort tuple_le t1 ≡ₚ t1).
Proof.
  split; [|split; [reflexivity|split; [reflexivity|]]].
  - intros Hp. destruct t1 as [|p1 t1], t2 as [|p2 t2].
    + reflexivity.
    + apply Permutation_nil_l in Hp. discriminate.
    + apply Permutation_nil_r in Hp. discriminate.
    + unfold _build_key. rewrite (sorted_tags_unique _ _ Hp). reflexivity.
  - intros Hne. destruct t1 as [|p1 t1]; [contradiction|].
    split; [reflexivity|]. split.
    + apply StronglySorted_merge_sort; apply _.
    + apply merge_sort_Permutation.
Qed.

(** The key of a metric is the metric followed by what its tags add. *)
Lemma build_key_suffix (t : tags) :
  exists suffix, forall metric, _build_key metric t = metric ++ suffix.
Proof.
  destruct t as [[|p items]|].
  - exists []. intros metric. cbn. rewrite app_nil_r. reflexivity.
  - eexists. intros metric. reflexivity.
  - exists []. intros metric. cbn. rewrite app_nil_r. reflexivity.
Qed.

Lemma build_key_inj (t : tags) (m1 m2 : pystr) :
  _build_key m1 t = _build_key m2 t -> m1 = m2.
Proof.
  destruct (build_key_suffix t) as (suffix & Hs). rewrite !Hs.
  apply app_inv_tail.
Qed.

Lemma get_counter_increment metric t metric' t' c :
  get_counter metric' t' (increment_counter metric t c)
  = get_counter metric' t' c
    + (if bool_decide (_build_key metric' t' = _build_key metric t) then 1 else 0).
Proof.
  unfold get_counter, increment_counter. cbn [counters].
  destruct (bool_decide (_build_key metric' t' = _build_key metric t)) eqn:E.
  - apply bool_decide_eq_true in E. rewrite E, dict_get_set_eq. reflexivity.
  - apply bool_decide_eq_false in E. rewrite dict_get_set_ne by exact E. lia.
Qed.

(** X27: [increment_counter] adds one to the counter read by
    [get_counter] under the same metric and tags, and to any counter
    whose key is the same; a counter with another key keeps its value,
    in particular the counter of another metric under the same tags; a
    counter that was never incremented reads 0; gauges and durations are
    not touched. *)
Theorem increment_counter_counts metric t metric' t' c :
  get_counter metric' t' (increment_counter metric t c)
  = get_counter metric' t' c
    + (if bool_decide (_build_key metric' t' = _build_key metric t) then 1 else 0)
  /\ get_counter metric t (increment_counter metric t c) = get_counter metric t c + 1
  /\ (metric' <> metric ->
      get_counter metric' t (increment_counter metric t c) = get_counter metric' t c)
  /\ get_counter metric t new_collector = 0
  /\ gauges (increment_counter metric t c) = gauges c
  /\ durations (increment_counter metric t c) = durations c.
Proof.
  split; [apply get_counter_increment|]. split; [|split; [|repeat split]].
  - rewrite get_counter_increment, bool_decide_eq_true_2 by reflexivity. reflexivity.
  - intros Hne. rewrite get_counter_increment, bool_decide_eq_false_2; [lia|].
    intros E. apply Hne. exact (build_key_inj t _ _ E).
Qed.

(** X28: a function wrapped by [timed_metric] returns what it returned
    and raises what it raised; after the call the counter
    metric_name.success has grown by one when the function returned and
    not at all when it raised, the counter metric_name.error the other
    way round, one duration, the time elapsed, has been added to those
    of the metric, and the gauges are as the function left them. *)
Theorem timed_metric_is_transparent {A} (start_time end_time : Q) (metric_name : pystr)
    (t : tags) (func : Collector -> Res A * Collector) (c : Collector) :
  let r := timed_metric start_time end_time metric_name t func c in
  r.1 = (func c).1
  /\ get_counter (metric_name ++ u ".success") t r.2
     = get_counter (metric_name ++ u ".success") t (func c).2
       + (if is_ok (func c).1 then 1 else 0)
  /\ get_counter (metric_name ++ u ".error") t r.2
     = get_counter (metric_name ++ u ".error") t (func c).2
       + (if is_ok (func c).1 then 0 else 1)
  /\ durations_of metric_name t r.2
     = durations_of metric_name t (func c).2 ++ [(end_time - start_time)%Q]
  /\ gauges r.2 = gauges (func c).2.
Proof.
  intros r. subst r. unfold timed_metric.
  destruct (func c) as [result c1]. cbn [fst snd].
  assert (Hne : metric_name ++ u ".success" <> metric_name ++ u ".error").
  { intros E. apply app_inv_head in E. vm_compute in E. discriminate. }
  assert (Hkey : _build_key (metric_name ++ u ".success") t
                 <> _build_key (metric_name ++ u ".error") t).
  { intros E. apply Hne. exact (build_key_inj t _ _ E). }
  split; [reflexivity|].
  assert (Hrec : forall m d c0 m' t', get_counter m' t' (record_duration m d t c0)
                                      = get_counter m' t' c0) by reflexivity.
  rewrite !Hrec.
  split; [|split; [|split]].
  - destruct result; cbn [is_ok]; rewrite get_counter_increment.
    + rewrite bool_decide_eq_true_2 by reflexivity. reflexivity.
    + rewrite bool_decide_eq_false_2 by exact Hkey. reflexivity.
  - destruct result; cbn [is_ok]; rewrite get_counter_increment.
    + rewrite bool_decide_eq_false_2 by (intros E; apply Hkey; symmetry; exact E).
      reflexivity.
    + rewrite bool_decide_eq_true_2 by reflexivity. reflexivity.
  - unfold durations_of, record_duration. cbn [durations].
    rewrite dict_get_set_eq. cbn. destruct result; reflexivity.
  - destruct result; reflexivity.
Qed.

Lemma build_key_ignores_tag_order_witness :
  _build_key (u "parser.source_error") tags_ab = _build_key (u "parser.source_error") tags_ba.
Proof.
  apply (proj1 (build_key_ignores_tag_order (u "parser.source_error")
                  [(u "source", u "a"); (u "status", u "b")]
                  [(u "status", u "b"); (u "source", u "a")])).
  apply Permutation_swap.
Defined.

End MetricsFacts.

(** ** The content processor *)

Module ContentProcessorFacts.
Import Bot ContentProcessor.

Lemma startswith_app (p s : pystr) : startswith (p ++ s) p = true.
Proof.
  induction p as [|c p IH]; cbn; [destruct s; reflexivity|].
  rewrite N.eqb_refl. exact IH.
Qed.

Section Facts.
Variable lower : pystr -> pystr.
Variable re_sub_word : pystr -> pystr -> pystr -> pystr.
Variable re_split_sentences : pystr -> list pystr.
Variable gigachat : NewsItem -> Res (option pystr).

Abbreviation alternative :=
  (_create_alternative_rephrasing lower re_sub_word re_split_sentences).
Abbreviation process_content :=
  (ContentProcessor.process_content lower re_sub_word re_split_sentences gigachat).
Abbreviation blocked := (_is_gigachat_blocked_response lower).

Lemma alternative_shape t c city :
  startswith (alternative t c city) (u "Заголовок: ") = true
  /\ truthy (alternative t c city) = true.
Proof.
  unfold _create_alternative_rephrasing. cbv zeta. rewrite <- !app_assoc. split.
  - apply startswith_app.
  - reflexivity.
Qed.

(** X30: [process_content] of the GigaChat processor always returns a
    text that is not empty: either the text GigaChat returned, when the
    topic is not sensitive and that text is neither empty nor a refusal,
    or the alternative rephrasing, which starts with the title label;
    for a sensitive topic the answer is the alternative rephrasing
    whatever GigaChat would say.  With this processor the content stage
    of the orchestrator therefore marks every item it reads as
    processed, never as failed. *)
Theorem process_content_never_empty (news : NewsItem) :
  truthy (process_content news) = true
  /\ (process_content news = alternative (title news) (content news) (city news)
      \/ (_is_sensitive_topic lower (title news) (content news) = false
          /\ gigachat news = Ok (Some (process_content news))
          /\ blocked (process_content news) = false))
  /\ (_is_sensitive_topic lower (title news) (content news) = true ->
      process_content news = alternative (title news) (content news) (city news))
  /\ startswith (alternative (title news) (content news) (city news)) (u "Заголовок: ")
     = true
  /\ (forall env,
         Bot.process_content env
         = as_content_processor lower re_sub_word re_split_sentences gigachat ->
         status_after_processing env news = PROCESSED).
Proof.
  pose proof (alternative_shape (title news) (content news) (city news)) as [Hs Ht].
  assert (Hcases :
            process_content news = alternative (title news) (content news) (city news)
            \/ (_is_sensitive_topic lower (title news) (content news) = false
                /\ gigachat news = Ok (Some (process_content news))
                /\ blocked (process_content news) = false
                /\ truthy (process_content news) = true)).
  { unfold ContentProcessor.process_content.
    destruct (_is_sensitive_topic lower (title news) (content news)); [left; reflexivity|].
    destruct (gigachat news) as [[result|]|e]; cbn [truthy_opt default from_option];
      try (left; reflexivity).
    cbn [Datatypes.id]. destruct (truthy result) eqn:Tr; cbn [andb]; [|left; reflexivity].
    destruct (_is_gigachat_blocked_response lower result) eqn:Bl; [left; reflexivity|].
    right. repeat split; assumption. }
  assert (Htruthy : truthy (process_content news) = true).
  { destruct Hcases as [->|(_ & _ & _ & H)]; assumption. }
  split; [exact Htruthy|]. split; [|split; [|split; [exact Hs|]]].
  - destruct Hcases as [H|(H1 & H2 & H3 & _)]; [left; exact H|right; auto].
  - intros Hsens. unfold ContentProcessor.process_content. rewrite Hsens. reflexivity.
  - intros env Henv. unfold status_after_processing, as_content_processor in *.
    rewrite Henv. cbn [truthy_opt]. rewrite Htruthy. reflexivity.
Qed.

End Facts.
End ContentProcessorFacts.
